(** * fetch-user-environment: the settings diff and the extension update

    A shallow embedding of [src/extension.ts] (class [FetchEnvironment]) and
    the properties of its settings comparison, its defaults merge, its
    extension update and its path confirmation loops.  Of the saving of the
    environment, [copyEnvToRemote] is embedded; the dialogs of
    [saveEnvironment] before it are not: they create and list folders
    through calls that have not completed when the next one starts.

    Modelling conventions.
    - A JavaScript value is a [value]: the JSON values that [JSON.parse]
      returns, and [Undefined], which the code meets when it reads a property
      that is not there.  Numbers are integers ([Z]) and strings are lists of
      8-bit characters; the code only ever tests them with [!==].
    - An object is the list of its own enumerable properties in [for-in]
      order; a real object never holds a key twice ([wf]).  The code reaches
      the members of [Object.prototype] through [o[k]], [o[k] = v] and
      [o.hasOwnProperty(k)]; the embedding of these three is exact for the
      documents no key of which is the name of such a member.  A key that is
      created stays behind the keys that were there, which holds of the keys
      that are not made of digits.  [plain] is the two conditions together,
      and a property of what the code returns for any document carries it
      as a hypothesis.
    - An exception is a [Throw] result; a method that throws keeps the
      effects it made before it threw.
    - The file store holds, for a path, the document that a settings file
      parses to or the folders of a directory; [path.join] is a
      concatenation.  A settings document is an object at its top level, and
      the manifest of a package holds its three strings.  A write to a file
      of the store succeeds: the folder of the file is taken to exist and to
      be writable.
    - The calls to the host and to the file store are recorded in a trace.
      The answers of the user are scripted: a list of texts for the input
      boxes, in the world, and a list of choices for the dialogs with
      options, given to the two public methods.  The copies of [fse.copy] and
      the choice of [Reload] complete after the method returns and are
      recorded as calls only. *)

From Stdlib Require Import List String Ascii ZArith Bool Lia.
From Stdlib Require Import DecimalNat DecimalString Permutation.
Import ListNotations.
Local Open Scope string_scope.

(** ** Errors *)

(** The exceptions the code meets: its own [JSONError] (line 17), the
    [TypeError] of the runtime and the errors of the file system. *)
Inductive error : Type :=
| JSONError (message filename : string)
| TypeError
| SystemError (message : string).

Inductive result (A : Type) : Type :=
| Ok (a : A)
| Throw (e : error).
Arguments Ok {A} a.
Arguments Throw {A} e.

(** ** JavaScript values *)

#[local] Set Warnings "-register-all".

Inductive value : Type :=
| Undefined
| Null
| Bool (b : bool)
| Num (n : Z)
| Str (s : string)
| Arr (elems : list value)
| Obj (members : list (string * value)).

Definition props : Type := list (string * value).

(** [typeof v === 'object'] holds of objects, arrays and [null]. *)
Definition typeofObject (v : value) : bool :=
  match v with
  | Null | Arr _ | Obj _ => true
  | _ => false
  end.

(** The property name of an array index. *)
Definition indexKey (i : nat) : string :=
  NilEmpty.string_of_uint (Nat.to_uint i).

Fixpoint indexed (i : nat) (vs : list value) : props :=
  match vs with
  | [] => []
  | v :: rest => (indexKey i, v) :: indexed (S i) rest
  end.

Fixpoint chars (s : string) : list value :=
  match s with
  | EmptyString => []
  | String c rest => Str (String c EmptyString) :: chars rest
  end.

(** [for (let prop in v)]: the enumerable properties of [v] in order, each
    with its value.  Nothing is enumerated for [null], [undefined], a number
    or a boolean. *)
Definition forIn (v : value) : props :=
  match v with
  | Obj ps => ps
  | Arr vs => indexed 0 vs
  | Str s => indexed 0 (chars s)
  | _ => []
  end.

Definition keys (ps : props) : list string := map fst ps.

Fixpoint lookup (k : string) (ps : props) : option value :=
  match ps with
  | [] => None
  | (k', v) :: rest => if String.eqb k' k then Some v else lookup k rest
  end.

(** The own property [k] of [v], if [v.hasOwnProperty(k)]: arrays and
    strings own their indices and [length]. *)
Definition getOwn (v : value) (k : string) : option value :=
  match v with
  | Obj ps => lookup k ps
  | Arr vs =>
      if String.eqb k "length" then Some (Num (Z.of_nat (List.length vs)))
      else lookup k (indexed 0 vs)
  | Str s =>
      if String.eqb k "length" then Some (Num (Z.of_nat (String.length s)))
      else lookup k (indexed 0 (chars s))
  | _ => None
  end.

(** [o[k]] on a value that can be read from.  A name that [o] does not own
    reads as [undefined]: [k] is not the name of a member of the prototype
    of [o] (see [plain]). *)
Definition get (o : value) (k : string) : value :=
  match getOwn o k with
  | Some v => v
  | None => Undefined
  end.

(** [typeof(o[k]) === 'undefined' || !o.hasOwnProperty(k)]; reading a
    property of [null] or [undefined] throws.  The method [hasOwnProperty] is
    the one of [Object.prototype]: [o] owns no property of that name (see
    [plain]). *)
Definition missing (o : value) (k : string) : result bool :=
  match o with
  | Undefined | Null => Throw TypeError
  | _ =>
      match getOwn o k with
      | Some Undefined | None => Ok true
      | Some _ => Ok false
      end
  end.

(** [a !== b] negated, for the operands the code gives it: [b] is never an
    object or an array, and two parsed documents share no reference. *)
Definition strictEq (a b : value) : bool :=
  match a, b with
  | Undefined, Undefined => true
  | Null, Null => true
  | Bool x, Bool y => Bool.eqb x y
  | Num x, Num y => Z.eqb x y
  | Str x, Str y => String.eqb x y
  | _, _ => false
  end.

(** [for (let key in v) { if (v.hasOwnProperty(key)) ... }] runs its body. *)
Definition hasKeys (v : value) : bool :=
  match forIn v with
  | [] => false
  | _ :: _ => true
  end.

(** [target[k] = v], which creates or replaces the own property [k]: [k] is
    not [__proto__], and a property that is created is enumerated after the
    others (see [plain]). *)
Fixpoint setProp (target : props) (k : string) (v : value) : props :=
  match target with
  | [] => [(k, v)]
  | (k', v') :: rest =>
      if String.eqb k' k then (k', v) :: rest
      else (k', v') :: setProp rest k v
  end.

(** [Object.assign(target, source)]. *)
Definition assign (target source : props) : props :=
  fold_left (fun t kv => setProp t (fst kv) (snd kv)) source target.

(** [delete o[k]]. *)
Fixpoint deleteProp (k : string) (ps : props) : props :=
  match ps with
  | [] => []
  | (k', v) :: rest =>
      if String.eqb k' k then deleteProp k rest
      else (k', v) :: deleteProp k rest
  end.

(** ** compareUpdate (lines 749-792) *)

(** The two loops of quick wins: the first [prop] of [ks] that [o] misses
    ends the search. *)
Fixpoint anyMissing (o : value) (ks : list string) : result bool :=
  match ks with
  | [] => Ok false
  | k :: rest =>
      match missing o k with
      | Throw e => Throw e
      | Ok true => Ok true
      | Ok false => anyMissing o rest
      end
  end.

(** One turn of the loop of lines 769-788 at a property whose value in
    [compare] is [v] and in [base] is [b]; [sub] is the recursive call and
    [next] the rest of the loop. *)
Definition compareItem (compare b v : value)
    (sub next : result value) : result value :=
  if typeofObject v then
    match sub with
    | Throw e => Throw e
    | Ok diff => if hasKeys diff then Ok compare else next
    end
  else if negb (strictEq b v) then Ok compare
  else next.

Fixpoint compareUpdate (base compare : value) {struct compare}
    : result value :=
  match anyMissing base (keys (forIn compare)) with
  | Throw e => Throw e
  | Ok true => Ok compare
  | Ok false =>
  match anyMissing compare (keys (forIn base)) with
  | Throw e => Throw e
  | Ok true => Ok compare
  | Ok false =>
      match compare with
      | Obj ps =>
          (fix each (ps : props) : result value :=
             match ps with
             | [] => Ok (Obj [])
             | (prop, v) :: rest =>
                 compareItem compare (get base prop) v
                   (compareUpdate (get base prop) v) (each rest)
             end) ps
      | Arr vs =>
          (fix each (i : nat) (vs : list value) : result value :=
             match vs with
             | [] => Ok (Obj [])
             | v :: rest =>
                 compareItem compare (get base (indexKey i)) v
                   (compareUpdate (get base (indexKey i)) v)
                   (each (S i) rest)
             end) 0%nat vs
      | Str s =>
          (fix each (i : nat) (cs : list value) : result value :=
             match cs with
             | [] => Ok (Obj [])
             | c :: rest =>
                 if negb (strictEq (get base (indexKey i)) c) then Ok compare
                 else each (S i) rest
             end) 0%nat (chars s)
      | _ => Ok (Obj [])
      end
  end
  end.

(** ** The settings delta of a remote document (lines 704-727) *)

(** The loop over the remote settings: each is compared alone with the local
    setting of its name, and a result that has a property is assigned to the
    new settings. *)
Fixpoint remoteLoop (localSettings remoteSettings newSettings : props)
    (updated : bool) : result (props * bool) :=
  match remoteSettings with
  | [] => Ok (newSettings, updated)
  | (prop, v) :: rest =>
      let base := Obj [(prop, get (Obj localSettings) prop)] in
      let compare := Obj [(prop, v)] in
      match compareUpdate base compare with
      | Throw e => Throw e
      | Ok res =>
          if hasKeys res
          then remoteLoop localSettings rest (assign newSettings (forIn res)) true
          else remoteLoop localSettings rest newSettings updated
      end
  end.

(** ** The delta of the default settings (lines 656-665) *)

(** [o.hasOwnProperty(k)] for an object [o] that owns no property of the
    name [hasOwnProperty] (see [plain]). *)
Definition hasOwnProperty (o : props) (k : string) : bool :=
  match lookup k o with
  | Some _ => true
  | None => false
  end.

Fixpoint defaultsLoop (localSettings defaultSettings newSettings : props)
    (updated : bool) : props * bool :=
  match defaultSettings with
  | [] => (newSettings, updated)
  | (prop, v) :: rest =>
      if negb (hasOwnProperty localSettings prop)
      then defaultsLoop localSettings rest (setProp newSettings prop v) true
      else defaultsLoop localSettings rest newSettings updated
  end.

(** The filter of [readSettingsFile] (lines 902-909): the settings of this
    extension are deleted from the document that was read.  The test
    [settingsFile.hasOwnProperty(prop)] holds of every enumerated property
    of a document that owns no property of the name [hasOwnProperty] (see
    [plain]). *)
Definition filterSettings (settingsFile : props) : props :=
  fold_left
    (fun o prop =>
       if String.prefix "fetchUserEnv" prop then deleteProp prop o else o)
    (keys settingsFile) settingsFile.

(** ** The world: the fields of the class, the file store and the host *)

(** The metadata of an extension package. *)
Record manifest : Type := {
  publisher : string;
  name : string;
  version : string
}.

(** What [package.json] is in a folder of the remote extension path. *)
Inductive package : Type :=
| PackageAbsent
| PackageInvalid (message : string)
| PackageJson (m : manifest).

Record folder : Type := {
  folderName : string;
  isDirectory : bool;
  packageFile : package
}.

(** An entry of [vscode.extensions.all]. *)
Record extension : Type := {
  id : string;
  extensionPath : string;
  packageVersion : string
}.

(** A settings file is the document that [JSON.parse] returns for its text
    once the comments are stripped, or the message of the parser. *)
Inductive content : Type :=
| Invalid (message : string)
| Parsed (doc : props).

(** The calls to the host and to the file store, in the order they are
    made.  The output of [console] is left out. *)
Inductive event : Type :=
| ShowInputBox (prompt initial : string)
| ShowErrorChoice (message : string) (options : list string)
| ShowErrorMessage (message : string)
| ShowWarningMessage (message : string)
| ShowInformationMessage (message : string) (options : list string)
| ChannelClear
| ChannelShow
| ChannelAppendLine (text : string)
| ChannelAppendJson (doc : props)
| ReadFile (path : string)
| WriteFile (path : string) (doc : props)
| ReadDir (path : string)
| Copy (src dst : string).

(** The answer to a dialog with options; [Dismissed] is [undefined]. *)
Inductive choice : Type :=
| TryAgain
| Reenter
| Ignore
| Disable
| Dismissed.

Record world : Type := {
  _remoteExtensionPath : option string;
  _remoteSettingsPath : option string;
  _remoteDefaultSettingsFilename : option string;
  _localExtensionPath : string;
  _localSettingsPath : string;
  _localExtVersions : list (string * string);
  extensionsAll : list extension;
  settingsFiles : list (string * content);
  directories : list (string * list folder);
  inputs : list (option string);
  trace : list event
}.

Definition setRemoteExtensionPath (p : option string) (w : world) : world :=
  {| _remoteExtensionPath := p;
     _remoteSettingsPath := _remoteSettingsPath w;
     _remoteDefaultSettingsFilename := _remoteDefaultSettingsFilename w;
     _localExtensionPath := _localExtensionPath w;
     _localSettingsPath := _localSettingsPath w;
     _localExtVersions := _localExtVersions w;
     extensionsAll := extensionsAll w;
     settingsFiles := settingsFiles w;
     directories := directories w;
     inputs := inputs w;
     trace := trace w |}.

Definition setRemoteSettingsPath (p : option string) (w : world) : world :=
  {| _remoteExtensionPath := _remoteExtensionPath w;
     _remoteSettingsPath := p;
     _remoteDefaultSettingsFilename := _remoteDefaultSettingsFilename w;
     _localExtensionPath := _localExtensionPath w;
     _localSettingsPath := _localSettingsPath w;
     _localExtVersions := _localExtVersions w;
     extensionsAll := extensionsAll w;
     settingsFiles := settingsFiles w;
     directories := directories w;
     inputs := inputs w;
     trace := trace w |}.

Definition setRemoteDefaultSettingsFilename (p : option string) (w : world)
    : world :=
  {| _remoteExtensionPath := _remoteExtensionPath w;
     _remoteSettingsPath := _remoteSettingsPath w;
     _remoteDefaultSettingsFilename := p;
     _localExtensionPath := _localExtensionPath w;
     _localSettingsPath := _localSettingsPath w;
     _localExtVersions := _localExtVersions w;
     extensionsAll := extensionsAll w;
     settingsFiles := settingsFiles w;
     directories := directories w;
     inputs := inputs w;
     trace := trace w |}.

Definition setLocalExtVersions (vs : list (string * string)) (w : world)
    : world :=
  {| _remoteExtensionPath := _remoteExtensionPath w;
     _remoteSettingsPath := _remoteSettingsPath w;
     _remoteDefaultSettingsFilename := _remoteDefaultSettingsFilename w;
     _localExtensionPath := _localExtensionPath w;
     _localSettingsPath := _localSettingsPath w;
     _localExtVersions := vs;
     extensionsAll := extensionsAll w;
     settingsFiles := settingsFiles w;
     directories := directories w;
     inputs := inputs w;
     trace := trace w |}.

Definition setSettingsFiles (fs : list (string * content)) (w : world)
    : world :=
  {| _remoteExtensionPath := _remoteExtensionPath w;
     _remoteSettingsPath := _remoteSettingsPath w;
     _remoteDefaultSettingsFilename := _remoteDefaultSettingsFilename w;
     _localExtensionPath := _localExtensionPath w;
     _localSettingsPath := _localSettingsPath w;
     _localExtVersions := _localExtVersions w;
     extensionsAll := extensionsAll w;
     settingsFiles := fs;
     directories := directories w;
     inputs := inputs w;
     trace := trace w |}.

Definition setInputs (l : list (option string)) (w : world) : world :=
  {| _remoteExtensionPath := _remoteExtensionPath w;
     _remoteSettingsPath := _remoteSettingsPath w;
     _remoteDefaultSettingsFilename := _remoteDefaultSettingsFilename w;
     _localExtensionPath := _localExtensionPath w;
     _localSettingsPath := _localSettingsPath w;
     _localExtVersions := _localExtVersions w;
     extensionsAll := extensionsAll w;
     settingsFiles := settingsFiles w;
     directories := directories w;
     inputs := l;
     trace := trace w |}.

Definition setTrace (t : list event) (w : world) : world :=
  {| _remoteExtensionPath := _remoteExtensionPath w;
     _remoteSettingsPath := _remoteSettingsPath w;
     _remoteDefaultSettingsFilename := _remoteDefaultSettingsFilename w;
     _localExtensionPath := _localExtensionPath w;
     _localSettingsPath := _localSettingsPath w;
     _localExtVersions := _localExtVersions w;
     extensionsAll := extensionsAll w;
     settingsFiles := settingsFiles w;
     directories := directories w;
     inputs := inputs w;
     trace := t |}.

(** ** The monad of the methods: state, and exceptions that keep it *)

Definition M (A : Type) : Type := world -> result A * world.

Definition ret {A : Type} (a : A) : M A := fun w => (Ok a, w).

Definition bind {A B : Type} (m : M A) (f : A -> M B) : M B :=
  fun w =>
    match m w with
    | (Ok a, w') => f a w'
    | (Throw e, w') => (Throw e, w')
    end.

Definition throw {A : Type} (e : error) : M A := fun w => (Throw e, w).

(** [try { m } catch (err) { handler err }]. *)
Definition tryCatch {A : Type} (m : M A) (handler : error -> M A) : M A :=
  fun w =>
    match m w with
    | (Ok a, w') => (Ok a, w')
    | (Throw e, w') => handler e w'
    end.

Definition getWorld : M world := fun w => (Ok w, w).

Definition modify (f : world -> world) : M unit := fun w => (Ok tt, f w).

Definition emit (e : event) : M unit :=
  modify (fun w => setTrace (trace w ++ [e]) w).

Declare Scope js_scope.
Delimit Scope js_scope with js.
Notation "x <- m ;; k" := (bind m (fun x => k))
  (at level 61, m at next level, right associativity) : js_scope.
Notation "m ;; k" := (bind m (fun _ => k))
  (at level 61, right associativity) : js_scope.
Local Open Scope js_scope.

(** ** Paths, files and host calls *)

(** [!p] is false of a string that is not empty. *)
Definition truthy (p : option string) : bool :=
  match p with
  | Some s => negb (String.eqb s "")
  | None => false
  end.

(** [path.join(a, b)], as a concatenation. *)
Definition join (a b : string) : string := a ++ "/" ++ b.

(** [path.join] throws a [TypeError] for a path that is not a string. *)
Definition joinField (a : option string) (b : string) : M string :=
  match a with
  | Some p => ret (join p b)
  | None => throw TypeError
  end.

Fixpoint assoc {A : Type} (k : string) (l : list (string * A)) : option A :=
  match l with
  | [] => None
  | (k', a) :: rest => if String.eqb k' k then Some a else assoc k rest
  end.

Fixpoint setAssoc {A : Type} (k : string) (a : A) (l : list (string * A))
    : list (string * A) :=
  match l with
  | [] => [(k, a)]
  | (k', a') :: rest =>
      if String.eqb k' k then (k', a) :: rest
      else (k', a') :: setAssoc k a rest
  end.

(** [fs.existsSync(p)]. *)
Definition existsSync (w : world) (p : string) : bool :=
  match assoc p (settingsFiles w), assoc p (directories w) with
  | None, None => false
  | _, _ => true
  end.

Definition existsField (w : world) (p : option string) : bool :=
  match p with
  | Some s => existsSync w s
  | None => false
  end.

(** [fs.writeFileSync(p, JSON.stringify(doc, null, 2))]: the file then
    parses to [doc], which holds JSON values.  The write succeeds: the
    folder of [p] exists and can be written to. *)
Definition writeSettings (p : string) (doc : props) : M unit :=
  emit (WriteFile p doc) ;;
  modify (fun w => setSettingsFiles (setAssoc p (Parsed doc) (settingsFiles w)) w).

Definition quote : string := String (ascii_of_nat 34) EmptyString.

(** The message of the handlers of [JSONError]. *)
Definition errorDetected (what : string) (filename message : string) : string :=
  "Error detected in " ++ what ++ ": " ++ quote ++ filename ++ quote
    ++ ", " ++ message.

(** ** readSettingsFile (lines 891-912) and updateSettings (lines 914-936) *)

(** The message of the error that [fs.readFileSync] throws for a file that
    does not exist. *)
Definition enoent (filePath : string) : string :=
  "ENOENT: no such file or directory, open '" ++ filePath ++ "'".

Definition readSettingsFile (filePath : string) (filter : bool) : M props :=
  emit (ReadFile filePath) ;;
  w <- getWorld ;;
  match assoc filePath (settingsFiles w) with
  | Some (Parsed settingsFile) =>
      ret (if filter then filterSettings settingsFile else settingsFile)
  | Some (Invalid message) => throw (JSONError message filePath)
  | None => throw (JSONError (enoent filePath) filePath)
  end.

Definition updateSettings (newSettings : props) : M unit :=
  w <- getWorld ;;
  let localSettingsFile := join (_localSettingsPath w) "settings.json" in
  localSettings <-
    (if existsSync w localSettingsFile
     then readSettingsFile localSettingsFile false
     else ret []) ;;
  writeSettings localSettingsFile (assign localSettings newSettings).

(** ** compareDefaultSettings, compareRemoteSettings, compareSettings
       (lines 618-747) *)

Definition compareDefaultSettings : M bool :=
  w <- getWorld ;;
  match _remoteDefaultSettingsFilename w with
  | None => ret false
  | Some filename =>
  if String.eqb filename "" then ret false
  else
    defaultsFile <- joinField (_remoteSettingsPath w) filename ;;
    defaultSettings <- readSettingsFile defaultsFile true ;;
    localSettings <-
      readSettingsFile (join (_localSettingsPath w) "settings.json") true ;;
    let '(newSettings, updated) :=
      defaultsLoop localSettings defaultSettings [] false in
    if updated then
      emit ChannelShow ;;
      emit (ChannelAppendLine "Adding default config parameters") ;;
      emit (ChannelAppendJson newSettings) ;;
      updateSettings newSettings ;;
      ret updated
    else ret updated
  end.

(** A [TypeError] of [compareUpdate] leaves the method as an exception. *)
Definition liftResult {A : Type} (r : result A) : M A :=
  match r with
  | Ok a => ret a
  | Throw e => throw e
  end.

Definition compareRemoteSettings : M bool :=
  w <- getWorld ;;
  remoteFile <- joinField (_remoteSettingsPath w) "settings.json" ;;
  remoteSettings <- readSettingsFile remoteFile true ;;
  localSettings <-
    readSettingsFile (join (_localSettingsPath w) "settings.json") true ;;
  r <- liftResult (remoteLoop localSettings remoteSettings [] false) ;;
  let '(newSettings, updated) := r in
  if updated then
    emit ChannelShow ;;
    emit (ChannelAppendLine "Updating config parameters") ;;
    emit (ChannelAppendJson newSettings) ;;
    updateSettings newSettings ;;
    ret updated
  else ret updated.

Definition compareSettings : M bool :=
  updatedDefault <- compareDefaultSettings ;;
  updatedRemote <- compareRemoteSettings ;;
  ret (updatedDefault || updatedRemote).

(** ** The setters and prompts of the paths (lines 131-243) *)

Definition saveRemoteExtensionPath (path : string) : M unit :=
  modify (setRemoteExtensionPath (Some path)) ;;
  updateSettings [("fetchUserEnv.remoteExtensionPath", Str path)].

Definition saveRemoteSettingsPath (path : string) : M unit :=
  modify (setRemoteSettingsPath (Some path)) ;;
  updateSettings [("fetchUserEnv.remoteSettingsPath", Str path)].

Definition saveDefaultSettingsFilename (path : option string) : M unit :=
  modify (setRemoteDefaultSettingsFilename path) ;;
  updateSettings
    [("fetchUserEnv.remoteDefaultSettingsFilename",
      match path with
      | Some p => Str p
      | None => Null
      end)].

(** [await vscode.window.showInputBox(options)]: the next scripted answer;
    no answer left is a cancelled box. *)
Definition showInputBox (prompt : string) (current : option string)
    : M (option string) :=
  emit (ShowInputBox prompt
          (match current with
           | Some s => s
           | None => ""
           end)) ;;
  w <- getWorld ;;
  match inputs w with
  | [] => ret None
  | answer :: rest => modify (setInputs rest) ;; ret answer
  end.

Definition getRemoteExtensionPath : M bool :=
  w <- getWorld ;;
  path <- showInputBox "Please enter path for remote extensions"
            (_remoteExtensionPath w) ;;
  match path with
  | Some p =>
      if truthy path then saveRemoteExtensionPath p ;; ret true
      else
        emit (ShowWarningMessage
                "Path for remote extensions not specified, operation cancelled.") ;;
        ret false
  | None =>
      emit (ShowWarningMessage
              "Path for remote extensions not specified, operation cancelled.") ;;
      ret false
  end.

Definition getRemoteSettingsPath : M bool :=
  w <- getWorld ;;
  path <- showInputBox "Please enter path for remote settings"
            (_remoteSettingsPath w) ;;
  match path with
  | Some p =>
      if truthy path then saveRemoteSettingsPath p ;; ret true
      else
        emit (ShowWarningMessage
                "Path for remote settings not specified, operation cancelled.") ;;
        ret false
  | None =>
      emit (ShowWarningMessage
              "Path for remote settings not specified, operation cancelled.") ;;
      ret false
  end.

Definition getDefaultSettingsFilename : M bool :=
  w <- getWorld ;;
  filename <- showInputBox "Please enter default settings filename."
                (_remoteDefaultSettingsFilename w) ;;
  match filename with
  | Some f =>
      if truthy filename then saveDefaultSettingsFilename (Some f) ;; ret true
      else
        emit (ShowWarningMessage
                "Filename for the default settings not specified, operation cancelled.") ;;
        ret false
  | None =>
      emit (ShowWarningMessage
              "Filename for the default settings not specified, operation cancelled.") ;;
      ret false
  end.

(** ** The extensions (lines 794-855) *)

Definition getInstalledExtensions : M unit :=
  modify (fun w =>
    let localExtensions :=
      filter (fun ext => String.prefix (_localExtensionPath w) (extensionPath ext))
        (extensionsAll w) in
    setLocalExtVersions
      (fold_left (fun vs ext => setAssoc (id ext) (packageVersion ext) vs)
         localExtensions (_localExtVersions w))
      w).

Section Extensions.

(** The comparison of the package [semver-compare], which the sources
    require and do not hold: negative, zero or positive. *)
Variable compareVer : string -> string -> Z.

(** One turn of the loop over the folders of the remote path: [None] when
    the folder is skipped, the copy to make otherwise. *)
Definition candidate (remote localPath : string)
    (installed : list (string * string)) (f : folder)
    : result (option (string * string * string * string)) :=
  match packageFile f with
  | PackageAbsent => Ok None
  | PackageInvalid message =>
      Throw (JSONError message
               (join (join remote (folderName f)) "package.json"))
  | PackageJson json_file =>
      let id := publisher json_file ++ "." ++ name json_file in
      let version := version json_file in
      let copy :=
        Some (id, version, join remote (folderName f),
              join localPath (id ++ "-" ++ version)) in
      match assoc id installed with
      | Some installedVersion =>
          if (compareVer installedVersion version >=? 0)%Z then Ok None
          else Ok copy
      | None => Ok copy
      end
  end.

Fixpoint installLoop (remote : string) (folders : list folder)
    (updated : bool) : M bool :=
  match folders with
  | [] => ret updated
  | f :: rest =>
      w <- getWorld ;;
      c <- liftResult
             (candidate remote (_localExtensionPath w) (_localExtVersions w) f) ;;
      match c with
      | None => installLoop remote rest updated
      | Some (id, version, srcPath, dstPath) =>
          emit ChannelShow ;;
          emit (ChannelAppendLine
                  ("Updating extension " ++ quote ++ id ++ quote
                     ++ " to version " ++ version)) ;;
          emit (Copy srcPath dstPath) ;;
          installLoop remote rest true
      end
  end.

Definition installNewExtensions : M bool :=
  w <- getWorld ;;
  match _remoteExtensionPath w with
  | None => throw TypeError
  | Some remote =>
      emit (ReadDir remote) ;;
      match assoc remote (directories w) with
      | None => throw (SystemError "ENOTDIR: not a directory")
      | Some entries => installLoop remote (filter isDirectory entries) false
      end
  end.

(** ** fetchExtensions (lines 245-341) *)

Definition pathOptions : list string := ["Try Again"; "Reenter Path"; "Ignore"].

(** Lines 256-275: the path is asked for when it is not configured or is to
    be entered again.  The result is [true] when the method returns. *)
Definition enterExtensionPath (prompt reenter : bool) : M bool :=
  w <- getWorld ;;
  if negb (truthy (_remoteExtensionPath w)) || reenter then
    if negb prompt && negb reenter then ret true
    else
      tryCatch
        (entered <- getRemoteExtensionPath ;; ret (negb entered))
        (fun err =>
           match err with
           | JSONError message filename =>
               emit (ShowErrorMessage
                       (errorDetected "configuration file" filename message)) ;;
               ret true
           | _ => ret false
           end)
  else ret false.

(** The loop [while (unconfirmed)] of lines 255-303; [answers] are the
    answers of the user to the dialogs to come.  The result is [false] when
    the method returns from inside the loop. *)
Fixpoint confirmExtensionPath (prompt : bool) (answers : list choice)
    (reenter : bool) : M (bool * list choice) :=
  stop <- enterExtensionPath prompt reenter ;;
  if (stop : bool) then ret (false, answers)
  else
    w <- getWorld ;;
    if existsField w (_remoteExtensionPath w) then ret (true, answers)
    else
      emit (ShowErrorChoice
              "Cannot access extensions at specified remote path." pathOptions) ;;
      match answers with
      | TryAgain :: rest => confirmExtensionPath prompt rest false
      | Reenter :: rest => confirmExtensionPath prompt rest true
      | _ :: rest => ret (false, rest)
      | [] => ret (false, [])
      end.

Definition fetchExtensions (prompt : bool) (answers : list choice) : M unit :=
  (if prompt then emit ChannelClear else ret tt) ;;
  confirmed <- confirmExtensionPath prompt answers false ;;
  if negb (fst confirmed) then ret tt
  else
    getInstalledExtensions ;;
    tryCatch
      (updated <- installNewExtensions ;;
       if (updated : bool) then
         emit (ShowInformationMessage
                 "Extensions updated, please restart Visual Studio Code or reload window"
                 ["Reload"])
       else
         (if prompt
          then emit (ShowInformationMessage "Extensions are up to date" [])
          else ret tt) ;;
         emit (ChannelAppendLine "No updated extensions found."))
      (fun err =>
         match err with
         | JSONError message filename =>
             emit (ShowErrorMessage
                     (errorDetected "extension package file" filename message))
         | _ => emit (ShowErrorMessage "Failed to fetch extensions.")
         end).

End Extensions.

(** ** fetchSettings (lines 343-508) *)

Definition enterSettingsPath (prompt reenter : bool) : M bool :=
  w <- getWorld ;;
  if negb (truthy (_remoteSettingsPath w)) || reenter then
    if negb prompt && negb reenter then ret true
    else
      tryCatch
        (entered <- getRemoteSettingsPath ;; ret (negb entered))
        (fun err =>
           match err with
           | JSONError message filename =>
               emit (ShowErrorMessage
                       (errorDetected "configuration file" filename message)) ;;
               ret true
           | _ => ret false
           end)
  else ret false.

Fixpoint confirmSettingsPath (prompt : bool) (answers : list choice)
    (reenter : bool) : M (bool * list choice) :=
  stop <- enterSettingsPath prompt reenter ;;
  if (stop : bool) then ret (false, answers)
  else
    w <- getWorld ;;
    settingsFile <- joinField (_remoteSettingsPath w) "settings.json" ;;
    if existsSync w settingsFile then ret (true, answers)
    else
      emit (ShowErrorChoice
              "Cannot access settings at specified remote path." pathOptions) ;;
      match answers with
      | TryAgain :: rest => confirmSettingsPath prompt rest false
      | Reenter :: rest => confirmSettingsPath prompt rest true
      | _ :: rest => ret (false, rest)
      | [] => ret (false, [])
      end.

Definition defaultsOptions : list string :=
  ["Try Again"; "Reenter Filename"; "Ignore"; "Disable"].

(** The loop of lines 406-473 for the file of default settings.  The result
    is [false] when the method returns from inside the loop. *)
Fixpoint confirmDefaultSettings (answers : list choice) : M bool :=
  w <- getWorld ;;
  match _remoteDefaultSettingsFilename w with
  | None => ret true
  | Some filename =>
  if String.eqb filename "" then ret true
  else
    defaultsFile <- joinField (_remoteSettingsPath w) filename ;;
    if existsSync w defaultsFile then ret true
    else
      emit (ShowErrorChoice
              "Cannot access default settings at specified remote path."
              defaultsOptions) ;;
      match answers with
      | TryAgain :: rest => confirmDefaultSettings rest
      | Reenter :: rest =>
          stop <-
            tryCatch
              (getDefaultSettingsFilename ;; ret false)
              (fun err =>
                 match err with
                 | JSONError message filename =>
                     emit (ShowErrorMessage
                             (errorDetected "configuration file" filename message)) ;;
                     ret true
                 | _ => ret false
                 end) ;;
          if (stop : bool) then ret false else confirmDefaultSettings rest
      | Disable :: rest =>
          tryCatch
            (saveDefaultSettingsFilename None)
            (fun err =>
               match err with
               | JSONError message filename =>
                   emit (ShowWarningMessage
                           (errorDetected "configuration file" filename message))
               | _ => ret tt
               end) ;;
          ret true
      | Ignore :: rest =>
          modify (setRemoteDefaultSettingsFilename None) ;;
          ret true
      | Dismissed :: rest => ret true
      | [] => ret true
      end
  end.

Definition fetchSettings (prompt : bool) (answers : list choice) : M unit :=
  (if prompt then emit ChannelClear else ret tt) ;;
  confirmed <- confirmSettingsPath prompt answers false ;;
  if negb (fst confirmed) then ret tt
  else
    proceed <- confirmDefaultSettings (snd confirmed) ;;
    if negb proceed then ret tt
    else
      tryCatch
        (updated <- compareSettings ;;
         if (updated : bool) then
           emit (ShowInformationMessage
                   "Settings updated, please restart Visual Studio Code or reload window"
                   ["Reload"])
         else
           (if prompt
            then emit (ShowInformationMessage "Settings are up to date" [])
            else ret tt) ;;
           emit (ChannelAppendLine "No updated settings found."))
        (fun err =>
           match err with
           | JSONError message filename =>
               emit (ShowErrorMessage
                       (errorDetected "configuration file" filename message))
           | _ => emit (ShowErrorMessage "Failed to fetch settings.")
           end).

(** ** Documents as they are parsed *)

Fixpoint distinct (ks : list string) : bool :=
  match ks with
  | [] => true
  | k :: rest => negb (existsb (String.eqb k) rest) && distinct rest
  end.

(** A value that [JSON.parse] can return: it holds no [undefined], and no
    object holds a key twice. *)
Fixpoint wf (v : value) : bool :=
  match v with
  | Undefined => false
  | Arr vs => forallb wf vs
  | Obj ps => distinct (map fst ps) && forallb (fun kv => wf (snd kv)) ps
  | _ => true
  end.

Definition wfDoc (ps : props) : bool := wf (Obj ps).

(** A value without [null], at any depth. *)
Fixpoint nullFree (v : value) : bool :=
  match v with
  | Null => false
  | Arr vs => forallb nullFree vs
  | Obj ps => forallb (fun kv => nullFree (snd kv)) ps
  | _ => true
  end.

(** The names of the members of [Object.prototype], which every object
    inherits. *)
Definition prototypeNames : list string :=
  ["constructor"; "__proto__"; "hasOwnProperty"; "isPrototypeOf";
   "propertyIsEnumerable"; "toLocaleString"; "toString"; "valueOf";
   "__defineGetter__"; "__defineSetter__"; "__lookupGetter__";
   "__lookupSetter__"].

(** A name made of digits: an object enumerates its properties of such
    names first, in the ascending order of the numbers, whatever the order
    in which they were created. *)
Fixpoint allDigits (k : string) : bool :=
  match k with
  | EmptyString => true
  | String c rest =>
      (Nat.leb 48 (nat_of_ascii c) && Nat.leb (nat_of_ascii c) 57)
      && allDigits rest
  end.

Definition isIndex (k : string) : bool :=
  negb (String.eqb k "") && allDigits k.

(** The keys of which the embedding of an object is exact: the key is not
    the name of a member of [Object.prototype], and is kept at the place
    where it was created. *)
Definition plainKey (k : string) : bool :=
  negb (existsb (String.eqb k) prototypeNames) && negb (isIndex k).

(** A value every key of which, in every object that it holds at any depth,
    is such a key. *)
Fixpoint plain (v : value) : bool :=
  match v with
  | Arr vs => forallb plain vs
  | Obj ps => forallb (fun kv => plainKey (fst kv) && plain (snd kv)) ps
  | _ => true
  end.

Definition plainDoc (ps : props) : bool := plain (Obj ps).

(** The local settings file and the setting [k] that it holds. *)
Definition localSettingsFile (w : world) : string :=
  join (_localSettingsPath w) "settings.json".

Definition localSetting (w : world) (k : string) : option value :=
  match assoc (localSettingsFile w) (settingsFiles w) with
  | Some (Parsed doc) => lookup k doc
  | _ => None
  end.

(** A string, a number or a boolean. *)
Definition isScalar (v : value) : bool :=
  match v with
  | Bool _ | Num _ | Str _ => true
  | _ => false
  end.

(** The comparison that [compareRemoteSettings] makes for the remote
    setting [kv] (lines 708-715), and whether its result has a property. *)
Definition changed (localSettings : props) (kv : string * value)
    : result bool :=
  match compareUpdate (Obj [(fst kv, get (Obj localSettings) (fst kv))])
          (Obj [(fst kv, snd kv)]) with
  | Ok res => Ok (hasKeys res)
  | Throw e => Throw e
  end.

Definition isChanged (localSettings : props) (kv : string * value) : bool :=
  match changed localSettings kv with
  | Ok b => b
  | Throw _ => false
  end.

(** The loop of lines 769-788 over the enumerated properties [ps] of
    [compare], with [rec] for the recursive call. *)
Fixpoint eachProp (rec : value -> value -> result value)
    (base compare : value) (ps : props) : result value :=
  match ps with
  | [] => Ok (Obj [])
  | (prop, v) :: rest =>
      compareItem compare (get base prop) v (rec (get base prop) v)
        (eachProp rec base compare rest)
  end.

(** The body of [compareUpdate], with [rec] for the recursive call. *)
Definition compareBody (rec : value -> value -> result value)
    (base compare : value) : result value :=
  match anyMissing base (keys (forIn compare)) with
  | Throw e => Throw e
  | Ok true => Ok compare
  | Ok false =>
      match anyMissing compare (keys (forIn base)) with
      | Throw e => Throw e
      | Ok true => Ok compare
      | Ok false => eachProp rec base compare (forIn compare)
      end
  end.

(** ** The copies that the update of the extensions makes *)

(** The folder holds a package that is not installed, or is installed in a
    version that compares less than the version of the package. *)
Definition isWanted (compareVer : string -> string -> Z)
    (installed : list (string * string)) (f : folder) : bool :=
  match packageFile f with
  | PackageJson m =>
      match assoc (publisher m ++ "." ++ name m) installed with
      | Some installedVersion => (compareVer installedVersion (version m) <? 0)%Z
      | None => true
      end
  | _ => false
  end.

(** The calls that the loop makes for a folder that it copies. *)
Definition installEvents (remote localPath : string) (f : folder)
    : list event :=
  match packageFile f with
  | PackageJson m =>
      let id := publisher m ++ "." ++ name m in
      [ChannelShow;
       ChannelAppendLine
         ("Updating extension " ++ quote ++ id ++ quote ++ " to version "
            ++ version m);
       Copy (join remote (folderName f))
         (join localPath (id ++ "-" ++ version m))]
  | _ => []
  end.

Definition isCopy (e : event) : bool :=
  match e with
  | Copy _ _ => true
  | _ => false
  end.

(** A comparison for the examples, where the comparison of the package
    [semver-compare] is a parameter of the methods: the installed version
    compares equal to the version of a package when the two strings are the
    same, and less otherwise. *)
Definition differsAsNewer (installedVersion packageVersion : string) : Z :=
  if String.eqb installedVersion packageVersion then 0%Z else (-1)%Z.

(** A remote path with four folders, one of them installed in the version of
    the remote, one installed in an older version, one not installed, and
    one without a package file. *)
Definition extensionsWorld : world :=
  {| _remoteExtensionPath := Some "/remote/ext";
     _remoteSettingsPath := None;
     _remoteDefaultSettingsFilename := None;
     _localExtensionPath := "/home/.vscode/extensions";
     _localSettingsPath := "/home/.config/Code/User";
     _localExtVersions := [("pub.same", "1.0.0"); ("pub.old", "1.0.0")];
     extensionsAll := [];
     settingsFiles := [];
     directories :=
       [("/remote/ext",
         [{| folderName := "same"; isDirectory := true;
             packageFile :=
               PackageJson {| publisher := "pub"; name := "same";
                              version := "1.0.0" |} |};
          {| folderName := "old"; isDirectory := true;
             packageFile :=
               PackageJson {| publisher := "pub"; name := "old";
                              version := "1.1.0" |} |};
          {| folderName := "fresh"; isDirectory := true;
             packageFile :=
               PackageJson {| publisher := "pub"; name := "fresh";
                              version := "0.9.0" |} |};
          {| folderName := "notes"; isDirectory := true;
             packageFile := PackageAbsent |}])];
     inputs := [];
     trace := [] |}.

(** A method only adds to the trace. *)
Definition appends {A : Type} (m : M A) : Prop :=
  forall w, exists l, trace (snd (m w)) = (trace w ++ l)%list.

(** The first thing that a method does in the world [w] is the call [e]. *)
Definition starts {A : Type} (e : event) (m : M A) (w : world) : Prop :=
  exists rest, trace (snd (m w)) = (trace w ++ e :: rest)%list.

(** The initial text of an input box. *)
Definition current (p : option string) : string :=
  match p with
  | Some s => s
  | None => ""
  end.

(** ** Sample worlds *)

Definition sampleWorld (localDoc remoteDoc : props) : world :=
  {| _remoteExtensionPath := None;
     _remoteSettingsPath := Some "/remote";
     _remoteDefaultSettingsFilename := None;
     _localExtensionPath := "/home/.vscode/extensions";
     _localSettingsPath := "/home/.config/Code/User";
     _localExtVersions := [];
     extensionsAll := [];
     settingsFiles :=
       [("/home/.config/Code/User/settings.json", Parsed localDoc);
        ("/remote/settings.json", Parsed remoteDoc)];
     directories := [];
     inputs := [];
     trace := [] |}.

(** A file of defaults and a local file. *)
Definition defaultsSampleWorld (defaultsDoc localDoc : props) : world :=
  {| _remoteExtensionPath := None;
     _remoteSettingsPath := Some "/remote";
     _remoteDefaultSettingsFilename := Some "defaults.json";
     _localExtensionPath := "/home/.vscode/extensions";
     _localSettingsPath := "/home/.config/Code/User";
     _localExtVersions := [];
     extensionsAll := [];
     settingsFiles :=
       [("/home/.config/Code/User/settings.json", Parsed localDoc);
        ("/remote/settings.json", Parsed []);
        ("/remote/defaults.json", Parsed defaultsDoc)];
     directories := [];
     inputs := [];
     trace := [] |}.

(** The file of defaults is configured and does not parse. *)
Definition failingDefaultsWorld : world :=
  {| _remoteExtensionPath := None;
     _remoteSettingsPath := Some "/remote";
     _remoteDefaultSettingsFilename := Some "defaults.json";
     _localExtensionPath := "/home/.vscode/extensions";
     _localSettingsPath := "/home/.config/Code/User";
     _localExtVersions := [];
     extensionsAll := [];
     settingsFiles :=
       [("/home/.config/Code/User/settings.json",
         Parsed [("theme", Str "light")]);
        ("/remote/settings.json", Parsed [("theme", Str "dark")]);
        ("/remote/defaults.json", Invalid "Unexpected token")];
     directories := [];
     inputs := [];
     trace := [] |}.

(** Both remote paths are configured and neither exists. *)
Definition invalidPathWorld : world :=
  {| _remoteExtensionPath := Some "/gone/ext";
     _remoteSettingsPath := Some "/gone/settings";
     _remoteDefaultSettingsFilename := None;
     _localExtensionPath := "/home/.vscode/extensions";
     _localSettingsPath := "/home/.config/Code/User";
     _localExtVersions := [];
     extensionsAll := [];
     settingsFiles :=
       [("/home/.config/Code/User/settings.json", Parsed [])];
     directories := [];
     inputs := [];
     trace := [] |}.

(** No remote path is configured. *)
Definition unconfiguredWorld : world :=
  {| _remoteExtensionPath := None;
     _remoteSettingsPath := Some "";
     _remoteDefaultSettingsFilename := None;
     _localExtensionPath := "/home/.vscode/extensions";
     _localSettingsPath := "/home/.config/Code/User";
     _localExtVersions := [];
     extensionsAll := [];
     settingsFiles :=
       [("/home/.config/Code/User/settings.json", Parsed [])];
     directories := [];
     inputs := [Some "/typed"];
     trace := [] |}.

(** ** copyEnvToRemote (lines 857-889) and the start of activate
       (lines 71-89) *)







(** What [activate] runs once the commands are registered (lines 71-89);
    the two lists are the answers to the dialogs of the two operations. *)
Definition activate (compareVer : string -> string -> Z)
    (extensionAnswers settingsAnswers : list choice) : M unit :=
  emit ChannelClear ;;
  tryCatch (fetchExtensions compareVer false extensionAnswers)
    (fun _ => emit (ShowErrorMessage "Failed to fetch extensions.")) ;;
  tryCatch (fetchSettings false settingsAnswers)
    (fun _ => emit (ShowErrorMessage "Failed to fetch settings.")).

(** The handlers of the two fetch commands (lines 39-55). *)
Definition commandExtensions (compareVer : string -> string -> Z)
    (answers : list choice) : M unit :=
  tryCatch (fetchExtensions compareVer true answers)
    (fun _ => emit (ShowErrorMessage "Failed to fetch extensions.")).

Definition commandSettings (answers : list choice) : M unit :=
  tryCatch (fetchSettings true answers)
    (fun _ => emit (ShowErrorMessage "Failed to fetch settings.")).


(** ** More sample worlds *)

(** A file of defaults beside the remote settings. *)
Definition defaultsWorld : world :=
  {| _remoteExtensionPath := None;
     _remoteSettingsPath := Some "/remote";
     _remoteDefaultSettingsFilename := Some "defaults.json";
     _localExtensionPath := "/home/.vscode/extensions";
     _localSettingsPath := "/home/.config/Code/User";
     _localExtVersions := [];
     extensionsAll := [];
     settingsFiles :=
       [("/home/.config/Code/User/settings.json",
         Parsed [("theme", Str "light");
                 ("fetchUserEnv.remoteSettingsPath", Str "/remote")]);
        ("/remote/settings.json", Parsed [("theme", Str "light")]);
        ("/remote/defaults.json",
         Parsed [("theme", Str "dark"); ("tabSize", Num 4)])];
     directories := [];
     inputs := [];
     trace := [] |}.

(** The configured file of defaults is not there. *)
Definition missingDefaultsWorld : world :=
  {| _remoteExtensionPath := None;
     _remoteSettingsPath := Some "/remote";
     _remoteDefaultSettingsFilename := Some "defaults.json";
     _localExtensionPath := "/home/.vscode/extensions";
     _localSettingsPath := "/home/.config/Code/User";
     _localExtVersions := [];
     extensionsAll := [];
     settingsFiles :=
       [("/home/.config/Code/User/settings.json",
         Parsed [("theme", Str "light")]);
        ("/remote/settings.json", Parsed [("theme", Str "dark")])];
     directories := [];
     inputs := [];
     trace := [] |}.

(** Three installed extensions: one of the user, one built in, and this
    extension; the version of an extension that is gone is still recorded.
    The remote extension path is configured and does not exist. *)
Definition installedWorld : world :=
  {| _remoteExtensionPath := Some "/remote/ext";
     _remoteSettingsPath := Some "/remote";
     _remoteDefaultSettingsFilename := None;
     _localExtensionPath := "/home/.vscode/extensions";
     _localSettingsPath := "/home/.config/Code/User";
     _localExtVersions := [("pub.gone", "0.5.0"); ("pub.a", "0.9.0")];
     extensionsAll :=
       [{| id := "pub.a";
           extensionPath := "/home/.vscode/extensions/pub.a-1.0.0";
           packageVersion := "1.0.0" |};
        {| id := "vscode.git";
           extensionPath := "/usr/share/code/extensions/git";
           packageVersion := "1.0.0" |};
        {| id := "me.fetch-user-environment";
           extensionPath :=
             "/home/.vscode/extensions/me.fetch-user-environment-0.1.0";
           packageVersion := "0.1.0" |}];
     settingsFiles :=
       [("/home/.config/Code/User/settings.json",
         Parsed [("theme", Str "light");
                 ("fetchUserEnv.remoteSettingsPath", Str "/remote")])];
     directories := [];
     inputs := [Some "/typed/ext"];
     trace := [] |}.

(** The folder of the local settings exists and holds no settings file. *)
Definition freshWorld : world :=
  {| _remoteExtensionPath := None;
     _remoteSettingsPath := None;
     _remoteDefaultSettingsFilename := None;
     _localExtensionPath := "/home/.vscode/extensions";
     _localSettingsPath := "/home/.config/Code/User";
     _localExtVersions := [];
     extensionsAll := [];
     settingsFiles := [];
     directories := [("/home/.config/Code/User", [])];
     inputs := [];
     trace := [] |}.

(** A remote path whose second folder holds a package file that does not
    parse. *)
Definition badPackageWorld : world :=
  {| _remoteExtensionPath := Some "/remote/ext";
     _remoteSettingsPath := None;
     _remoteDefaultSettingsFilename := None;
     _localExtensionPath := "/home/.vscode/extensions";
     _localSettingsPath := "/home/.config/Code/User";
     _localExtVersions := [];
     extensionsAll := [];
     settingsFiles := [];
     directories :=
       [("/remote/ext",
         [{| folderName := "first"; isDirectory := true;
             packageFile :=
               PackageJson {| publisher := "pub"; name := "first";
                              version := "1.0.0" |} |};
          {| folderName := "broken"; isDirectory := true;
             packageFile := PackageInvalid "Unexpected end of JSON input" |};
          {| folderName := "last"; isDirectory := true;
             packageFile :=
               PackageJson {| publisher := "pub"; name := "last";
                              version := "1.0.0" |} |}])];
     inputs := [];
     trace := [] |}.

(** ** Predicates on methods *)

(** A method leaves the paths of the local machine, the directories and the
    installed extensions as they are, and writes no settings file but the
    local one. *)
Definition confinedStep (w w' : world) : Prop :=
  _localSettingsPath w' = _localSettingsPath w
  /\ _localExtensionPath w' = _localExtensionPath w
  /\ directories w' = directories w
  /\ extensionsAll w' = extensionsAll w
  /\ (forall p, p <> localSettingsFile w ->
         assoc p (settingsFiles w') = assoc p (settingsFiles w)).

Definition confined {A : Type} (m : M A) : Prop :=
  forall w, confinedStep w (snd (m w)).

(** A method keeps a part of the world. *)
Definition keeps {A B : Type} (part : world -> B) (m : M A) : Prop :=
  forall w, part (snd (m w)) = part w.

(** A method returns: no exception leaves it. *)
Definition returns {A : Type} (m : M A) : Prop :=
  forall w, exists a, fst (m w) = Ok a.

(** * Properties *)

(** ** Induction on values *)

Section ValueInd.
Variable P : value -> Prop.
Hypothesis HUndefined : P Undefined.
Hypothesis HNull : P Null.
Hypothesis HBool : forall b, P (Bool b).
Hypothesis HNum : forall n, P (Num n).
Hypothesis HStr : forall s, P (Str s).
Hypothesis HArr : forall vs, Forall P vs -> P (Arr vs).
Hypothesis HObj : forall ps, Forall (fun kv => P (snd kv)) ps -> P (Obj ps).

Fixpoint value_nested_ind (v : value) : P v :=
  match v with
  | Undefined => HUndefined
  | Null => HNull
  | Bool b => HBool b
  | Num n => HNum n
  | Str s => HStr s
  | Arr vs =>
      HArr vs
        ((fix all (l : list value) : Forall P l :=
            match l with
            | [] => Forall_nil _
            | x :: r => Forall_cons x (value_nested_ind x) (all r)
            end) vs)
  | Obj ps =>
      HObj ps
        ((fix all (l : props) : Forall (fun kv => P (snd kv)) l :=
            match l with
            | [] => Forall_nil _
            | kv :: r => Forall_cons kv (value_nested_ind (snd kv)) (all r)
            end) ps)
  end.
End ValueInd.

(** ** Array indices as property names *)

Lemma indexKey_inj (i j : nat) : indexKey i = indexKey j -> i = j.
Proof.
  unfold indexKey. intros H.
  apply (f_equal NilEmpty.uint_of_string) in H.
  rewrite !NilEmpty.usu in H. injection H as H.
  apply (f_equal Nat.of_uint) in H.
  now rewrite !DecimalNat.Unsigned.of_to in H.
Qed.

Lemma indexKey_not_length (i : nat) : String.eqb (indexKey i) "length" = false.
Proof.
  apply String.eqb_neq. intros H.
  apply (f_equal NilEmpty.uint_of_string) in H.
  unfold indexKey in H. rewrite NilEmpty.usu in H. discriminate H.
Qed.

Lemma lookup_indexed_lt (i j : nat) (vs : list value) :
  (j < i)%nat -> lookup (indexKey j) (indexed i vs) = None.
Proof.
  revert i. induction vs as [|v vs IH]; intros i Hlt; simpl; [reflexivity|].
  destruct (String.eqb_spec (indexKey i) (indexKey j)) as [E|_].
  - apply indexKey_inj in E. lia.
  - apply IH. lia.
Qed.


(** ** The equation of compareUpdate *)

Lemma each_member_eq (base whole : value) (ps : props) :
  (fix each (ps : props) : result value :=
     match ps with
     | [] => Ok (Obj [])
     | (prop, v) :: rest =>
         compareItem whole (get base prop) v
           (compareUpdate (get base prop) v) (each rest)
     end) ps
  = eachProp compareUpdate base whole ps.
Proof.
  induction ps as [|[k v] ps IH]; simpl; [reflexivity|]. now rewrite IH.
Qed.

Lemma each_element_eq (base whole : value) (vs : list value) (i : nat) :
  (fix each (i : nat) (vs : list value) : result value :=
     match vs with
     | [] => Ok (Obj [])
     | v :: rest =>
         compareItem whole (get base (indexKey i)) v
           (compareUpdate (get base (indexKey i)) v) (each (S i) rest)
     end) i vs
  = eachProp compareUpdate base whole (indexed i vs).
Proof.
  revert i. induction vs as [|v vs IH]; intros i; simpl; [reflexivity|].
  now rewrite IH.
Qed.

Lemma each_char_eq (base whole : value) (s : string) (i : nat) :
  (fix each (i : nat) (cs : list value) : result value :=
     match cs with
     | [] => Ok (Obj [])
     | c :: rest =>
         if negb (strictEq (get base (indexKey i)) c) then Ok whole
         else each (S i) rest
     end) i (chars s)
  = eachProp compareUpdate base whole (indexed i (chars s)).
Proof.
  revert i. induction s as [|c s IH]; intros i; simpl; [reflexivity|].
  now rewrite IH.
Qed.

Lemma compareUpdate_eq (base compare : value) :
  compareUpdate base compare = compareBody compareUpdate base compare.
Proof.
  unfold compareBody.
  destruct compare as [| | | | s | vs | ps]; simpl;
    repeat (match goal with
            | |- context [anyMissing ?o ?ks] =>
                destruct (anyMissing o ks) as [[|]|]
            end; try reflexivity).
  - apply each_char_eq.
  - apply each_element_eq.
  - apply each_member_eq.
Qed.

(** ** Lookup in objects without repeated keys *)

Lemma lookup_none_existsb (k : string) (ps : props) :
  lookup k ps = None <-> existsb (String.eqb k) (keys ps) = false.
Proof.
  induction ps as [|[k' v] ps IH]; simpl; [tauto|].
  rewrite (String.eqb_sym k k').
  destruct (String.eqb k' k); simpl; [split; discriminate | exact IH].
Qed.

Lemma lookup_in (k : string) (v : value) (ps : props) :
  lookup k ps = Some v -> In (k, v) ps.
Proof.
  induction ps as [|[k' v'] ps IH]; simpl; [discriminate|].
  destruct (String.eqb_spec k' k) as [->|_].
  - intros [= ->]. now left.
  - intros H. right. now apply IH.
Qed.

Lemma in_lookup (k : string) (v : value) (ps : props) :
  distinct (keys ps) = true -> In (k, v) ps -> lookup k ps = Some v.
Proof.
  induction ps as [|[k' v'] ps IH]; simpl; [intros _ []|].
  intros Hd [E|Hin].
  - injection E as -> ->. now rewrite String.eqb_refl.
  - apply andb_prop in Hd as [Hk Hd].
    destruct (String.eqb_spec k' k) as [->|_].
    + apply negb_true_iff in Hk. apply lookup_none_existsb in Hk.
      apply (IH Hd) in Hin. congruence.
    + now apply IH.
Qed.

Lemma in_keys_lookup (k : string) (ps : props) :
  In k (keys ps) -> exists v, lookup k ps = Some v.
Proof.
  induction ps as [|[k' v'] ps IH]; simpl; [intros []|].
  destruct (String.eqb_spec k' k) as [->|N].
  - intros _. now exists v'.
  - intros [E|Hin]; [contradiction | now apply IH].
Qed.


Lemma distinct_indexed (i : nat) (vs : list value) :
  distinct (keys (indexed i vs)) = true.
Proof.
  revert i. induction vs as [|v vs IH]; intros i; simpl; [reflexivity|].
  rewrite IH, andb_true_r. apply negb_true_iff.
  apply lookup_none_existsb. apply lookup_indexed_lt. lia.
Qed.

Lemma in_indexed_value (i : nat) (vs : list value) (k : string) (v : value) :
  In (k, v) (indexed i vs) -> In v vs.
Proof.
  revert i. induction vs as [|x vs IH]; intros i; simpl; [intros []|].
  intros [E|Hin]; [injection E as _ ->; now left | right; now apply (IH (S i))].
Qed.

Lemma in_indexed_key (i : nat) (vs : list value) (k : string) (v : value) :
  In (k, v) (indexed i vs) -> exists j, k = indexKey j.
Proof.
  revert i. induction vs as [|x vs IH]; intros i; simpl; [intros []|].
  intros [E|Hin]; [injection E as <- _; now exists i | now apply (IH (S i))].
Qed.

Lemma in_chars (s : string) (v : value) :
  In v (chars s) -> exists c, v = Str (String c EmptyString).
Proof.
  induction s as [|c s IH]; simpl; [intros []|].
  intros [<-|Hin]; [now exists c | auto].
Qed.

(** An enumerated property is an own property, with the enumerated value. *)
Lemma forIn_getOwn (o : value) (k : string) (v : value) :
  distinct (keys (forIn o)) = true ->
  In (k, v) (forIn o) -> getOwn o k = Some v.
Proof.
  intros Hd Hin. destruct o as [| | | | s | vs | ps]; simpl in *;
    try contradiction.
  - destruct (in_indexed_key _ _ _ _ Hin) as [j ->].
    rewrite indexKey_not_length. now apply in_lookup.
  - destruct (in_indexed_key _ _ _ _ Hin) as [j ->].
    rewrite indexKey_not_length. now apply in_lookup.
  - now apply in_lookup.
Qed.

Lemma wf_distinct (o : value) : wf o = true -> distinct (keys (forIn o)) = true.
Proof.
  destruct o as [| | | | s | vs | ps]; simpl; intros H; try reflexivity.
  - apply distinct_indexed.
  - apply distinct_indexed.
  - now apply andb_prop in H as [H _].
Qed.

Lemma wf_forIn (o : value) (k : string) (v : value) :
  wf o = true -> In (k, v) (forIn o) -> wf v = true.
Proof.
  destruct o as [| | | | s | vs | ps]; simpl; intros H Hin; try contradiction.
  - apply in_indexed_value in Hin. apply in_chars in Hin as [c ->]. reflexivity.
  - apply in_indexed_value in Hin.
    rewrite forallb_forall in H. now apply H.
  - apply andb_prop in H as [_ H]. rewrite forallb_forall in H.
    now apply (H (k, v)).
Qed.

(** ** A document compared with itself *)

Lemma anyMissing_false (o : value) (ks : list string) :
  (forall k, In k ks -> missing o k = Ok false) ->
  anyMissing o ks = Ok false.
Proof.
  induction ks as [|k ks IH]; simpl; intros H; [reflexivity|].
  rewrite (H k) by now left. apply IH. intros k' Hk'. apply H. now right.
Qed.

Lemma strictEq_refl (v : value) :
  typeofObject v = false -> strictEq v v = true.
Proof.
  destruct v; simpl; try discriminate; intros _; try reflexivity.
  - apply Bool.eqb_reflx.
  - apply Z.eqb_refl.
  - apply String.eqb_refl.
Qed.

Lemma missing_own (o : value) (k : string) (v : value) :
  wf o = true -> In (k, v) (forIn o) -> missing o k = Ok false.
Proof.
  intros Hwf Hin.
  pose proof (forIn_getOwn o k v (wf_distinct o Hwf) Hin) as Hown.
  pose proof (wf_forIn o k v Hwf Hin) as Hv.
  unfold missing. rewrite Hown.
  destruct o; simpl in Hin; try contradiction; destruct v; try reflexivity;
    discriminate Hv.
Qed.

Lemma anyMissing_self (o : value) :
  wf o = true -> anyMissing o (keys (forIn o)) = Ok false.
Proof.
  intros Hwf. apply anyMissing_false. intros k Hk.
  apply in_keys_lookup in Hk as [v Hv]. apply lookup_in in Hv.
  now apply (missing_own o k v).
Qed.

Lemma eachProp_same (o : value) (ps : props) :
  wf o = true ->
  incl ps (forIn o) ->
  (forall k v, In (k, v) ps -> typeofObject v = true ->
               compareUpdate v v = Ok (Obj [])) ->
  eachProp compareUpdate o o ps = Ok (Obj []).
Proof.
  intros Hwf. induction ps as [|[k v] ps IH]; intros Hincl Hrec; simpl;
    [reflexivity|].
  assert (Hin : In (k, v) (forIn o)) by (apply Hincl; now left).
  unfold get. rewrite (forIn_getOwn o k v (wf_distinct o Hwf) Hin).
  unfold compareItem. destruct (typeofObject v) eqn:Ht.
  - rewrite (Hrec k v) by (now left || assumption). simpl.
    apply IH; [intros x Hx; apply Hincl; now right|].
    intros k' v' Hin'. apply (Hrec k'). now right.
  - rewrite strictEq_refl by assumption. simpl.
    apply IH; [intros x Hx; apply Hincl; now right|].
    intros k' v' Hin'. apply (Hrec k'). now right.
Qed.

Lemma compareUpdate_same (o : value) :
  wf o = true -> compareUpdate o o = Ok (Obj []).
Proof.
  induction o as [| | b | n | s | vs IH | ps IH] using value_nested_ind;
    intros Hwf; rewrite compareUpdate_eq; unfold compareBody;
    rewrite ?anyMissing_self by assumption;
    try reflexivity.
  - apply eachProp_same; [assumption | apply incl_refl |].
    intros k v Hin Ht. apply in_indexed_value in Hin.
    apply in_chars in Hin as [c ->]. discriminate Ht.
  - apply eachProp_same; [assumption | apply incl_refl |].
    intros k v Hin Ht. simpl in Hin, Hwf.
    apply in_indexed_value in Hin. rewrite Forall_forall in IH.
    apply IH; [assumption|]. rewrite forallb_forall in Hwf. now apply Hwf.
  - apply eachProp_same; [assumption | apply incl_refl |].
    intros k v Hin Ht. simpl in Hin. rewrite Forall_forall in IH.
    apply (IH (k, v) Hin). now apply (wf_forIn (Obj ps) k v).
Qed.

(** ** What compareUpdate returns *)

Lemma missing_throw (o : value) (k : string) (e : error) :
  missing o k = Throw e -> e = TypeError /\ (o = Null \/ o = Undefined).
Proof.
  unfold missing. destruct o; try (intros [= <-]; auto);
    destruct (getOwn _ k) as [[]|]; discriminate.
Qed.

Lemma anyMissing_throw (o : value) (ks : list string) (e : error) :
  anyMissing o ks = Throw e -> e = TypeError /\ (o = Null \/ o = Undefined).
Proof.
  induction ks as [|k ks IH]; simpl; [discriminate|].
  destruct (missing o k) as [[|]|e'] eqn:E; try discriminate; [exact IH|].
  intros [= <-]. now apply missing_throw in E.
Qed.

Lemma anyMissing_all (o : value) (ks : list string) :
  anyMissing o ks = Ok false -> forall k, In k ks -> missing o k = Ok false.
Proof.
  induction ks as [|k ks IH]; simpl; [intros _ k []|].
  destruct (missing o k) as [[|]|e'] eqn:E; try discriminate.
  intros H k' [<-|Hin]; [assumption | now apply IH].
Qed.

(** The result is the whole of [compare] or the empty object. *)
Lemma eachProp_result (rec : value -> value -> result value)
    (base compare : value) (ps : props) (r : value) :
  eachProp rec base compare ps = Ok r -> r = compare \/ r = Obj [].
Proof.
  induction ps as [|[k v] ps IH]; simpl; [intros [= <-]; now right|].
  unfold compareItem. destruct (typeofObject v).
  - destruct (rec _ v) as [diff|]; [|discriminate].
    destruct (hasKeys diff); [intros [= <-]; now left | exact IH].
  - destruct (negb _); [intros [= <-]; now left | exact IH].
Qed.

Lemma compareUpdate_result (base compare r : value) :
  compareUpdate base compare = Ok r -> r = compare \/ r = Obj [].
Proof.
  rewrite compareUpdate_eq. unfold compareBody.
  destruct (anyMissing base _) as [[|]|]; try discriminate;
    [intros [= <-]; now left|].
  destruct (anyMissing compare _) as [[|]|]; try discriminate;
    [intros [= <-]; now left|].
  apply eachProp_result.
Qed.

(** The only exception is the [TypeError] of a property read. *)
Lemma compareUpdate_throw (compare base : value) (e : error) :
  compareUpdate base compare = Throw e -> e = TypeError.
Proof.
  revert base.
  assert (Hloop : forall whole base ps,
    Forall (fun kv => typeofObject (snd kv) = true ->
                      forall b, compareUpdate b (snd kv) = Throw e ->
                                e = TypeError) ps ->
    eachProp compareUpdate base whole ps = Throw e -> e = TypeError).
  { intros whole base ps Hall. induction Hall as [|[k v] ps Hv _ IH]; simpl;
      [discriminate|].
    unfold compareItem. destruct (typeofObject v) eqn:Ht.
    - destruct (compareUpdate _ v) as [diff|e'] eqn:E.
      + destruct (hasKeys diff); [discriminate | exact IH].
      + intros [= <-]. now apply (Hv Ht _ E).
    - destruct (negb _); [discriminate | exact IH]. }
  assert (Hbody : forall whole base,
    Forall (fun kv => typeofObject (snd kv) = true ->
                      forall b, compareUpdate b (snd kv) = Throw e ->
                                e = TypeError) (forIn whole) ->
    compareUpdate base whole = Throw e -> e = TypeError).
  { intros whole base Hall. rewrite compareUpdate_eq. unfold compareBody.
    destruct (anyMissing base _) as [[|]|e1] eqn:E1; try discriminate.
    - destruct (anyMissing whole _) as [[|]|e2] eqn:E2; try discriminate.
      + now apply Hloop.
      + intros [= <-]. now apply anyMissing_throw in E2.
    - intros [= <-]. now apply anyMissing_throw in E1. }
  clear Hloop.
  induction compare as [| | b | n | s | vs IH | ps IH] using value_nested_ind;
    intros base; apply Hbody; apply Forall_forall; intros [k v] Hin Ht;
    simpl in Hin; try contradiction.
  - apply in_indexed_value in Hin. apply in_chars in Hin as [c ->].
    discriminate Ht.
  - apply in_indexed_value in Hin. rewrite Forall_forall in IH.
    simpl. intros b Hb. exact (IH v Hin b Hb).
  - rewrite Forall_forall in IH. exact (IH (k, v) Hin).
Qed.

(** ** A scalar that differs *)

Lemma eachProp_scalar (rec : value -> value -> result value)
    (base compare : value) (ps : props) (k : string) (v : value) :
  In (k, v) ps -> isScalar v = true -> strictEq (get base k) v = false ->
  eachProp rec base compare ps = Ok compare
  \/ exists e, eachProp rec base compare ps = Throw e.
Proof.
  intros Hin Hs Hne. induction ps as [|[k' v'] ps IH]; simpl; [destruct Hin|].
  unfold compareItem. destruct Hin as [E|Hin].
  - injection E as -> ->. destruct v; try discriminate Hs; simpl;
      rewrite Hne; now left.
  - destruct (typeofObject v').
    + destruct (rec _ v') as [diff|e]; [|right; now exists e].
      destruct (hasKeys diff); [now left | now apply IH].
    + destruct (negb _); [now left | now apply IH].
Qed.

Lemma compareUpdate_scalar (base compare : value) (k : string) (v : value) :
  In (k, v) (forIn compare) -> isScalar v = true ->
  strictEq (get base k) v = false ->
  compareUpdate base compare = Ok compare
  \/ compareUpdate base compare = Throw TypeError.
Proof.
  intros Hin Hs Hne.
  destruct (compareUpdate base compare) as [r|e] eqn:E.
  - left. revert E. rewrite compareUpdate_eq. unfold compareBody.
    destruct (anyMissing base _) as [[|]|]; try discriminate;
      [now intros [= <-]|].
    destruct (anyMissing compare _) as [[|]|]; try discriminate;
      [now intros [= <-]|].
    destruct (eachProp_scalar compareUpdate base compare _ k v Hin Hs Hne)
      as [->|[e ->]]; [now intros [= <-] | discriminate].
  - right. now rewrite (compareUpdate_throw _ _ _ E).
Qed.

(** ** Documents without null are compared without exception *)

Lemma nullFree_getOwn (o : value) (k : string) (b : value) :
  nullFree o = true -> getOwn o k = Some b -> nullFree b = true.
Proof.
  destruct o as [| | | | s | vs | ps]; simpl; try discriminate.
  - intros _. destruct (String.eqb k "length"); [now intros [= <-]|].
    intros H. apply lookup_in, in_indexed_value, in_chars in H as [c ->].
    reflexivity.
  - intros Hn. destruct (String.eqb k "length"); [now intros [= <-]|].
    intros H. apply lookup_in, in_indexed_value in H.
    rewrite forallb_forall in Hn. now apply Hn.
  - intros Hn H. apply lookup_in in H. rewrite forallb_forall in Hn.
    now apply (Hn (k, b)).
Qed.

Lemma nullFree_forIn (o : value) (k : string) (v : value) :
  nullFree o = true -> In (k, v) (forIn o) -> nullFree v = true.
Proof.
  destruct o as [| | | | s | vs | ps]; simpl; intros Hn Hin;
    try contradiction.
  - apply in_indexed_value, in_chars in Hin as [c ->]. reflexivity.
  - apply in_indexed_value in Hin. rewrite forallb_forall in Hn.
    now apply Hn.
  - rewrite forallb_forall in Hn. now apply (Hn (k, v)).
Qed.

Lemma anyMissing_total (o : value) (ks : list string) :
  o <> Null -> o <> Undefined -> exists b, anyMissing o ks = Ok b.
Proof.
  intros H1 H2. destruct (anyMissing o ks) as [b|e] eqn:E; [now exists b|].
  apply anyMissing_throw in E as [_ [E|E]]; contradiction.
Qed.

Lemma nullFree_not_null (v : value) : nullFree v = true -> v <> Null.
Proof. intros H ->. discriminate H. Qed.

Lemma typeofObject_defined (v : value) : typeofObject v = true -> v <> Undefined.
Proof. intros H ->. discriminate H. Qed.

Lemma compareUpdate_total (compare : value) :
  forall base,
    nullFree compare = true -> compare <> Undefined ->
    nullFree base = true -> base <> Undefined ->
    exists r, compareUpdate base compare = Ok r.
Proof.
  assert (Hloop : forall whole base ps,
    nullFree base = true ->
    (forall k, In k (keys ps) -> missing base k = Ok false) ->
    Forall (fun kv => typeofObject (snd kv) = true ->
              forall b, nullFree b = true -> b <> Undefined ->
                        exists r, compareUpdate b (snd kv) = Ok r) ps ->
    exists r, eachProp compareUpdate base whole ps = Ok r).
  { intros whole base ps Hb Hmiss Hall.
    induction Hall as [|[k v] ps Hv _ IH]; simpl; [now eexists|].
    assert (IH' : exists r, eachProp compareUpdate base whole ps = Ok r).
    { apply IH. intros k' Hk'. apply Hmiss. now right. }
    unfold compareItem. destruct (typeofObject v) eqn:Ht.
    - specialize (Hmiss k (or_introl eq_refl)). unfold missing in Hmiss.
      unfold get. destruct (getOwn base k) as [b|] eqn:Eb;
        [|destruct base; discriminate Hmiss].
      assert (Hsub : exists r, compareUpdate b v = Ok r).
      { apply (Hv Ht b); [now apply (nullFree_getOwn base k)|].
        intros ->. destruct base; discriminate Hmiss. }
      destruct Hsub as [diff ->].
      destruct (hasKeys diff); [now eexists | exact IH'].
    - destruct (negb _); [now eexists | exact IH']. }
  assert (Hbody : forall whole base,
    nullFree whole = true -> whole <> Undefined ->
    nullFree base = true -> base <> Undefined ->
    Forall (fun kv => typeofObject (snd kv) = true ->
              forall b, nullFree b = true -> b <> Undefined ->
                        exists r, compareUpdate b (snd kv) = Ok r)
      (forIn whole) ->
    exists r, compareUpdate base whole = Ok r).
  { intros whole base Hw Hwd Hb Hbd Hall.
    rewrite compareUpdate_eq. unfold compareBody.
    destruct (anyMissing_total base (keys (forIn whole)))
      as [[|] E1]; try assumption; [now apply nullFree_not_null | |];
      rewrite E1; [now eexists|].
    destruct (anyMissing_total whole (keys (forIn base)))
      as [[|] E2]; try assumption; [now apply nullFree_not_null | |];
      rewrite E2; [now eexists|].
    apply Hloop; [assumption | now apply anyMissing_all | assumption]. }
  clear Hloop.
  induction compare as [| | b | n | s | vs IH | ps IH] using value_nested_ind;
    intros base Hc Hcd Hb Hbd; apply Hbody; try assumption;
    apply Forall_forall; intros [k v] Hin Ht; simpl in Hin;
    try contradiction.
  - apply in_indexed_value, in_chars in Hin as [c ->]. discriminate Ht.
  - pose proof (nullFree_forIn (Arr vs) k v Hc Hin) as Hv.
    apply in_indexed_value in Hin. rewrite Forall_forall in IH.
    simpl. intros b Hnb Hdb.
    apply IH; auto using typeofObject_defined.
  - pose proof (nullFree_forIn (Obj ps) k v Hc Hin) as Hv.
    rewrite Forall_forall in IH. simpl. intros b Hnb Hdb.
    apply (IH (k, v) Hin); auto using typeofObject_defined.
Qed.

(** ** Object.assign *)

Lemma lookup_setProp (t : props) (k k' : string) (v : value) :
  lookup k (setProp t k' v) = if String.eqb k' k then Some v else lookup k t.
Proof.
  induction t as [|[k1 v1] t IH]; simpl.
  - reflexivity.
  - destruct (String.eqb_spec k1 k') as [->|N]; simpl.
    + destruct (String.eqb k' k); reflexivity.
    + destruct (String.eqb_spec k1 k) as [->|_].
      * destruct (String.eqb_spec k' k) as [->|_]; [contradiction|reflexivity].
      * exact IH.
Qed.

Lemma assign_cons (t : props) (k : string) (v : value) (s : props) :
  assign t ((k, v) :: s) = assign (setProp t k v) s.
Proof. reflexivity. Qed.

Lemma lookup_assign_other (s t : props) (k : string) :
  ~ In k (keys s) -> lookup k (assign t s) = lookup k t.
Proof.
  revert t. induction s as [|[k1 v1] s IH]; intros t Hn; [reflexivity|].
  rewrite assign_cons, IH by (intros H; apply Hn; now right).
  rewrite lookup_setProp. destruct (String.eqb_spec k1 k) as [->|_];
    [|reflexivity].
  exfalso. apply Hn. now left.
Qed.

Lemma distinct_not_in (k : string) (ks : list string) :
  existsb (String.eqb k) ks = false -> ~ In k ks.
Proof.
  intros H Hin. assert (existsb (String.eqb k) ks = true); [|congruence].
  apply existsb_exists. exists k. split; [assumption | apply String.eqb_refl].
Qed.

Lemma lookup_assign_in (s t : props) (k : string) (v : value) :
  distinct (keys s) = true -> In (k, v) s -> lookup k (assign t s) = Some v.
Proof.
  revert t. induction s as [|[k1 v1] s IH]; intros t Hd Hin; [destruct Hin|].
  simpl in Hd. apply andb_prop in Hd as [Hk Hd]. rewrite assign_cons.
  destruct Hin as [E|Hin].
  - injection E as -> ->. rewrite lookup_assign_other.
    + rewrite lookup_setProp. now rewrite String.eqb_refl.
    + apply distinct_not_in. now apply negb_true_iff.
  - now apply IH.
Qed.

Lemma in_setProp (t : props) (k k' : string) (v v' : value) :
  In (k, v) (setProp t k' v') -> (k, v) = (k', v') \/ In (k, v) t.
Proof.
  induction t as [|[k1 v1] t IH]; simpl.
  - intros [E|[]]. now left.
  - destruct (String.eqb_spec k1 k') as [->|_]; simpl.
    + intros [E|H]; [left; now symmetry | right; now right].
    + intros [E|H]; [right; now left|].
      destruct (IH H) as [E|H']; [now left | right; now right].
Qed.

Lemma in_assign (s t : props) (k : string) (v : value) :
  In (k, v) (assign t s) -> In (k, v) t \/ In (k, v) s.
Proof.
  revert t. induction s as [|[k1 v1] s IH]; intros t; [now left|].
  rewrite assign_cons. intros H. apply IH in H as [H|H]; [|right; now right].
  apply in_setProp in H as [E|H]; [right; left; now symmetry | now left].
Qed.

Lemma keys_setProp (t : props) (k : string) (v : value) (k0 : string) :
  In k0 (keys t) -> In k0 (keys (setProp t k v)).
Proof.
  induction t as [|[k1 v1] t IH]; simpl; [intros []|].
  destruct (String.eqb k1 k); simpl; intros [E|H]; auto.
Qed.

Lemma keys_assign (s t : props) (k0 : string) :
  In k0 (keys t) -> In k0 (keys (assign t s)).
Proof.
  revert t. induction s as [|[k1 v1] s IH]; intros t H; [assumption|].
  rewrite assign_cons. apply IH. now apply keys_setProp.
Qed.

Lemma distinct_filter (f : string * value -> bool) (ps : props) :
  distinct (keys ps) = true -> distinct (keys (filter f ps)) = true.
Proof.
  induction ps as [|[k v] ps IH]; simpl; [reflexivity|].
  intros H. apply andb_prop in H as [Hk Hd].
  destruct (f (k, v)); simpl; [|now apply IH].
  rewrite IH by assumption. rewrite andb_true_r.
  apply negb_true_iff. apply negb_true_iff in Hk.
  destruct (existsb (String.eqb k) (keys (filter f ps))) eqn:E; [|reflexivity].
  apply existsb_exists in E as [k' [Hin Hk']].
  apply String.eqb_eq in Hk'. subst k'.
  exfalso. apply (distinct_not_in k (keys ps) Hk).
  unfold keys in *. apply in_map_iff in Hin as [[k2 v2] [E Hin]].
  apply filter_In in Hin as [Hin _]. apply in_map_iff. now exists (k2, v2).
Qed.

(** ** The loop over the remote settings *)


Lemma remoteLoop_step (localSettings rest acc : props) (u : bool)
    (k : string) (v : value) :
  remoteLoop localSettings ((k, v) :: rest) acc u =
  match changed localSettings (k, v) with
  | Throw e => Throw e
  | Ok true => remoteLoop localSettings rest (setProp acc k v) true
  | Ok false => remoteLoop localSettings rest acc u
  end.
Proof.
  unfold changed. cbn [remoteLoop fst snd].
  destruct (compareUpdate _ _) as [res|e] eqn:E; [|reflexivity].
  apply compareUpdate_result in E as [->| ->]; reflexivity.
Qed.

Lemma remoteLoop_ok (localSettings remoteSettings : props) :
  forall acc u acc' u',
    remoteLoop localSettings remoteSettings acc u = Ok (acc', u') ->
    (forall kv, In kv remoteSettings ->
                changed localSettings kv = Ok (isChanged localSettings kv))
    /\ acc' = assign acc (filter (isChanged localSettings) remoteSettings)
    /\ u' = u || existsb (isChanged localSettings) remoteSettings.
Proof.
  induction remoteSettings as [|[k v] rest IH]; intros acc u acc' u'.
  - simpl. intros [= <- <-]. rewrite orb_false_r. repeat split.
    intros kv [].
  - rewrite remoteLoop_step.
    destruct (changed localSettings (k, v)) as [b|e] eqn:E; [|discriminate].
    assert (E' : isChanged localSettings (k, v) = b)
      by (unfold isChanged; now rewrite E).
    cbn [filter existsb]. rewrite E'.
    assert (Hhead : forall kv, In kv ((k, v) :: rest) ->
              (forall kv, In kv rest ->
                 changed localSettings kv = Ok (isChanged localSettings kv)) ->
              changed localSettings kv = Ok (isChanged localSettings kv)).
    { intros kv [<-|Hin] Hall; [now rewrite E' | now apply Hall]. }
    destruct b; intros H; apply IH in H as [Hall [-> ->]]; repeat split;
      try (intros kv Hin; now apply Hhead).
    now rewrite orb_true_r.
Qed.

Lemma remoteLoop_unchanged (localSettings remoteSettings : props) :
  (forall kv, In kv remoteSettings -> changed localSettings kv = Ok false) ->
  forall acc u, remoteLoop localSettings remoteSettings acc u = Ok (acc, u).
Proof.
  induction remoteSettings as [|[k v] rest IH]; intros H acc u; [reflexivity|].
  rewrite remoteLoop_step, (H (k, v)) by now left.
  apply IH. intros kv Hin. apply H. now right.
Qed.

Lemma changed_same (doc : props) (kv : string * value) :
  wfDoc doc = true -> In kv doc -> changed doc kv = Ok false.
Proof.
  intros Hwf Hin. destruct kv as [k v]. unfold changed. cbn [fst snd].
  unfold get. cbn [getOwn].
  unfold wfDoc in Hwf. simpl in Hwf. apply andb_prop in Hwf as [Hd Hall].
  rewrite (in_lookup k v doc Hd Hin).
  rewrite compareUpdate_same; [reflexivity|].
  rewrite forallb_forall in Hall. pose proof (Hall (k, v) Hin) as Hv.
  simpl in Hv. simpl. now rewrite Hv.
Qed.

(** ** The delta holds remote settings, whole *)

Lemma remoteLoop_delta (localSettings remoteSettings delta : props) (u : bool) :
  remoteLoop localSettings remoteSettings [] false = Ok (delta, u) ->
  forall k v, In (k, v) delta ->
    In (k, v) remoteSettings /\ isChanged localSettings (k, v) = true.
Proof.
  intros H k v Hin. apply remoteLoop_ok in H as [_ [-> _]].
  apply in_assign in Hin as [[]|Hin]. now apply filter_In in Hin.
Qed.

(** A remote setting that the local document lacks is in the delta. *)
Lemma changed_absent (localSettings : props) (k : string) (v : value) :
  lookup k localSettings = None -> changed localSettings (k, v) = Ok true.
Proof.
  intros H. unfold changed. cbn [fst snd]. rewrite compareUpdate_eq.
  unfold compareBody, get. cbn [getOwn forIn keys map anyMissing missing lookup].
  rewrite H, String.eqb_refl. reflexivity.
Qed.

Lemma remoteLoop_absent (localSettings remoteSettings delta : props)
    (u : bool) (k : string) (v : value) :
  distinct (keys remoteSettings) = true ->
  remoteLoop localSettings remoteSettings [] false = Ok (delta, u) ->
  In (k, v) remoteSettings -> lookup k localSettings = None ->
  lookup k delta = Some v.
Proof.
  intros Hd H Hin Habs. apply remoteLoop_ok in H as [_ [-> _]].
  apply lookup_assign_in; [now apply distinct_filter|].
  apply filter_In. split; [assumption|].
  unfold isChanged. now rewrite changed_absent.
Qed.

(** ** Convergence of the delta, when there is one *)


Lemma setProp_fresh (t : props) (k : string) (v : value) :
  ~ In k (keys t) -> setProp t k v = (t ++ [(k, v)])%list.
Proof.
  induction t as [|[k1 v1] t IH]; simpl; intros Hn; [reflexivity|].
  destruct (String.eqb_spec k1 k) as [->|_]; [exfalso; apply Hn; now left|].
  rewrite IH; [reflexivity | intros H; apply Hn; now right].
Qed.

Lemma distinct_app_head (t l : props) (k : string) (v : value) :
  distinct (keys (t ++ (k, v) :: l)%list) = true -> ~ In k (keys t).
Proof.
  induction t as [|[k1 v1] t IH]; simpl; intros Hd; [tauto|].
  apply andb_prop in Hd as [Hk Hd]. intros [->|Hin]; [|now apply IH].
  apply negb_true_iff in Hk. apply (distinct_not_in k _ Hk).
  unfold keys. rewrite map_app. apply in_or_app. right. now left.
Qed.

Lemma assign_append (l t : props) :
  distinct (keys (t ++ l)%list) = true -> assign t l = (t ++ l)%list.
Proof.
  revert t. induction l as [|[k v] l IH]; intros t Hd.
  - now rewrite app_nil_r.
  - rewrite assign_cons, setProp_fresh by now apply distinct_app_head in Hd.
    rewrite IH; rewrite <- app_assoc; [reflexivity | exact Hd].
Qed.

Lemma assign_empty (l : props) : distinct (keys l) = true -> assign [] l = l.
Proof. intros H. now apply (assign_append l []). Qed.


(** ** The loop over the default settings *)

Lemma defaultsLoop_spec (localSettings defaultSettings : props) :
  forall acc u,
    defaultsLoop localSettings defaultSettings acc u =
    (assign acc
       (filter (fun kv => negb (hasOwnProperty localSettings (fst kv)))
          defaultSettings),
     u || existsb (fun kv => negb (hasOwnProperty localSettings (fst kv)))
            defaultSettings).
Proof.
  induction defaultSettings as [|[k v] rest IH]; intros acc u; simpl.
  - now rewrite orb_false_r.
  - destruct (negb (hasOwnProperty localSettings k)); rewrite IH; simpl.
    + now rewrite orb_true_r.
    + reflexivity.
Qed.

(** ** The file store *)

Lemma assoc_setAssoc_same {A : Type} (k : string) (a : A)
    (l : list (string * A)) :
  assoc k (setAssoc k a l) = Some a.
Proof.
  induction l as [|[k1 a1] l IH]; simpl.
  - now rewrite String.eqb_refl.
  - destruct (String.eqb k1 k) eqn:E; simpl; rewrite E; [reflexivity | exact IH].
Qed.

Lemma assoc_setAssoc_other {A : Type} (k k' : string) (a : A)
    (l : list (string * A)) :
  k <> k' -> assoc k' (setAssoc k a l) = assoc k' l.
Proof.
  intros N. induction l as [|[k1 a1] l IH]; simpl.
  - destruct (String.eqb_spec k k'); [contradiction | reflexivity].
  - destruct (String.eqb_spec k1 k) as [->|_]; simpl.
    + destruct (String.eqb_spec k k'); [contradiction | reflexivity].
    + destruct (String.eqb k1 k'); [reflexivity | exact IH].
Qed.

(** What [updateSettings] does to the world: the paths stay, and the local
    settings file is the only file that may change. *)
Lemma updateSettings_run (newSettings : props) (w : world) :
  let w' := snd (updateSettings newSettings w) in
  _localSettingsPath w' = _localSettingsPath w
  /\ _remoteSettingsPath w' = _remoteSettingsPath w
  /\ _remoteDefaultSettingsFilename w' = _remoteDefaultSettingsFilename w
  /\ (forall p, p <> localSettingsFile w ->
         assoc p (settingsFiles w') = assoc p (settingsFiles w))
  /\ match assoc (localSettingsFile w) (settingsFiles w) with
     | Some (Parsed doc) =>
         fst (updateSettings newSettings w) = Ok tt
         /\ assoc (localSettingsFile w) (settingsFiles w')
            = Some (Parsed (assign doc newSettings))
     | Some (Invalid message) =>
         fst (updateSettings newSettings w)
         = Throw (JSONError message (localSettingsFile w))
         /\ settingsFiles w' = settingsFiles w
     | None =>
         (fst (updateSettings newSettings w) = Ok tt
          /\ assoc (localSettingsFile w) (settingsFiles w')
             = Some (Parsed (assign [] newSettings)))
         \/ ((exists e, fst (updateSettings newSettings w) = Throw e)
             /\ settingsFiles w' = settingsFiles w)
     end.
Proof.
  unfold updateSettings, bind, getWorld, existsSync, readSettingsFile, bind,
    getWorld, emit, modify, writeSettings, bind, emit, modify, ret, throw,
    localSettingsFile.
  cbn [fst snd].
  destruct (assoc (join (_localSettingsPath w) "settings.json")
              (settingsFiles w)) as [[message|doc]|] eqn:E;
    cbn [fst snd settingsFiles setTrace setSettingsFiles _localSettingsPath
         _remoteSettingsPath _remoteDefaultSettingsFilename trace];
    rewrite ?E; cbn [fst snd settingsFiles setTrace setSettingsFiles
                     _localSettingsPath _remoteSettingsPath
                     _remoteDefaultSettingsFilename trace].
  - repeat split; reflexivity.
  - repeat split; try reflexivity.
    + intros p Hp. now apply assoc_setAssoc_other.
    + apply assoc_setAssoc_same.
  - destruct (assoc _ (directories w));
      cbn [fst snd settingsFiles setTrace setSettingsFiles _localSettingsPath
           _remoteSettingsPath _remoteDefaultSettingsFilename trace];
      rewrite ?E; cbn [fst snd settingsFiles setTrace setSettingsFiles
                       _localSettingsPath _remoteSettingsPath
                       _remoteDefaultSettingsFilename trace].
    + repeat split; try reflexivity. right. split; [now eexists | reflexivity].
    + repeat split; try reflexivity.
      * intros p Hp. now apply assoc_setAssoc_other.
      * left. split; [reflexivity | apply assoc_setAssoc_same].
Qed.

Lemma updateSettings_frame (newSettings : props) (w : world) (k : string) :
  ~ In k (keys newSettings) ->
  localSetting (snd (updateSettings newSettings w)) k = localSetting w k.
Proof.
  intros Hk.
  destruct (updateSettings_run newSettings w) as [Hp [_ [_ [_ H]]]].
  unfold localSetting, localSettingsFile in *. rewrite Hp.
  destruct (assoc (join (_localSettingsPath w) "settings.json")
              (settingsFiles w)) as [[message|doc]|] eqn:E.
  - destruct H as [_ ->]. now rewrite E.
  - destruct H as [_ ->]. now apply lookup_assign_other.
  - destruct H as [[_ ->]|[_ ->]]; [|now rewrite E].
    now rewrite lookup_assign_other.
Qed.

(** ** The filter of the settings of this extension *)

Lemma deleteProp_filter (k : string) (ps : props) :
  deleteProp k ps = filter (fun kv => negb (String.eqb (fst kv) k)) ps.
Proof.
  induction ps as [|[k1 v1] ps IH]; simpl; [reflexivity|].
  destruct (String.eqb k1 k); simpl; now rewrite IH.
Qed.

Lemma filter_filter {A : Type} (f g : A -> bool) (l : list A) :
  filter f (filter g l) = filter (fun x => g x && f x) l.
Proof.
  induction l as [|x l IH]; simpl; [reflexivity|].
  destruct (g x); simpl; [destruct (f x)|]; now rewrite IH.
Qed.

Lemma filterSettings_spec (settingsFile : props) :
  filterSettings settingsFile
  = filter (fun kv => negb (String.prefix "fetchUserEnv" (fst kv)))
      settingsFile.
Proof.
  unfold filterSettings.
  assert (G : forall ks o,
    fold_left
      (fun o prop =>
         if String.prefix "fetchUserEnv" prop then deleteProp prop o else o)
      ks o
    = filter
        (fun kv =>
           negb (existsb
                   (fun k => String.prefix "fetchUserEnv" k
                             && String.eqb (fst kv) k) ks)) o).
  { induction ks as [|k ks IH]; intros o; simpl.
    - symmetry. apply forallb_filter_id. now apply forallb_forall.
    - rewrite IH. destruct (String.prefix "fetchUserEnv" k); simpl.
      + rewrite deleteProp_filter, filter_filter. apply filter_ext.
        intros kv. now rewrite negb_orb.
      + reflexivity. }
  rewrite G. apply filter_ext_in. intros [k v] Hin. cbn [fst]. f_equal.
  destruct (String.prefix "fetchUserEnv" k) eqn:E.
  - apply existsb_exists. exists k. split.
    + unfold keys. apply in_map_iff. now exists (k, v).
    + now rewrite E, String.eqb_refl.
  - destruct (existsb _ (keys settingsFile)) eqn:E'; [|reflexivity].
    apply existsb_exists in E' as [k' [_ Hk']].
    apply andb_prop in Hk' as [Hp He]. apply String.eqb_eq in He.
    subst k'. congruence.
Qed.

Lemma filterSettings_keys (settingsFile : props) (k : string) :
  In k (keys (filterSettings settingsFile)) ->
  String.prefix "fetchUserEnv" k = false.
Proof.
  rewrite filterSettings_spec. intros H.
  apply in_keys_lookup in H as [v Hv]. apply lookup_in, filter_In in Hv.
  destruct Hv as [_ Hv]. now apply negb_true_iff in Hv.
Qed.

Lemma remoteLoop_keys (localSettings remoteSettings delta : props) (u : bool)
    (k : string) :
  remoteLoop localSettings remoteSettings [] false = Ok (delta, u) ->
  In k (keys delta) -> In k (keys remoteSettings).
Proof.
  intros H Hk. apply in_keys_lookup in Hk as [v Hv]. apply lookup_in in Hv.
  apply (remoteLoop_delta _ _ _ _ H) in Hv as [Hv _].
  unfold keys. apply in_map_iff. now exists (k, v).
Qed.

Lemma defaultsLoop_keys (localSettings defaultSettings : props) (k : string) :
  In k (keys (fst (defaultsLoop localSettings defaultSettings [] false))) ->
  In k (keys defaultSettings).
Proof.
  rewrite defaultsLoop_spec. cbn [fst]. intros Hk.
  apply in_keys_lookup in Hk as [v Hv]. apply lookup_in in Hv.
  apply in_assign in Hv as [[]|Hv]. apply filter_In in Hv as [Hv _].
  unfold keys. apply in_map_iff. now exists (k, v).
Qed.

(** ** compareSettings and the settings of this extension *)

Ltac run_method :=
  repeat (cbn [fst snd settingsFiles setTrace setSettingsFiles
               _localSettingsPath _remoteSettingsPath
               _remoteDefaultSettingsFilename trace] in *;
          unfold bind, getWorld, emit, modify, ret, throw, liftResult,
                 joinField, readSettingsFile in *).

Lemma compareRemoteSettings_frame (w : world) (k : string) :
  String.prefix "fetchUserEnv" k = true ->
  let w' := snd (compareRemoteSettings w) in
  localSetting w' k = localSetting w k
  /\ _localSettingsPath w' = _localSettingsPath w
  /\ _remoteSettingsPath w' = _remoteSettingsPath w
  /\ _remoteDefaultSettingsFilename w' = _remoteDefaultSettingsFilename w.
Proof.
  intros Hk. unfold compareRemoteSettings. run_method.
  destruct (_remoteSettingsPath w) as [remote|] eqn:Er; run_method;
    [|now repeat split].
  destruct (assoc (join remote "settings.json") (settingsFiles w))
    as [[m|remoteDoc]|]; run_method; try now repeat split.
  destruct (assoc (join (_localSettingsPath w) "settings.json")
              (settingsFiles w)) as [[m|localDoc]|] eqn:El; run_method;
    try now repeat split.
  destruct (remoteLoop (filterSettings localDoc) (filterSettings remoteDoc)
              [] false) as [[newSettings [|]]|e] eqn:EL; run_method;
    try now repeat split.
  match goal with
  | |- context [updateSettings newSettings ?w0] =>
      pose proof (updateSettings_frame newSettings w0 k) as Hf;
      destruct (updateSettings_run newSettings w0) as [H1 [H2 [H3 _]]];
      destruct (updateSettings newSettings w0) as [[[]|e] w1]
  end; run_method; rewrite Hf, H1, H2, H3; try now repeat split.
  all: intros Hin; apply (remoteLoop_keys _ _ _ _ _ EL) in Hin;
    apply filterSettings_keys in Hin; congruence.
Qed.

Lemma compareDefaultSettings_frame (w : world) (k : string) :
  String.prefix "fetchUserEnv" k = true ->
  let w' := snd (compareDefaultSettings w) in
  localSetting w' k = localSetting w k
  /\ _localSettingsPath w' = _localSettingsPath w
  /\ _remoteSettingsPath w' = _remoteSettingsPath w
  /\ _remoteDefaultSettingsFilename w' = _remoteDefaultSettingsFilename w.
Proof.
  intros Hk. unfold compareDefaultSettings. run_method.
  destruct (_remoteDefaultSettingsFilename w) as [filename|] eqn:Ef;
    run_method; [|now repeat split].
  destruct (String.eqb filename ""); run_method; [now repeat split|].
  destruct (_remoteSettingsPath w) as [remote|] eqn:Er; run_method;
    [|now repeat split].
  destruct (assoc (join remote filename) (settingsFiles w))
    as [[m|defaultsDoc]|]; run_method; try now repeat split.
  destruct (assoc (join (_localSettingsPath w) "settings.json")
              (settingsFiles w)) as [[m|localDoc]|] eqn:El; run_method;
    try now repeat split.
  destruct (defaultsLoop (filterSettings localDoc) (filterSettings defaultsDoc)
              [] false) as [newSettings [|]] eqn:EL; run_method;
    try now repeat split.
  match goal with
  | |- context [updateSettings newSettings ?w0] =>
      pose proof (updateSettings_frame newSettings w0 k) as Hf;
      destruct (updateSettings_run newSettings w0) as [H1 [H2 [H3 _]]];
      destruct (updateSettings newSettings w0) as [[[]|e] w1]
  end; run_method; rewrite Hf, H1, H2, H3; try now repeat split.
  all: intros Hin;
    pose proof (defaultsLoop_keys (filterSettings localDoc)
                  (filterSettings defaultsDoc) k) as Hkeys;
    rewrite EL in Hkeys; apply Hkeys in Hin;
    apply filterSettings_keys in Hin; congruence.
Qed.

Lemma compareSettings_frame (w : world) (k : string) :
  String.prefix "fetchUserEnv" k = true ->
  localSetting (snd (compareSettings w)) k = localSetting w k.
Proof.
  intros Hk. unfold compareSettings, bind.
  destruct (compareDefaultSettings_frame w k Hk) as [Hd _].
  destruct (compareDefaultSettings w) as [[d|e] w1]; cbn [snd] in *;
    [|exact Hd].
  destruct (compareRemoteSettings_frame w1 k Hk) as [Hr _].
  destruct (compareRemoteSettings w1) as [[r|e] w2]; cbn [snd ret] in *;
    congruence.
Qed.

(** ** The trace only grows *)

Lemma appends_ret {A : Type} (a : A) : appends (ret a).
Proof. intros w. exists []. cbn. now rewrite app_nil_r. Qed.

Lemma appends_throw {A : Type} (e : error) : appends (@throw A e).
Proof. intros w. exists []. cbn. now rewrite app_nil_r. Qed.

Lemma appends_getWorld : appends getWorld.
Proof. intros w. exists []. cbn. now rewrite app_nil_r. Qed.

Lemma appends_emit (e : event) : appends (emit e).
Proof. intros w. now exists [e]. Qed.

Lemma appends_modify (f : world -> world) :
  (forall w, trace (f w) = trace w) -> appends (modify f).
Proof. intros H w. exists []. cbn. now rewrite H, app_nil_r. Qed.

Lemma appends_bind {A B : Type} (m : M A) (f : A -> M B) :
  appends m -> (forall a, appends (f a)) -> appends (bind m f).
Proof.
  intros Hm Hf w. unfold bind. destruct (Hm w) as [l1 H1].
  destruct (m w) as [[a|e] w1]; cbn [snd] in *.
  - destruct (Hf a w1) as [l2 H2]. exists (l1 ++ l2)%list.
    now rewrite H2, H1, app_assoc.
  - now exists l1.
Qed.

Lemma appends_tryCatch {A : Type} (m : M A) (h : error -> M A) :
  appends m -> (forall e, appends (h e)) -> appends (tryCatch m h).
Proof.
  intros Hm Hh w. unfold tryCatch. destruct (Hm w) as [l1 H1].
  destruct (m w) as [[a|e] w1]; cbn [snd] in *.
  - now exists l1.
  - destruct (Hh e w1) as [l2 H2]. exists (l1 ++ l2)%list.
    now rewrite H2, H1, app_assoc.
Qed.

Lemma appends_liftResult {A : Type} (r : result A) : appends (liftResult r).
Proof. destruct r; [apply appends_ret | apply appends_throw]. Qed.

Create HintDb appends.
#[local] Hint Resolve appends_ret appends_throw appends_getWorld appends_emit
  appends_liftResult : appends.

Ltac appends_step :=
  first
    [ assumption
    | solve [auto with appends]
    | apply appends_bind; [|intros ?]
    | apply appends_tryCatch; [|intros ?]
    | apply appends_modify; intros ?; reflexivity
    | match goal with
      | |- appends (match ?x with _ => _ end) => destruct x
      | |- appends (let '(_, _) := ?x in _) => destruct x
      end ].

Ltac appends_auto := repeat appends_step.

Lemma appends_readSettingsFile (p : string) (f : bool) :
  appends (readSettingsFile p f).
Proof. unfold readSettingsFile. appends_auto. Qed.
#[local] Hint Resolve appends_readSettingsFile : appends.

Lemma appends_updateSettings (newSettings : props) :
  appends (updateSettings newSettings).
Proof. unfold updateSettings, writeSettings. appends_auto. Qed.
#[local] Hint Resolve appends_updateSettings : appends.

Lemma appends_compareSettings : appends compareSettings.
Proof.
  unfold compareSettings, compareDefaultSettings, compareRemoteSettings,
    joinField.
  appends_auto.
Qed.
#[local] Hint Resolve appends_compareSettings : appends.

Lemma appends_showInputBox (prompt : string) (current : option string) :
  appends (showInputBox prompt current).
Proof. unfold showInputBox. appends_auto. Qed.
#[local] Hint Resolve appends_showInputBox : appends.

Lemma appends_getRemoteExtensionPath : appends getRemoteExtensionPath.
Proof.
  unfold getRemoteExtensionPath, saveRemoteExtensionPath. appends_auto.
Qed.

Lemma appends_getRemoteSettingsPath : appends getRemoteSettingsPath.
Proof.
  unfold getRemoteSettingsPath, saveRemoteSettingsPath. appends_auto.
Qed.

Lemma appends_saveDefaultSettingsFilename (p : option string) :
  appends (saveDefaultSettingsFilename p).
Proof. unfold saveDefaultSettingsFilename. appends_auto. Qed.
#[local] Hint Resolve appends_saveDefaultSettingsFilename : appends.

Lemma appends_getDefaultSettingsFilename : appends getDefaultSettingsFilename.
Proof. unfold getDefaultSettingsFilename. appends_auto. Qed.
#[local] Hint Resolve appends_getRemoteExtensionPath
  appends_getRemoteSettingsPath appends_getDefaultSettingsFilename : appends.

Lemma appends_installLoop (compareVer : string -> string -> Z)
    (remote : string) (folders : list folder) :
  forall updated, appends (installLoop compareVer remote folders updated).
Proof.
  induction folders as [|f rest IH]; intros updated; simpl; appends_auto.
Qed.

Lemma appends_installNewExtensions (compareVer : string -> string -> Z) :
  appends (installNewExtensions compareVer).
Proof.
  unfold installNewExtensions. appends_auto. apply appends_installLoop.
Qed.

Lemma appends_getInstalledExtensions : appends getInstalledExtensions.
Proof. unfold getInstalledExtensions. appends_auto. Qed.
#[local] Hint Resolve appends_installNewExtensions
  appends_getInstalledExtensions : appends.

Lemma appends_confirmExtensionPath (prompt : bool) (answers : list choice) :
  forall reenter, appends (confirmExtensionPath prompt answers reenter).
Proof.
  induction answers as [|c rest IH]; intros reenter; simpl;
    unfold enterExtensionPath; appends_auto.
Qed.

Lemma appends_confirmSettingsPath (prompt : bool) (answers : list choice) :
  forall reenter, appends (confirmSettingsPath prompt answers reenter).
Proof.
  induction answers as [|c rest IH]; intros reenter; simpl;
    unfold enterSettingsPath, joinField; appends_auto.
Qed.

Lemma appends_confirmDefaultSettings (answers : list choice) :
  appends (confirmDefaultSettings answers).
Proof.
  induction answers as [|c rest IH]; simpl; unfold joinField; appends_auto.
Qed.
#[local] Hint Resolve appends_confirmExtensionPath appends_confirmSettingsPath
  appends_confirmDefaultSettings : appends.

(** ** Running a method step by step *)

Lemma bind_bind {A B C : Type} (m : M A) (f : A -> M B) (g : B -> M C)
    (w : world) :
  bind (bind m f) g w = bind m (fun a => bind (f a) g) w.
Proof. unfold bind. destruct (m w) as [[a|e] w1]; reflexivity. Qed.

Lemma bind_run {A B : Type} (m : M A) (f : A -> M B) (w w1 : world) (a : A) :
  m w = (Ok a, w1) -> bind m f w = f a w1.
Proof. intros H. unfold bind. now rewrite H. Qed.

Lemma appends_from {A : Type} (m : M A) (w w1 : world) (e : event) :
  appends m -> trace w1 = (trace w ++ [e])%list ->
  exists rest, trace (snd (m w1)) = (trace w ++ e :: rest)%list.
Proof.
  intros Hm H1. destruct (Hm w1) as [l Hl]. exists l.
  now rewrite Hl, H1, <- app_assoc.
Qed.

Lemma confirmExtensionPath_invalid {A : Type} (K : bool * list choice -> M A)
    (prompt : bool) (answers : list choice) (w : world) :
  (forall x, appends (K x)) ->
  truthy (_remoteExtensionPath w) = true ->
  existsField w (_remoteExtensionPath w) = false ->
  exists rest,
    trace (snd (bind (confirmExtensionPath prompt answers false) K w))
    = (trace w
       ++ ShowErrorChoice "Cannot access extensions at specified remote path."
            pathOptions :: rest)%list.
Proof.
  intros HK Ht He.
  assert (Henter : enterExtensionPath prompt false w = (Ok false, w)).
  { unfold enterExtensionPath, bind, getWorld. now rewrite Ht. }
  destruct answers as [|c rest]; cbn [confirmExtensionPath];
    rewrite bind_bind, (bind_run _ _ _ _ _ Henter); cbn beta iota;
    rewrite bind_bind, (bind_run getWorld _ w w w eq_refl); cbn beta;
    rewrite He; rewrite bind_bind;
    erewrite (bind_run (emit _)) by reflexivity;
    (eapply appends_from; [|reflexivity]); appends_auto.
Qed.

Lemma confirmSettingsPath_invalid {A : Type} (K : bool * list choice -> M A)
    (prompt : bool) (answers : list choice) (w : world) (remote : string) :
  (forall x, appends (K x)) ->
  _remoteSettingsPath w = Some remote ->
  remote <> "" ->
  existsSync w (join remote "settings.json") = false ->
  exists rest,
    trace (snd (bind (confirmSettingsPath prompt answers false) K w))
    = (trace w
       ++ ShowErrorChoice "Cannot access settings at specified remote path."
            pathOptions :: rest)%list.
Proof.
  intros HK Hp Hne He.
  assert (Henter : enterSettingsPath prompt false w = (Ok false, w)).
  { unfold enterSettingsPath, bind, getWorld. rewrite Hp. cbn [truthy].
    apply String.eqb_neq in Hne. now rewrite Hne. }
  destruct answers as [|c rest]; cbn [confirmSettingsPath];
    rewrite bind_bind, (bind_run _ _ _ _ _ Henter); cbn beta iota;
    rewrite bind_bind, (bind_run getWorld _ w w w eq_refl); cbn beta;
    rewrite Hp; cbn [joinField];
    rewrite bind_bind, (bind_run (ret _) _ w w _ eq_refl); cbn beta;
    rewrite He; rewrite bind_bind;
    erewrite (bind_run (emit _)) by reflexivity;
    (eapply appends_from; [|reflexivity]); appends_auto.
Qed.

(** ** The loop over the folders of the remote extension path *)


Lemma setTrace_same (w : world) : setTrace (trace w ++ []) w = w.
Proof.
  rewrite app_nil_r. now destruct w.
Qed.

Lemma candidate_wanted (compareVer : string -> string -> Z)
    (remote localPath : string) (installed : list (string * string))
    (f : folder) :
  (forall message, packageFile f <> PackageInvalid message) ->
  (isWanted compareVer installed f = false
   /\ candidate compareVer remote localPath installed f = Ok None)
  \/ (exists m,
        packageFile f = PackageJson m
        /\ isWanted compareVer installed f = true
        /\ candidate compareVer remote localPath installed f
           = Ok (Some (publisher m ++ "." ++ name m, version m,
                       join remote (folderName f),
                       join localPath
                         ((publisher m ++ "." ++ name m) ++ "-" ++ version m)))).
Proof.
  intros Hvalid. unfold isWanted, candidate.
  destruct (packageFile f) as [|message|m] eqn:Ep.
  - now left.
  - now destruct (Hvalid message).
  - destruct (assoc _ installed) as [v|].
    + rewrite Z.geb_leb, Z.ltb_antisym.
      destruct (0 <=? compareVer v (version m))%Z; cbn [negb];
        [now left | right; now exists m].
    + right. now exists m.
Qed.

Lemma installLoop_run (compareVer : string -> string -> Z) (remote : string)
    (folders : list folder) :
  (forall f message, In f folders -> packageFile f <> PackageInvalid message) ->
  forall updated w,
    installLoop compareVer remote folders updated w
    = (Ok (updated || existsb (isWanted compareVer (_localExtVersions w)) folders),
       setTrace
         (trace w
          ++ flat_map (installEvents remote (_localExtensionPath w))
               (filter (isWanted compareVer (_localExtVersions w)) folders))
         w).
Proof.
  induction folders as [|f rest IH]; intros Hvalid updated w.
  - cbn. now rewrite orb_false_r, setTrace_same.
  - assert (Hrest : forall f message, In f rest ->
                      packageFile f <> PackageInvalid message).
    { intros f' message Hin. apply Hvalid. now right. }
    specialize (IH Hrest).
    cbn [installLoop filter existsb].
    unfold bind at 1. unfold getWorld at 1. cbn iota beta.
    destruct (candidate_wanted compareVer remote (_localExtensionPath w)
                (_localExtVersions w) f) as [[Hw Hc]|[m [Ep [Hw Hc]]]].
    + intros message. apply Hvalid. now left.
    + rewrite Hc, Hw. cbn [liftResult].
      rewrite (bind_run (ret None) _ w w None eq_refl).
      cbn iota beta. rewrite IH. reflexivity.
    + rewrite Hc, Hw. cbn [liftResult].
      rewrite (bind_run (ret (Some _)) _ w w _ eq_refl).
      cbn iota beta. unfold bind, emit, modify. cbn iota beta.
      rewrite IH. rewrite orb_true_r. cbn [flat_map].
      assert (He : installEvents remote (_localExtensionPath w) f
                   = [ChannelShow;
                      ChannelAppendLine
                        ("Updating extension " ++ quote
                           ++ (publisher m ++ "." ++ name m) ++ quote
                           ++ " to version " ++ version m);
                      Copy (join remote (folderName f))
                        (join (_localExtensionPath w)
                           ((publisher m ++ "." ++ name m) ++ "-"
                              ++ version m))])
        by (unfold installEvents; now rewrite Ep).
      rewrite He.
      cbn [_localExtVersions _localExtensionPath setTrace trace app].
      rewrite <- !app_assoc. reflexivity.
Qed.

Lemma isWanted_spec (compareVer : string -> string -> Z)
    (installed : list (string * string)) (f : folder) :
  isWanted compareVer installed f = true <->
  exists m,
    packageFile f = PackageJson m
    /\ (assoc (publisher m ++ "." ++ name m) installed = None
        \/ exists installedVersion,
             assoc (publisher m ++ "." ++ name m) installed
             = Some installedVersion
             /\ (compareVer installedVersion (version m) < 0)%Z).
Proof.
  unfold isWanted. destruct (packageFile f) as [|message|m].
  - split; [discriminate | intros [m [H _]]; discriminate H].
  - split; [discriminate | intros [m [H _]]; discriminate H].
  - destruct (assoc _ installed) as [v|] eqn:E.
    + rewrite Z.ltb_lt. split.
      * intros H. exists m. split; [reflexivity|]. right. now exists v.
      * intros [m' [[= <-] [H|[v' [H1 H2]]]]]; congruence.
    + split; [|reflexivity]. intros _. exists m. split; [reflexivity|].
      left. exact E.
Qed.

Lemma installNewExtensions_run (compareVer : string -> string -> Z)
    (w : world) (remote : string) (entries : list folder) :
  _remoteExtensionPath w = Some remote ->
  assoc remote (directories w) = Some entries ->
  (forall f message, In f entries -> isDirectory f = true ->
                     packageFile f <> PackageInvalid message) ->
  installNewExtensions compareVer w
  = (Ok (existsb (isWanted compareVer (_localExtVersions w))
           (filter isDirectory entries)),
     setTrace
       (trace w
        ++ ReadDir remote
           :: flat_map (installEvents remote (_localExtensionPath w))
                (filter (isWanted compareVer (_localExtVersions w))
                   (filter isDirectory entries)))
       w).
Proof.
  intros Hp Hd Hvalid. unfold installNewExtensions.
  rewrite (bind_run getWorld _ w w w eq_refl). rewrite Hp.
  erewrite (bind_run (emit _)) by reflexivity. rewrite Hd.
  rewrite installLoop_run.
  - cbn [_localExtVersions _localExtensionPath setTrace trace orb].
    rewrite <- app_assoc. reflexivity.
  - intros f message Hin. apply filter_In in Hin as [Hin Hdir].
    now apply Hvalid.
Qed.

(** ** The first call of a method *)

Lemma starts_emit_bind {A : Type} (e : event) (k : unit -> M A) (w : world) :
  appends (k tt) -> starts e (bind (emit e) k) w.
Proof.
  intros Hk. unfold starts. erewrite (bind_run (emit _)) by reflexivity.
  destruct (Hk (setTrace (trace w ++ [e]) w)) as [l Hl]. exists l.
  rewrite Hl. cbn [trace setTrace]. now rewrite <- app_assoc.
Qed.

Lemma starts_bind {A B : Type} (e : event) (m : M A) (f : A -> M B)
    (w : world) :
  starts e m w -> (forall a, appends (f a)) -> starts e (bind m f) w.
Proof.
  intros [rest H] Hf. unfold starts, bind.
  destruct (m w) as [[a|err] w1]; cbn [snd] in *.
  - destruct (Hf a w1) as [l Hl]. exists (rest ++ l)%list.
    rewrite Hl, H, <- app_assoc. reflexivity.
  - now exists rest.
Qed.

Lemma starts_tryCatch {A : Type} (e : event) (m : M A) (h : error -> M A)
    (w : world) :
  starts e m w -> (forall err, appends (h err)) -> starts e (tryCatch m h) w.
Proof.
  intros [rest H] Hh. unfold starts, tryCatch.
  destruct (m w) as [[a|err] w1]; cbn [snd] in *.
  - now exists rest.
  - destruct (Hh err w1) as [l Hl]. exists (rest ++ l)%list.
    rewrite Hl, H, <- app_assoc. reflexivity.
Qed.

Lemma starts_getWorld {A : Type} (e : event) (f : world -> M A) (w : world) :
  starts e (f w) w -> starts e (bind getWorld f) w.
Proof. intros H. exact H. Qed.

Lemma starts_getRemoteExtensionPath (w : world) :
  starts (ShowInputBox "Please enter path for remote extensions"
            (current (_remoteExtensionPath w)))
    getRemoteExtensionPath w.
Proof.
  unfold getRemoteExtensionPath. apply starts_getWorld.
  apply starts_bind.
  - unfold showInputBox. apply starts_emit_bind. appends_auto.
  - intros path. unfold saveRemoteExtensionPath. appends_auto.
Qed.

Lemma starts_getRemoteSettingsPath (w : world) :
  starts (ShowInputBox "Please enter path for remote settings"
            (current (_remoteSettingsPath w)))
    getRemoteSettingsPath w.
Proof.
  unfold getRemoteSettingsPath. apply starts_getWorld.
  apply starts_bind.
  - unfold showInputBox. apply starts_emit_bind. appends_auto.
  - intros path. unfold saveRemoteSettingsPath. appends_auto.
Qed.

(** The loop that is entered to ask for the path again opens the input
    box. *)
Lemma confirmExtensionPath_asks {A : Type} (K : bool * list choice -> M A)
    (prompt : bool) (answers : list choice) (w : world) :
  (forall x, appends (K x)) ->
  starts (ShowInputBox "Please enter path for remote extensions"
            (current (_remoteExtensionPath w)))
    (bind (confirmExtensionPath prompt answers true) K) w.
Proof.
  intros HK. apply starts_bind; [|exact HK].
  assert (Henter : starts
            (ShowInputBox "Please enter path for remote extensions"
               (current (_remoteExtensionPath w)))
            (enterExtensionPath prompt true) w).
  { unfold enterExtensionPath. apply starts_getWorld.
    rewrite orb_true_r, andb_false_r.
    apply starts_tryCatch.
    - apply starts_bind; [apply starts_getRemoteExtensionPath|].
      intros entered. appends_auto.
    - intros err. appends_auto. }
  destruct answers as [|c rest]; cbn [confirmExtensionPath];
    (apply starts_bind; [exact Henter|]); intros stop; appends_auto.
Qed.

Lemma confirmSettingsPath_asks {A : Type} (K : bool * list choice -> M A)
    (prompt : bool) (answers : list choice) (w : world) :
  (forall x, appends (K x)) ->
  starts (ShowInputBox "Please enter path for remote settings"
            (current (_remoteSettingsPath w)))
    (bind (confirmSettingsPath prompt answers true) K) w.
Proof.
  intros HK. apply starts_bind; [|exact HK].
  assert (Henter : starts
            (ShowInputBox "Please enter path for remote settings"
               (current (_remoteSettingsPath w)))
            (enterSettingsPath prompt true) w).
  { unfold enterSettingsPath. apply starts_getWorld.
    rewrite orb_true_r, andb_false_r.
    apply starts_tryCatch.
    - apply starts_bind; [apply starts_getRemoteSettingsPath|].
      intros entered. appends_auto.
    - intros err. appends_auto. }
  destruct answers as [|c rest]; cbn [confirmSettingsPath];
    (apply starts_bind; [exact Henter|]); intros stop; unfold joinField;
    appends_auto.
Qed.

Lemma confirmExtensionPath_reenter {A : Type} (K : bool * list choice -> M A)
    (prompt : bool) (answers : list choice) (w : world) (path : string) :
  (forall x, appends (K x)) ->
  _remoteExtensionPath w = Some path -> path <> "" ->
  existsSync w path = false ->
  exists rest,
    trace (snd (bind (confirmExtensionPath prompt (Reenter :: answers) false)
                  K w))
    = (trace w
       ++ ShowErrorChoice "Cannot access extensions at specified remote path."
            pathOptions
          :: ShowInputBox "Please enter path for remote extensions" path
          :: rest)%list.
Proof.
  intros HK Hp Hne He.
  assert (Henter : enterExtensionPath prompt false w = (Ok false, w)).
  { unfold enterExtensionPath, bind, getWorld. rewrite Hp. cbn [truthy].
    apply String.eqb_neq in Hne. now rewrite Hne. }
  cbn [confirmExtensionPath].
  rewrite bind_bind, (bind_run _ _ _ _ _ Henter). cbn beta iota.
  rewrite bind_bind, (bind_run getWorld _ w w w eq_refl). cbn beta.
  rewrite Hp. cbn [existsField]. rewrite He. rewrite bind_bind.
  erewrite (bind_run (emit _)) by reflexivity.
  destruct (confirmExtensionPath_asks K prompt answers
              (setTrace
                 (trace w
                  ++ [ShowErrorChoice
                        "Cannot access extensions at specified remote path."
                        pathOptions]) w) HK) as [rest H].
  exists rest. rewrite H. cbn [trace setTrace _remoteExtensionPath].
  rewrite Hp. cbn [current]. now rewrite <- app_assoc.
Qed.

Lemma confirmSettingsPath_reenter {A : Type} (K : bool * list choice -> M A)
    (prompt : bool) (answers : list choice) (w : world) (remote : string) :
  (forall x, appends (K x)) ->
  _remoteSettingsPath w = Some remote -> remote <> "" ->
  existsSync w (join remote "settings.json") = false ->
  exists rest,
    trace (snd (bind (confirmSettingsPath prompt (Reenter :: answers) false)
                  K w))
    = (trace w
       ++ ShowErrorChoice "Cannot access settings at specified remote path."
            pathOptions
          :: ShowInputBox "Please enter path for remote settings" remote
          :: rest)%list.
Proof.
  intros HK Hp Hne He.
  assert (Henter : enterSettingsPath prompt false w = (Ok false, w)).
  { unfold enterSettingsPath, bind, getWorld. rewrite Hp. cbn [truthy].
    apply String.eqb_neq in Hne. now rewrite Hne. }
  cbn [confirmSettingsPath].
  rewrite bind_bind, (bind_run _ _ _ _ _ Henter). cbn beta iota.
  rewrite bind_bind, (bind_run getWorld _ w w w eq_refl). cbn beta.
  rewrite Hp. cbn [joinField].
  rewrite bind_bind, (bind_run (ret _) _ w w _ eq_refl). cbn beta.
  rewrite He. rewrite bind_bind.
  erewrite (bind_run (emit _)) by reflexivity.
  destruct (confirmSettingsPath_asks K prompt answers
              (setTrace
                 (trace w
                  ++ [ShowErrorChoice
                        "Cannot access settings at specified remote path."
                        pathOptions]) w) HK) as [rest H].
  exists rest. rewrite H. cbn [trace setTrace _remoteSettingsPath].
  rewrite Hp. cbn [current]. now rewrite <- app_assoc.
Qed.

(** ** Paths that are confirmed at once *)

Lemma confirmSettingsPath_valid (prompt : bool) (answers : list choice)
    (w : world) (remote : string) :
  _remoteSettingsPath w = Some remote -> remote <> "" ->
  existsSync w (join remote "settings.json") = true ->
  confirmSettingsPath prompt answers false w = (Ok (true, answers), w).
Proof.
  intros Hp Hne He.
  assert (Henter : enterSettingsPath prompt false w = (Ok false, w)).
  { unfold enterSettingsPath, bind, getWorld. rewrite Hp. cbn [truthy].
    apply String.eqb_neq in Hne. now rewrite Hne. }
  destruct answers as [|c rest]; cbn [confirmSettingsPath];
    rewrite (bind_run _ _ _ _ _ Henter); cbn beta iota;
    rewrite (bind_run getWorld _ w w w eq_refl); cbn beta;
    rewrite Hp; cbn [joinField];
    rewrite (bind_run (ret _) _ w w _ eq_refl); cbn beta;
    now rewrite He.
Qed.

Lemma confirmDefaultSettings_valid (answers : list choice) (w : world)
    (remote filename : string) :
  _remoteDefaultSettingsFilename w = Some filename ->
  _remoteSettingsPath w = Some remote ->
  existsSync w (join remote filename) = true ->
  confirmDefaultSettings answers w = (Ok true, w).
Proof.
  intros Hf Hp He.
  destruct answers as [|c rest]; cbn [confirmDefaultSettings];
    rewrite (bind_run getWorld _ w w w eq_refl); cbn beta;
    rewrite Hf; (destruct (String.eqb filename ""); [reflexivity|]);
    rewrite Hp; cbn [joinField];
    rewrite (bind_run (ret _) _ w w _ eq_refl); cbn beta;
    now rewrite He.
Qed.

(** ** The folders before a package file that does not parse *)

Lemma installLoop_prefix (compareVer : string -> string -> Z)
    (remote : string) (before rest : list folder) :
  (forall f message, In f before -> packageFile f <> PackageInvalid message) ->
  forall updated w,
    installLoop compareVer remote (before ++ rest) updated w
    = installLoop compareVer remote rest
        (updated || existsb (isWanted compareVer (_localExtVersions w)) before)
        (setTrace
           (trace w
            ++ flat_map (installEvents remote (_localExtensionPath w))
                 (filter (isWanted compareVer (_localExtVersions w)) before))
           w).
Proof.
  induction before as [|f before IH]; intros Hvalid updated w.
  - cbn. now rewrite orb_false_r, setTrace_same.
  - assert (Hrest : forall f message, In f before ->
                      packageFile f <> PackageInvalid message).
    { intros f' message Hin. apply Hvalid. now right. }
    specialize (IH Hrest).
    cbn [app installLoop filter existsb].
    unfold bind at 1. unfold getWorld at 1. cbn iota beta.
    destruct (candidate_wanted compareVer remote (_localExtensionPath w)
                (_localExtVersions w) f) as [[Hw Hc]|[m [Ep [Hw Hc]]]].
    + intros message. apply Hvalid. now left.
    + rewrite Hc, Hw. cbn [liftResult].
      rewrite (bind_run (ret None) _ w w None eq_refl).
      cbn iota beta. rewrite IH. reflexivity.
    + rewrite Hc, Hw. cbn [liftResult].
      rewrite (bind_run (ret (Some _)) _ w w _ eq_refl).
      cbn iota beta. unfold bind at 1 2 3, emit, modify. cbn iota beta.
      rewrite IH. rewrite orb_true_r. cbn [flat_map].
      assert (He : installEvents remote (_localExtensionPath w) f
                   = [ChannelShow;
                      ChannelAppendLine
                        ("Updating extension " ++ quote
                           ++ (publisher m ++ "." ++ name m) ++ quote
                           ++ " to version " ++ version m);
                      Copy (join remote (folderName f))
                        (join (_localExtensionPath w)
                           ((publisher m ++ "." ++ name m) ++ "-"
                              ++ version m))])
        by (unfold installEvents; now rewrite Ep).
      rewrite He.
      cbn [_localExtVersions _localExtensionPath setTrace trace app orb].
      rewrite <- !app_assoc. reflexivity.
Qed.

(** ** The worlds that a run of emissions and one write leaves *)

Lemma setTrace_setTrace (t t' : list event) (w : world) :
  setTrace t (setTrace t' w) = setTrace t w.
Proof. reflexivity. Qed.

Lemma setSettingsFiles_setTrace (fs : list (string * content))
    (t : list event) (w : world) :
  setSettingsFiles fs (setTrace t w) = setTrace t (setSettingsFiles fs w).
Proof. reflexivity. Qed.

Ltac same_world :=
  repeat (rewrite setTrace_setTrace || rewrite setSettingsFiles_setTrace);
  rewrite <- ?app_assoc; reflexivity.

(** ** Lookup in a filtered document *)

Lemma lookup_filter_keys (p : string -> bool) (ps : props) (k : string) :
  lookup k (filter (fun kv => p (fst kv)) ps)
  = if p k then lookup k ps else None.
Proof.
  induction ps as [|[k1 v1] ps IH]; simpl; [now destruct (p k)|].
  destruct (p k1) eqn:E1; simpl.
  - destruct (String.eqb_spec k1 k) as [->|_]; [now rewrite E1 | exact IH].
  - destruct (String.eqb_spec k1 k) as [->|_]; [now rewrite IH, E1 | exact IH].
Qed.

Lemma lookup_filterSettings (doc : props) (k : string) :
  lookup k (filterSettings doc)
  = if String.prefix "fetchUserEnv" k then None else lookup k doc.
Proof.
  rewrite filterSettings_spec.
  rewrite (lookup_filter_keys
             (fun k => negb (String.prefix "fetchUserEnv" k))).
  now destruct (String.prefix "fetchUserEnv" k).
Qed.

Lemma lookup_keys (k : string) (v : value) (ps : props) :
  lookup k ps = Some v -> In k (keys ps).
Proof.
  intros H. apply lookup_in in H. unfold keys. apply in_map_iff.
  now exists (k, v).
Qed.

Lemma lookup_assign_source (s t : props) (k : string) :
  In k (keys s) -> exists v, lookup k (assign t s) = Some v.
Proof.
  revert t. induction s as [|[k1 v1] s IH]; intros t Hin; [destruct Hin|].
  rewrite assign_cons.
  destruct (in_dec string_dec k (keys s)) as [Hs|Hs]; [now apply IH|].
  destruct Hin as [E|Hin]; [|contradiction]. cbn [fst] in E. subst k1.
  rewrite lookup_assign_other by assumption.
  rewrite lookup_setProp, String.eqb_refl. now exists v1.
Qed.

Lemma hasOwnProperty_keys (o : props) (k : string) :
  hasOwnProperty o k = true <-> In k (keys o).
Proof.
  unfold hasOwnProperty. split.
  - destruct (lookup k o) as [v|] eqn:E; [|discriminate].
    intros _. apply lookup_in in E. unfold keys. apply in_map_iff.
    now exists (k, v).
  - intros H. apply in_keys_lookup in H as [v ->]. reflexivity.
Qed.

Ltac run_all :=
  repeat (cbn [fst snd settingsFiles directories inputs trace extensionsAll
               _localSettingsPath _localExtensionPath _localExtVersions
               _remoteSettingsPath _remoteExtensionPath
               _remoteDefaultSettingsFilename
               setTrace setSettingsFiles setInputs setLocalExtVersions
               setRemoteExtensionPath setRemoteSettingsPath
               setRemoteDefaultSettingsFilename] in *;
          unfold bind, getWorld, emit, modify, ret, throw, liftResult,
                 joinField, readSettingsFile in *).

(** ** Arrays are compared by their elements *)

Lemma lookup_indexed (vs : list value) :
  forall i j, lookup (indexKey (i + j)) (indexed i vs) = nth_error vs j.
Proof.
  induction vs as [|v vs IH]; intros i j; simpl.
  - now destruct j.
  - destruct j as [|j].
    + rewrite Nat.add_0_r, String.eqb_refl. reflexivity.
    + destruct (String.eqb_spec (indexKey i) (indexKey (i + S j))) as [E|_].
      * apply indexKey_inj in E. lia.
      * rewrite <- Nat.add_succ_comm. apply IH.
Qed.

Lemma getOwn_index (vs : list value) (i : nat) :
  getOwn (Arr vs) (indexKey i) = nth_error vs i.
Proof. simpl. rewrite indexKey_not_length. apply (lookup_indexed vs 0 i). Qed.

Lemma in_indexed_nth (vs : list value) (i : nat) (v : value) :
  nth_error vs i = Some v -> In (indexKey i, v) (indexed 0 vs).
Proof.
  intros H. apply lookup_in. pose proof (lookup_indexed vs 0 i) as E.
  cbn [Nat.add] in E. now rewrite E.
Qed.

Lemma missing_index (vs : list value) (i : nat) :
  (List.length vs <= i)%nat -> missing (Arr vs) (indexKey i) = Ok true.
Proof.
  intros H. unfold missing. rewrite getOwn_index.
  apply nth_error_None in H. now rewrite H.
Qed.

Lemma keys_indexed (vs : list value) (i : nat) :
  (i < List.length vs)%nat -> In (indexKey i) (keys (indexed 0 vs)).
Proof.
  intros H. destruct (nth_error vs i) as [v|] eqn:E.
  - apply in_indexed_nth in E. unfold keys. apply in_map_iff.
    now exists (indexKey i, v).
  - apply nth_error_None in E. lia.
Qed.

(** Two arrays of different lengths: one of the two loops of quick wins
    finds an index that the other array does not own. *)
Lemma compareUpdate_lengths (xs ys : list value) :
  List.length xs <> List.length ys ->
  compareUpdate (Arr xs) (Arr ys) = Ok (Arr ys).
Proof.
  intros Hlen. rewrite compareUpdate_eq. unfold compareBody.
  destruct (anyMissing_total (Arr xs) (keys (forIn (Arr ys))))
    as [b1 E1]; try discriminate.
  rewrite E1. destruct b1; [reflexivity|].
  destruct (anyMissing_total (Arr ys) (keys (forIn (Arr xs))))
    as [b2 E2]; try discriminate.
  rewrite E2. destruct b2; [reflexivity|]. exfalso.
  pose proof (anyMissing_all _ _ E1) as H1.
  pose proof (anyMissing_all _ _ E2) as H2. cbn [forIn] in H1, H2.
  destruct (Nat.lt_ge_cases (List.length xs) (List.length ys)) as [Hlt|Hge].
  - specialize (H1 _ (keys_indexed ys (List.length xs) Hlt)).
    rewrite missing_index in H1 by lia. discriminate H1.
  - assert (Hlt : (List.length ys < List.length xs)%nat) by lia.
    specialize (H2 _ (keys_indexed xs (List.length ys) Hlt)).
    rewrite missing_index in H2 by lia. discriminate H2.
Qed.

Lemma strictEq_scalar (x y : value) :
  isScalar x = true -> strictEq x y = true -> x = y.
Proof.
  destruct x, y; simpl; try discriminate; intros _ H.
  - now apply Bool.eqb_prop in H as ->.
  - now apply Z.eqb_eq in H as ->.
  - now apply String.eqb_eq in H as ->.
Qed.

Lemma scalars_differ (xs : list value) :
  forall ys,
    forallb isScalar xs = true -> List.length xs = List.length ys -> xs <> ys ->
    exists i x y,
      nth_error xs i = Some x /\ nth_error ys i = Some y
      /\ strictEq x y = false.
Proof.
  induction xs as [|x xs IH]; intros [|y ys] Hs Hlen Hne; simpl in *;
    try discriminate; [contradiction|].
  apply andb_prop in Hs as [Hx Hs].
  destruct (strictEq x y) eqn:E.
  - apply (strictEq_scalar x y Hx) in E. subst y.
    destruct (IH ys Hs) as [i [a [b [Ha [Hb Hab]]]]]; [lia | congruence |].
    exists (S i), a, b. now repeat split.
  - exists 0%nat, x, y. now repeat split.
Qed.

Lemma scalars_wf (vs : list value) :
  forallb isScalar vs = true -> wf (Arr vs) = true.
Proof.
  simpl. rewrite !forallb_forall. intros H v Hin.
  specialize (H v Hin). now destruct v.
Qed.

Lemma scalars_nullFree (vs : list value) :
  forallb isScalar vs = true -> nullFree (Arr vs) = true.
Proof.
  simpl. rewrite !forallb_forall. intros H v Hin.
  specialize (H v Hin). now destruct v.
Qed.

Lemma compareUpdate_scalar_arrays (xs ys : list value) :
  forallb isScalar xs = true -> forallb isScalar ys = true -> xs <> ys ->
  compareUpdate (Arr xs) (Arr ys) = Ok (Arr ys).
Proof.
  intros Hx Hy Hne.
  destruct (Nat.eq_dec (List.length xs) (List.length ys)) as [Hlen|Hlen];
    [|now apply compareUpdate_lengths].
  destruct (scalars_differ xs ys Hx Hlen Hne) as [i [x [y [Ex [Ey Exy]]]]].
  destruct (compareUpdate_scalar (Arr xs) (Arr ys) (indexKey i) y)
    as [H|H]; try assumption.
  - now apply in_indexed_nth.
  - rewrite forallb_forall in Hy. apply Hy. now apply nth_error_In in Ey.
  - unfold get. now rewrite getOwn_index, Ex.
  - destruct (compareUpdate_total (Arr ys) (Arr xs)) as [r Hr];
      try discriminate; try now apply scalars_nullFree.
    congruence.
Qed.

(** A property whose value is an object or an array in which the recursive
    call finds a difference ends the loop with the whole of [compare]. *)
Lemma eachProp_nested (rec : value -> value -> result value)
    (base compare : value) (ps : props) (k : string) (v diff : value) :
  In (k, v) ps -> typeofObject v = true ->
  rec (get base k) v = Ok diff -> hasKeys diff = true ->
  eachProp rec base compare ps = Ok compare
  \/ exists e, eachProp rec base compare ps = Throw e.
Proof.
  intros Hin Ht Hrec Hk. induction ps as [|[k' v'] ps IH]; simpl;
    [destruct Hin|].
  unfold compareItem. destruct Hin as [E|Hin].
  - injection E as -> ->. rewrite Ht, Hrec, Hk. now left.
  - destruct (typeofObject v').
    + destruct (rec _ v') as [d|e]; [|right; now exists e].
      destruct (hasKeys d); [now left | now apply IH].
    + destruct (negb _); [now left | now apply IH].
Qed.

Lemma compareUpdate_nested (base compare : value) (k : string)
    (v diff : value) :
  In (k, v) (forIn compare) -> typeofObject v = true ->
  compareUpdate (get base k) v = Ok diff -> hasKeys diff = true ->
  compareUpdate base compare = Ok compare
  \/ compareUpdate base compare = Throw TypeError.
Proof.
  intros Hin Ht Hrec Hk.
  destruct (compareUpdate base compare) as [r|e] eqn:E.
  - left. revert E. rewrite compareUpdate_eq. unfold compareBody.
    destruct (anyMissing base _) as [[|]|]; try discriminate;
      [now intros [= <-]|].
    destruct (anyMissing compare _) as [[|]|]; try discriminate;
      [now intros [= <-]|].
    destruct (eachProp_nested compareUpdate base compare _ k v diff
                Hin Ht Hrec Hk) as [->|[e ->]];
      [now intros [= <-] | discriminate].
  - right. now rewrite (compareUpdate_throw _ _ _ E).
Qed.

(** * The claims *)

(** C1.  The claim: any difference under a top-level key of the remote
    document puts the whole remote value of that key in the delta.  The code
    at the local document [{a: {x: 1}}] and the remote document [{a: {}}]:
    the two values of [a] differ, the nested call returns the empty remote
    object as its sign of a difference (line 764), the caller finds no
    property in it (lines 775-776) and the delta is empty. *)
Theorem emptied_setting_is_not_in_the_delta :
  let localSettings := [("a", Obj [("x", Num 1)])] in
  let remoteSettings := [("a", Obj [])] in
  wfDoc localSettings = true /\ wfDoc remoteSettings = true /\
  lookup "a" localSettings <> lookup "a" remoteSettings /\
  compareUpdate (Obj [("x", Num 1)]) (Obj []) = Ok (Obj []) /\
  remoteLoop localSettings remoteSettings [] false = Ok ([], false) /\
  fetchSettings true [] (sampleWorld localSettings remoteSettings)
  = (Ok tt,
     setTrace
       [ChannelClear;
        ReadFile "/remote/settings.json";
        ReadFile "/home/.config/Code/User/settings.json";
        ShowInformationMessage "Settings are up to date" [];
        ChannelAppendLine "No updated settings found."]
       (sampleWorld localSettings remoteSettings)).
Proof. repeat split; discriminate. Qed.

(** C2, as the claim states it, fails.  An array is not a leaf: [typeof] of
    an array is ['object'] (line 771), so that it is compared by its
    contents, and an array of the remote document that is another object
    than the array of the local document ([!==]) with the same contents is
    not reported.  A [null] is compared in the same way, and a [null] that
    differs from a number of the base is not reported either. *)
Lemma arrays_and_null_are_compared_inside :
  ~ (forall (base compare : value) (k : string) (v : value),
       In (k, v) (forIn compare) ->
       isScalar v = true \/ v = Null \/ (exists vs, v = Arr vs) ->
       strictEq (get base k) v = false ->
       compareUpdate base compare = Ok compare)
  /\ (let base := Obj [("rulers", Arr [Num 80; Num 120])] in
      let compare := Obj [("rulers", Arr [Num 80; Num 120])] in
      strictEq (get base "rulers") (get compare "rulers") = false
      /\ compareUpdate base compare = Ok (Obj []))
  /\ (let base := Obj [("a", Num 5)] in
      let compare := Obj [("a", Null)] in
      strictEq (get base "a") (get compare "a") = false
      /\ compareUpdate base compare = Ok (Obj [])).
Proof.
  split; [|repeat split].
  intros H.
  specialize (H (Obj [("rulers", Arr [Num 80; Num 120])])
                (Obj [("rulers", Arr [Num 80; Num 120])])
                "rulers" (Arr [Num 80; Num 120])).
  discriminate H;
    [now left | right; right; now eexists | reflexivity].
Qed.

(** C2, amended.  A string, number or boolean of [compare] that is strictly
    unequal to the value of [base] makes the comparison at that level return
    the whole of [compare], unless the comparison of an earlier property
    throws a [TypeError]; it does return the whole of [compare] for values
    without [null].  Arrays are not leaves: they are compared element by
    element.  An array of strings, numbers and booleans compared with an
    array of the same elements gives no difference; compared with an array
    that differs in an element or in length it is returned whole, and, when
    it is not empty, it makes the level that holds it return the whole of
    [compare] in the same way as a scalar does. *)
Theorem scalar_difference_returns_compare :
  (forall (base compare : value) (k : string) (v : value),
     In (k, v) (forIn compare) ->
     isScalar v = true ->
     strictEq (get base k) v = false ->
     (compareUpdate base compare = Ok compare
      \/ compareUpdate base compare = Throw TypeError)
     /\ (nullFree base = true -> nullFree compare = true ->
         base <> Undefined -> plain base = true -> plain compare = true ->
         compareUpdate base compare = Ok compare))
  /\ (forall xs ys : list value,
        forallb isScalar xs = true -> forallb isScalar ys = true ->
        (xs = ys -> compareUpdate (Arr xs) (Arr ys) = Ok (Obj []))
        /\ (xs <> ys -> compareUpdate (Arr xs) (Arr ys) = Ok (Arr ys)))
  /\ (forall xs ys : list value,
        List.length xs <> List.length ys ->
        compareUpdate (Arr xs) (Arr ys) = Ok (Arr ys))
  /\ (forall (base compare : value) (k : string) (xs ys : list value),
        In (k, Arr ys) (forIn compare) ->
        get base k = Arr xs ->
        forallb isScalar xs = true -> forallb isScalar ys = true ->
        xs <> ys -> ys <> [] ->
        (compareUpdate base compare = Ok compare
         \/ compareUpdate base compare = Throw TypeError)
        /\ (nullFree base = true -> nullFree compare = true ->
            base <> Undefined -> plain base = true -> plain compare = true ->
            compareUpdate base compare = Ok compare)).
Proof.
  assert (Htotal : forall base compare k v,
            In (k, v) (forIn compare) ->
            compareUpdate base compare = Ok compare
            \/ compareUpdate base compare = Throw TypeError ->
            nullFree base = true -> nullFree compare = true ->
            base <> Undefined ->
            compareUpdate base compare = Ok compare).
  { intros base compare k v Hin H Hb Hc Hd.
    destruct (compareUpdate_total compare base Hc) as [r Hr]; try assumption.
    - intros ->. destruct Hin.
    - destruct H as [H|H]; [exact H | congruence]. }
  split; [|split; [|split]].
  - intros base compare k v Hin Hs Hne.
    pose proof (compareUpdate_scalar base compare k v Hin Hs Hne) as H.
    split; [exact H|]. intros Hb Hc Hd _ _. now apply (Htotal _ _ k v).
  - intros xs ys Hx Hy. split.
    + intros <-. apply compareUpdate_same. now apply scalars_wf.
    + now apply compareUpdate_scalar_arrays.
  - apply compareUpdate_lengths.
  - intros base compare k xs ys Hin Hget Hx Hy Hne Hnil.
    assert (H : compareUpdate base compare = Ok compare
                \/ compareUpdate base compare = Throw TypeError).
    { apply (compareUpdate_nested base compare k (Arr ys) (Arr ys));
        try assumption; [reflexivity | | now destruct ys].
      rewrite Hget. now apply compareUpdate_scalar_arrays. }
    split; [exact H|]. intros Hb Hc Hd _ _.
    now apply (Htotal _ _ k (Arr ys)).
Qed.

Lemma scalar_difference_returns_compare_witness :
  compareUpdate (Obj [("theme", Str "light"); ("font", Num 12)])
    (Obj [("theme", Str "dark"); ("font", Num 12)])
  = Ok (Obj [("theme", Str "dark"); ("font", Num 12)])
  /\ compareUpdate (Arr [Num 80; Num 120]) (Arr [Num 80; Num 100])
     = Ok (Arr [Num 80; Num 100])
  /\ compareUpdate (Obj [("theme", Str "dark"); ("rulers", Arr [Num 80])])
       (Obj [("theme", Str "dark"); ("rulers", Arr [Num 80; Num 100])])
     = Ok (Obj [("theme", Str "dark"); ("rulers", Arr [Num 80; Num 100])]).
Proof.
  destruct scalar_difference_returns_compare as [H1 [H2 [_ H4]]].
  split; [|split].
  - apply (proj2 (H1 (Obj [("theme", Str "light"); ("font", Num 12)])
                    (Obj [("theme", Str "dark"); ("font", Num 12)])
                    "theme" (Str "dark")
                    (or_introl eq_refl) eq_refl eq_refl));
      [reflexivity | reflexivity | discriminate | reflexivity | reflexivity].
  - apply (proj2 (H2 [Num 80; Num 120] [Num 80; Num 100] eq_refl eq_refl)).
    discriminate.
  - apply (proj2 (H4 (Obj [("theme", Str "dark"); ("rulers", Arr [Num 80])])
                    (Obj [("theme", Str "dark");
                          ("rulers", Arr [Num 80; Num 100])])
                    "rulers" [Num 80] [Num 80; Num 100]
                    (or_intror (or_introl eq_refl)) eq_refl eq_refl eq_refl
                    ltac:(discriminate) ltac:(discriminate)));
      [reflexivity | reflexivity | discriminate | reflexivity | reflexivity].
Defined.

(** C3.  A document compared with itself gives the empty object, at every
    level of nesting, and the delta of a settings document against itself is
    empty.  The document is one that [JSON.parse] returns ([wf]), with the
    keys of which the embedding of an object is exact ([plain]). *)
Theorem diff_of_identical_documents_is_empty (x : value) :
  wf x = true ->
  plain x = true ->
  compareUpdate x x = Ok (Obj [])
  /\ (forall doc, x = Obj doc -> remoteLoop doc doc [] false = Ok ([], false)).
Proof.
  intros Hwf _. split; [now apply compareUpdate_same|].
  intros doc ->. apply remoteLoop_unchanged. intros kv Hin.
  now apply changed_same.
Qed.

Lemma diff_of_identical_documents_is_empty_witness :
  compareUpdate
    (Obj [("theme", Str "dark"); ("rulers", Arr [Num 80; Num 120]);
          ("files", Obj [("eol", Null); ("trim", Bool true)])])
    (Obj [("theme", Str "dark"); ("rulers", Arr [Num 80; Num 120]);
          ("files", Obj [("eol", Null); ("trim", Bool true)])])
  = Ok (Obj []).
Proof.
  apply (proj1 (diff_of_identical_documents_is_empty
           (Obj [("theme", Str "dark"); ("rulers", Arr [Num 80; Num 120]);
                 ("files", Obj [("eol", Null); ("trim", Bool true)])])
           eq_refl eq_refl)).
Defined.

(** C4.  The claim: for all documents the delta, once applied, leaves
    nothing to apply.  The code at the local document [{a: {x: 1}}] and the
    remote document [{a: null}]: the nested call reads a property of [null]
    (line 761) and the comparison ends with a [TypeError], so that there is
    no delta to apply, at this run and at any later one. *)
Theorem null_against_object_throws :
  let localSettings := [("a", Obj [("x", Num 1)])] in
  let remoteSettings := [("a", Null)] in
  wfDoc localSettings = true /\ wfDoc remoteSettings = true /\
  compareUpdate (Obj [("x", Num 1)]) Null = Throw TypeError /\
  remoteLoop localSettings remoteSettings [] false = Throw TypeError /\
  fetchSettings true [] (sampleWorld localSettings remoteSettings)
  = (Ok tt,
     setTrace
       [ChannelClear;
        ReadFile "/remote/settings.json";
        ReadFile "/home/.config/Code/User/settings.json";
        ShowErrorMessage "Failed to fetch settings."]
       (sampleWorld localSettings remoteSettings)).
Proof. repeat split. Qed.

(** C5.  [compareDefaultSettings] reads the file of defaults and the local
    file, and the delta that it logs and assigns to the local file holds the
    settings of the defaults whose key the local document does not own, and
    no other: a key of both documents is never in it, whatever the two
    values are.  The two documents are those that [readSettingsFile]
    returns, without the settings of this extension.  With an empty delta
    the method returns [false] and writes nothing. *)
Theorem defaults_delta_fills_gaps_only (w : world)
    (remote filename : string) (defaultsDoc localDoc : props) :
  _remoteDefaultSettingsFilename w = Some filename -> filename <> "" ->
  _remoteSettingsPath w = Some remote ->
  assoc (join remote filename) (settingsFiles w) = Some (Parsed defaultsDoc) ->
  assoc (localSettingsFile w) (settingsFiles w) = Some (Parsed localDoc) ->
  wfDoc defaultsDoc = true ->
  plainDoc defaultsDoc = true -> plainDoc localDoc = true ->
  let defaultSettings := filterSettings defaultsDoc in
  let localSettings := filterSettings localDoc in
  let delta :=
    filter (fun kv => negb (hasOwnProperty localSettings (fst kv)))
      defaultSettings in
  let w' := snd (compareDefaultSettings w) in
  (forall k v,
     In (k, v) delta
     <-> In (k, v) defaultSettings /\ ~ In k (keys localSettings))
  /\ (forall k v,
        In (k, v) delta
        <-> In (k, v) defaultsDoc
            /\ String.prefix "fetchUserEnv" k = false
            /\ lookup k localDoc = None)
  /\ (delta <> [] ->
      fst (compareDefaultSettings w) = Ok true
      /\ trace w'
         = (trace w
            ++ [ReadFile (join remote filename);
                ReadFile (localSettingsFile w);
                ChannelShow;
                ChannelAppendLine "Adding default config parameters";
                ChannelAppendJson delta;
                ReadFile (localSettingsFile w);
                WriteFile (localSettingsFile w) (assign localDoc delta)])%list
      /\ assoc (localSettingsFile w) (settingsFiles w')
         = Some (Parsed (assign localDoc delta)))
  /\ (delta = [] ->
      compareDefaultSettings w
      = (Ok false,
         setTrace
           (trace w
            ++ [ReadFile (join remote filename);
                ReadFile (localSettingsFile w)])
           w)).
Proof.
  intros Hf Hne Hr Hdefaults Hlocal Hwf _ _. cbn zeta.
  assert (Hd : distinct (keys (filter
                 (fun kv => negb (hasOwnProperty (filterSettings localDoc)
                                    (fst kv)))
                 (filterSettings defaultsDoc))) = true).
  { apply distinct_filter. rewrite filterSettings_spec.
    apply distinct_filter. unfold wfDoc in Hwf. simpl in Hwf.
    now apply andb_prop in Hwf as [Hwf _]. }
  assert (Hown : forall k,
            hasOwnProperty (filterSettings localDoc) k = false
            <-> ~ In k (keys (filterSettings localDoc))).
  { intros k. rewrite <- hasOwnProperty_keys.
    destruct (hasOwnProperty (filterSettings localDoc) k);
      split; congruence. }
  assert (Hin : forall k v,
            In (k, v)
              (filter (fun kv => negb (hasOwnProperty
                                         (filterSettings localDoc) (fst kv)))
                 (filterSettings defaultsDoc))
            <-> In (k, v) (filterSettings defaultsDoc)
                /\ ~ In k (keys (filterSettings localDoc))).
  { intros k v. rewrite filter_In. cbn [fst].
    now rewrite negb_true_iff, Hown. }
  pose proof (defaultsLoop_spec (filterSettings localDoc)
                (filterSettings defaultsDoc) [] false) as Hloop.
  rewrite (assign_empty _ Hd) in Hloop. cbn [orb] in Hloop.
  assert (Hrun :
    compareDefaultSettings w
    = let delta :=
        filter (fun kv => negb (hasOwnProperty (filterSettings localDoc)
                                  (fst kv)))
          (filterSettings defaultsDoc) in
      if existsb (fun kv => negb (hasOwnProperty (filterSettings localDoc)
                                     (fst kv)))
           (filterSettings defaultsDoc)
      then
        (Ok true,
         setTrace
           (trace w
            ++ [ReadFile (join remote filename);
                ReadFile (localSettingsFile w);
                ChannelShow;
                ChannelAppendLine "Adding default config parameters";
                ChannelAppendJson delta;
                ReadFile (localSettingsFile w);
                WriteFile (localSettingsFile w) (assign localDoc delta)])
           (setSettingsFiles
              (setAssoc (localSettingsFile w)
                 (Parsed (assign localDoc delta)) (settingsFiles w))
              w))
      else
        (Ok false,
         setTrace
           (trace w
            ++ [ReadFile (join remote filename);
                ReadFile (localSettingsFile w)])
           w)).
  { unfold localSettingsFile in *. cbn zeta.
    unfold compareDefaultSettings. run_all. rewrite Hf. run_all.
    apply String.eqb_neq in Hne. rewrite Hne. run_all.
    rewrite Hr. run_all. rewrite Hdefaults. run_all.
    rewrite Hlocal. run_all. rewrite Hloop.
    destruct (existsb _ (filterSettings defaultsDoc)).
    - unfold updateSettings, writeSettings, existsSync. run_all.
      rewrite Hlocal. run_all. rewrite Hlocal. run_all.
      same_world.
    - run_all. same_world. }
  cbn zeta in Hrun.
  assert (Hex : existsb (fun kv => negb (hasOwnProperty
                                           (filterSettings localDoc) (fst kv)))
                  (filterSettings defaultsDoc) = true
                <-> filter (fun kv => negb (hasOwnProperty
                                              (filterSettings localDoc)
                                              (fst kv)))
                      (filterSettings defaultsDoc) <> []).
  { split.
    - intros H E. apply existsb_exists in H as [kv [H1 H2]].
      assert (Hf' : In kv (filter (fun kv => negb (hasOwnProperty
                                     (filterSettings localDoc) (fst kv)))
                             (filterSettings defaultsDoc)))
        by (apply filter_In; now split).
      rewrite E in Hf'. destruct Hf'.
    - intros H.
      destruct (filter _ (filterSettings defaultsDoc)) as [|kv l] eqn:E;
        [contradiction|].
      assert (Hf' : In kv (filter (fun kv => negb (hasOwnProperty
                                     (filterSettings localDoc) (fst kv)))
                             (filterSettings defaultsDoc)))
        by (rewrite E; now left).
      apply filter_In in Hf' as [H1 H2]. apply existsb_exists. now exists kv. }
  split; [exact Hin|]. split; [|split].
  - intros k v. rewrite Hin. rewrite <- Hown.
    unfold hasOwnProperty. rewrite lookup_filterSettings.
    rewrite filterSettings_spec, filter_In. cbn [fst].
    rewrite negb_true_iff. split.
    + intros [[H1 H2] H3]. rewrite H2 in H3.
      repeat split; try assumption. now destruct (lookup k localDoc).
    + intros [H1 [H2 H3]]. rewrite H2, H3. now repeat split.
  - intros Hne'. apply Hex in Hne'. rewrite Hrun, Hne'. cbn [fst snd].
    split; [reflexivity|]. split; [reflexivity|].
    cbn [settingsFiles setTrace setSettingsFiles]. apply assoc_setAssoc_same.
  - intros E. rewrite Hrun.
    assert (Hno : existsb (fun kv => negb (hasOwnProperty
                                             (filterSettings localDoc)
                                             (fst kv)))
                    (filterSettings defaultsDoc) = false).
    { apply not_true_iff_false. intros H. apply Hex in H. contradiction. }
    now rewrite Hno.
Qed.

Lemma defaults_delta_fills_gaps_only_witness :
  (let w := defaultsSampleWorld [("a", Num 1); ("b", Num 2)] [("a", Num 1)] in
   fst (compareDefaultSettings w) = Ok true
   /\ localSetting (snd (compareDefaultSettings w)) "b" = Some (Num 2))
  /\ (let w := defaultsSampleWorld [("a", Num 1)] [("a", Num 2)] in
      fst (compareDefaultSettings w) = Ok false
      /\ localSetting (snd (compareDefaultSettings w)) "a" = Some (Num 2)).
Proof.
  cbv zeta. split.
  - pose proof (defaults_delta_fills_gaps_only
                  (defaultsSampleWorld [("a", Num 1); ("b", Num 2)]
                     [("a", Num 1)])
                  "/remote" "defaults.json"
                  [("a", Num 1); ("b", Num 2)] [("a", Num 1)]
                  eq_refl ltac:(discriminate) eq_refl eq_refl eq_refl
                  eq_refl eq_refl eq_refl) as H.
    cbv zeta in H. destruct H as [_ [_ [H _]]].
    destruct (H ltac:(discriminate)) as [H1 [_ H3]]. split; [exact H1|].
    unfold localSetting.
    change (localSettingsFile
              (snd (compareDefaultSettings
                      (defaultsSampleWorld [("a", Num 1); ("b", Num 2)]
                         [("a", Num 1)]))))
      with (localSettingsFile
              (defaultsSampleWorld [("a", Num 1); ("b", Num 2)]
                 [("a", Num 1)])).
    rewrite H3. reflexivity.
  - pose proof (defaults_delta_fills_gaps_only
                  (defaultsSampleWorld [("a", Num 1)] [("a", Num 2)])
                  "/remote" "defaults.json"
                  [("a", Num 1)] [("a", Num 2)]
                  eq_refl ltac:(discriminate) eq_refl eq_refl eq_refl
                  eq_refl eq_refl eq_refl) as H.
    cbv zeta in H. destruct H as [_ [_ [_ H]]].
    rewrite (H eq_refl). split; reflexivity.
Defined.

(** C6, as the claim states it, fails: a package file that does not parse
    ends the update with the error of that file, and a folder listed after
    it is not copied, although it has a package file and its extension is
    not installed. *)
Lemma broken_package_stops_the_copies :
  let w := badPackageWorld in
  let last :=
    {| folderName := "last"; isDirectory := true;
       packageFile :=
         PackageJson {| publisher := "pub"; name := "last";
                        version := "1.0.0" |} |} in
  (exists entries,
     assoc "/remote/ext" (directories w) = Some entries /\ In last entries)
  /\ assoc "pub.last" (_localExtVersions w) = None
  /\ installNewExtensions (fun _ _ => 0%Z) w
     = (Throw (JSONError "Unexpected end of JSON input"
                 "/remote/ext/broken/package.json"),
        setTrace
          [ReadDir "/remote/ext";
           ChannelShow;
           ChannelAppendLine
             ("Updating extension " ++ quote ++ "pub.first" ++ quote
                ++ " to version 1.0.0");
           Copy "/remote/ext/first" "/home/.vscode/extensions/pub.first-1.0.0"]
          w)
  /\ ~ In (Copy "/remote/ext/last" "/home/.vscode/extensions/pub.last-1.0.0")
         (trace (snd (installNewExtensions (fun _ _ => 0%Z) w))).
Proof.
  cbv zeta. split; [|split; [|split]].
  - eexists. split; [reflexivity|]. right. right. now left.
  - reflexivity.
  - reflexivity.
  - intros H. cbn in H.
    destruct H as [H|[H|[H|[H|[]]]]]; discriminate H.
Qed.

(** C6, amended.  With package files that parse, [installNewExtensions]
    copies a folder of the remote path exactly when the folder has a package
    file and the extension of its id is not installed, or is installed in a
    version that compares less than the version of the package; the copies
    are made in the order of the folders, and the result tells whether there
    is one.  A package file that does not parse ends the update with the
    [JSONError] of that file: the copies are then those of the folders
    listed before it, and no other. *)
Theorem newer_or_missing_extensions_are_copied
    (compareVer : string -> string -> Z) (w : world) (remote : string)
    (entries : list folder) :
  _remoteExtensionPath w = Some remote ->
  assoc remote (directories w) = Some entries ->
  let installed := _localExtVersions w in
  let w' := snd (installNewExtensions compareVer w) in
  let wanted (m : manifest) :=
    assoc (publisher m ++ "." ++ name m) installed = None
    \/ exists installedVersion,
         assoc (publisher m ++ "." ++ name m) installed
         = Some installedVersion
         /\ (compareVer installedVersion (version m) < 0)%Z in
  ((forall f message, In f entries -> isDirectory f = true ->
                      packageFile f <> PackageInvalid message) ->
   fst (installNewExtensions compareVer w)
   = Ok (existsb (isWanted compareVer installed) (filter isDirectory entries))
   /\ trace w'
      = (trace w
         ++ ReadDir remote
            :: flat_map (installEvents remote (_localExtensionPath w))
                 (filter (isWanted compareVer installed)
                    (filter isDirectory entries)))%list
   /\ (forall src dst,
         In (Copy src dst) (trace w') <->
         In (Copy src dst) (trace w)
         \/ exists f m,
              In f entries /\ isDirectory f = true
              /\ packageFile f = PackageJson m
              /\ wanted m
              /\ src = join remote (folderName f)
              /\ dst = join (_localExtensionPath w)
                         ((publisher m ++ "." ++ name m) ++ "-" ++ version m)))
  /\ (forall (before after : list folder) (bad : folder) (message : string),
        filter isDirectory entries = (before ++ bad :: after)%list ->
        (forall f m, In f before -> packageFile f <> PackageInvalid m) ->
        packageFile bad = PackageInvalid message ->
        fst (installNewExtensions compareVer w)
        = Throw (JSONError message
                   (join (join remote (folderName bad)) "package.json"))
        /\ (forall src dst,
              In (Copy src dst) (trace w') <->
              In (Copy src dst) (trace w)
              \/ exists f m,
                   In f before
                   /\ packageFile f = PackageJson m
                   /\ wanted m
                   /\ src = join remote (folderName f)
                   /\ dst = join (_localExtensionPath w)
                              ((publisher m ++ "." ++ name m) ++ "-"
                                 ++ version m))).
Proof.
  intros Hp Hd installed w' wanted. subst installed w' wanted.
  assert (Hcopies : forall (l : list folder) src dst,
    In (Copy src dst)
      (trace w
       ++ ReadDir remote
          :: flat_map (installEvents remote (_localExtensionPath w))
               (filter (isWanted compareVer (_localExtVersions w)) l))%list
    <-> In (Copy src dst) (trace w)
        \/ exists f m,
             In f l /\ packageFile f = PackageJson m
             /\ (assoc (publisher m ++ "." ++ name m) (_localExtVersions w)
                 = None
                 \/ exists installedVersion,
                      assoc (publisher m ++ "." ++ name m)
                        (_localExtVersions w)
                      = Some installedVersion
                      /\ (compareVer installedVersion (version m) < 0)%Z)
             /\ src = join remote (folderName f)
             /\ dst = join (_localExtensionPath w)
                        ((publisher m ++ "." ++ name m) ++ "-" ++ version m)).
  { intros l src dst. rewrite in_app_iff. cbn [In]. rewrite in_flat_map. split.
    - intros [H|[H|[f [Hf Hin]]]]; [now left | discriminate H |].
      right. apply filter_In in Hf as [Hf Hw].
      apply isWanted_spec in Hw as [m [Ep Hcond]].
      unfold installEvents in Hin. rewrite Ep in Hin.
      destruct Hin as [H|[H|[H|[]]]]; try discriminate H.
      injection H as <- <-. exists f, m. repeat split; assumption.
    - intros [H|[f [m [Hf [Ep [Hcond [-> ->]]]]]]]; [now left|].
      right. right. exists f. split.
      + apply filter_In. split; [assumption|].
        apply isWanted_spec. now exists m.
      + unfold installEvents. rewrite Ep. right. right. now left. }
  split.
  - intros Hvalid.
    rewrite (installNewExtensions_run compareVer w remote entries Hp Hd Hvalid).
    cbn [fst snd trace setTrace]. split; [reflexivity|]. split; [reflexivity|].
    intros src dst. rewrite Hcopies. split.
    + intros [H|[f [m [Hf H]]]]; [now left|]. right.
      apply filter_In in Hf as [Hf Hdir]. exists f, m. now repeat split.
    + intros [H|[f [m [Hf [Hdir H]]]]]; [now left|]. right.
      exists f, m. split; [now apply filter_In | assumption].
  - intros before after bad message Hsplit Hvalid Hbad.
    assert (Hrun : installNewExtensions compareVer w
              = (Throw (JSONError message
                          (join (join remote (folderName bad)) "package.json")),
                 setTrace
                   (trace w
                    ++ ReadDir remote
                       :: flat_map
                            (installEvents remote (_localExtensionPath w))
                            (filter (isWanted compareVer (_localExtVersions w))
                               before))
                   w)).
    { unfold installNewExtensions.
      rewrite (bind_run getWorld _ w w w eq_refl). rewrite Hp.
      erewrite (bind_run (emit _)) by reflexivity. rewrite Hd, Hsplit.
      rewrite installLoop_prefix by assumption.
      cbn [installLoop]. unfold bind at 1. unfold getWorld at 1.
      cbn iota beta. unfold candidate. rewrite Hbad. cbn [liftResult].
      unfold bind, throw.
      cbn [_localExtVersions _localExtensionPath setTrace trace orb].
      rewrite <- app_assoc. reflexivity. }
    rewrite Hrun. cbn [fst snd trace setTrace]. split; [reflexivity|].
    intros src dst. apply Hcopies.
Qed.

Lemma newer_or_missing_extensions_are_copied_witness :
  filter isCopy (trace (snd (installNewExtensions differsAsNewer extensionsWorld)))
  = [Copy "/remote/ext/old" "/home/.vscode/extensions/pub.old-1.1.0";
     Copy "/remote/ext/fresh" "/home/.vscode/extensions/pub.fresh-0.9.0"].
Proof.
  pose proof (newer_or_missing_extensions_are_copied differsAsNewer
                extensionsWorld "/remote/ext"
                (match directories extensionsWorld with
                 | (_, entries) :: _ => entries
                 | [] => []
                 end)
                eq_refl eq_refl) as H.
  cbv zeta in H. destruct H as [H _]. destruct H as [_ [H _]].
  - intros f message Hin _ E. cbn in Hin.
    destruct Hin as [<-|[<-|[<-|[<-|[]]]]]; discriminate E.
  - rewrite H. reflexivity.
Defined.

(** C7.  [updateSettings] writes the local document with the new settings
    assigned to it: a setting whose key is not among the new settings keeps
    its value, no key of the local document is deleted, and the new settings
    are in the document that is written. *)
Theorem update_only_adds_or_replaces
    (newSettings doc : props) (w : world) :
  assoc (localSettingsFile w) (settingsFiles w) = Some (Parsed doc) ->
  let w' := snd (updateSettings newSettings w) in
  fst (updateSettings newSettings w) = Ok tt
  /\ assoc (localSettingsFile w') (settingsFiles w')
     = Some (Parsed (assign doc newSettings))
  /\ (forall k, ~ In k (keys newSettings) ->
         localSetting w' k = localSetting w k)
  /\ (forall k, In k (keys doc) -> In k (keys (assign doc newSettings)))
  /\ (forall k v, distinct (keys newSettings) = true ->
         In (k, v) newSettings -> localSetting w' k = Some v).
Proof.
  intros E w'.
  destruct (updateSettings_run newSettings w) as [Hp [_ [_ [_ H]]]].
  rewrite E in H. destruct H as [Hok Hfile].
  assert (Hfile' : assoc (localSettingsFile w') (settingsFiles w')
                   = Some (Parsed (assign doc newSettings))).
  { unfold localSettingsFile in *. subst w'. now rewrite Hp. }
  repeat split.
  - exact Hok.
  - exact Hfile'.
  - intros k Hk. now apply updateSettings_frame.
  - intros k Hk. now apply keys_assign.
  - intros k v Hd Hin. unfold localSetting. rewrite Hfile'.
    now apply lookup_assign_in.
Qed.

Lemma update_only_adds_or_replaces_witness :
  localSetting
    (snd (updateSettings [("theme", Str "dark")]
            (sampleWorld [("theme", Str "light"); ("font", Num 12)] [])))
    "font"
  = Some (Num 12).
Proof.
  pose proof (update_only_adds_or_replaces [("theme", Str "dark")]
                [("theme", Str "light"); ("font", Num 12)]
                (sampleWorld [("theme", Str "light"); ("font", Num 12)] [])
                eq_refl) as H.
  cbv zeta in H. destruct H as [_ [_ [H _]]].
  rewrite (H "font"); [reflexivity|].
  simpl. intros [E|[]]. discriminate E.
Defined.

(** C8, as the claim states it, fails: with a file of defaults that does not
    parse, [compareSettings] ends with the error of the defaults, the remote
    settings file is not read and the local file stays as it was, although
    the remote comparison alone would have found an update. *)
Lemma failed_defaults_end_the_comparison :
  let w := failingDefaultsWorld in
  fst (compareDefaultSettings w)
  = Throw (JSONError "Unexpected token" "/remote/defaults.json")
  /\ fst (compareRemoteSettings w) = Ok true
  /\ fst (compareSettings w)
     = Throw (JSONError "Unexpected token" "/remote/defaults.json")
  /\ ~ In (ReadFile "/remote/settings.json") (trace (snd (compareSettings w)))
  /\ settingsFiles (snd (compareSettings w)) = settingsFiles w
  /\ trace (snd (fetchSettings false [] w))
     = [ReadFile "/remote/defaults.json";
        ShowErrorMessage
          (errorDetected "configuration file" "/remote/defaults.json"
             "Unexpected token")].
Proof.
  cbv zeta. repeat split; try reflexivity.
  intros [H|[]]. discriminate H.
Qed.

(** C8, amended.  When the merge of the defaults throws, [compareSettings]
    throws the same error in the same state and the comparison with the
    remote settings is not attempted.  With a file of defaults that does not
    parse, [fetchSettings] reads that file and no other, writes nothing,
    shows the message of the error and returns. *)
Theorem failed_defaults_are_rethrown
    (prompt : bool) (answers : list choice) (w : world)
    (remote filename message : string) :
  _remoteSettingsPath w = Some remote -> remote <> "" ->
  existsSync w (join remote "settings.json") = true ->
  _remoteDefaultSettingsFilename w = Some filename -> filename <> "" ->
  assoc (join remote filename) (settingsFiles w) = Some (Invalid message) ->
  let defaultsFile := join remote filename in
  let e := JSONError message defaultsFile in
  compareDefaultSettings w
  = (Throw e, setTrace (trace w ++ [ReadFile defaultsFile]) w)
  /\ compareSettings w
     = (Throw e, setTrace (trace w ++ [ReadFile defaultsFile]) w)
  /\ fetchSettings prompt answers w
     = (Ok tt,
        setTrace
          (trace w
           ++ (if prompt then [ChannelClear] else [])
           ++ [ReadFile defaultsFile;
               ShowErrorMessage
                 (errorDetected "configuration file" defaultsFile message)])
          w)
  /\ (forall (w0 : world) (e0 : error),
        fst (compareDefaultSettings w0) = Throw e0 ->
        compareSettings w0 = (Throw e0, snd (compareDefaultSettings w0))).
Proof.
  intros Hp Hne He Hf Hfne Hd. cbn zeta.
  assert (Hdefaults : forall t,
            compareDefaultSettings (setTrace t w)
            = (Throw (JSONError message (join remote filename)),
               setTrace (t ++ [ReadFile (join remote filename)]) w)).
  { intros t. unfold compareDefaultSettings. run_all. rewrite Hf. run_all.
    apply String.eqb_neq in Hfne. rewrite Hfne. run_all. rewrite Hp. run_all.
    now rewrite Hd. }
  assert (Hcompare : forall t,
            compareSettings (setTrace t w)
            = (Throw (JSONError message (join remote filename)),
               setTrace (t ++ [ReadFile (join remote filename)]) w)).
  { intros t. unfold compareSettings, bind. now rewrite Hdefaults. }
  assert (Hsame : setTrace (trace w) w = w) by now destruct w.
  assert (Hexists : existsSync w (join remote filename) = true).
  { unfold existsSync. now rewrite Hd. }
  split; [|split; [|split]].
  - rewrite <- Hsame at 1. apply Hdefaults.
  - rewrite <- Hsame at 1. apply Hcompare.
  - assert (Hfetch : forall t,
      bind (confirmSettingsPath prompt answers false)
        (fun confirmed =>
           if negb (fst confirmed) then ret tt
           else
             bind (confirmDefaultSettings (snd confirmed))
               (fun proceed =>
                  if negb proceed then ret tt
                  else
                    tryCatch
                      (bind compareSettings
                         (fun updated : bool =>
                            if updated then
                              emit (ShowInformationMessage
                                      "Settings updated, please restart Visual Studio Code or reload window"
                                      ["Reload"])
                            else
                              bind (if prompt
                                    then emit (ShowInformationMessage
                                                 "Settings are up to date" [])
                                    else ret tt)
                                (fun _ =>
                                   emit (ChannelAppendLine
                                           "No updated settings found."))))
                      (fun err =>
                         match err with
                         | JSONError message filename =>
                             emit (ShowErrorMessage
                                     (errorDetected "configuration file"
                                        filename message))
                         | _ => emit (ShowErrorMessage
                                        "Failed to fetch settings.")
                         end)))
        (setTrace t w)
      = (Ok tt,
         setTrace
           (t ++ [ReadFile (join remote filename);
                  ShowErrorMessage
                    (errorDetected "configuration file"
                       (join remote filename) message)])
           w)).
    { intros t.
      rewrite (bind_run _ _ _ _ _
                 (confirmSettingsPath_valid prompt answers (setTrace t w)
                    remote Hp Hne He)).
      cbn [fst snd negb].
      rewrite (bind_run _ _ _ _ _
                 (confirmDefaultSettings_valid answers (setTrace t w)
                    remote filename Hf Hp Hexists)).
      cbn [negb]. unfold tryCatch, bind at 1. rewrite Hcompare.
      unfold emit, modify. cbn [trace setTrace]. same_world. }
    unfold fetchSettings. destruct prompt.
    + erewrite (bind_run (emit _)) by reflexivity.
      rewrite Hfetch. now rewrite <- app_assoc.
    + rewrite (bind_run (ret tt) _ w w tt eq_refl).
      rewrite <- Hsame at 1. apply Hfetch.
  - intros w0 e0 H. unfold compareSettings, bind.
    destruct (compareDefaultSettings w0) as [[d|e'] w1]; cbn [fst snd] in *;
      [discriminate H|].
    now injection H as ->.
Qed.

Lemma failed_defaults_are_rethrown_witness :
  fetchSettings true [] failingDefaultsWorld
  = (Ok tt,
     setTrace
       [ChannelClear;
        ReadFile "/remote/defaults.json";
        ShowErrorMessage
          (errorDetected "configuration file" "/remote/defaults.json"
             "Unexpected token")]
       failingDefaultsWorld).
Proof.
  apply (proj1 (proj2 (proj2
           (failed_defaults_are_rethrown true [] failingDefaultsWorld
              "/remote" "defaults.json" "Unexpected token"
              eq_refl ltac:(discriminate) eq_refl eq_refl
              ltac:(discriminate) eq_refl)))).
Defined.

(** C9, as the claim states it, fails: with a configured path that does not
    exist, an automatic run shows the error dialog with its choices, and
    asks for the path once [Reenter Path] is chosen. *)
Lemma invalid_path_is_reported_at_startup :
  trace (snd (fetchExtensions (fun _ _ => 0%Z) false [] invalidPathWorld))
  = [ShowErrorChoice "Cannot access extensions at specified remote path."
       pathOptions]
  /\ trace (snd (fetchSettings false [] invalidPathWorld))
     = [ShowErrorChoice "Cannot access settings at specified remote path."
          pathOptions]
  /\ trace (snd (fetchExtensions (fun _ _ => 0%Z) false [Reenter]
                   invalidPathWorld))
     = [ShowErrorChoice "Cannot access extensions at specified remote path."
          pathOptions;
        ShowInputBox "Please enter path for remote extensions" "/gone/ext";
        ShowWarningMessage
          "Path for remote extensions not specified, operation cancelled."].
Proof. repeat split. Qed.

(** C9, amended.  In an automatic run, a path that is not configured ends
    the operation at once, with no call to the host and no change.  A
    configured path that does not exist is reported, in an automatic run as
    in a run of the command, by the error dialog with its choices, and the
    answer [Reenter Path] then opens the input box with that path. *)
Theorem automatic_run_without_path_is_silent
    (compareVer : string -> string -> Z) (answers : list choice) (w : world) :
  (truthy (_remoteExtensionPath w) = false ->
   fetchExtensions compareVer false answers w = (Ok tt, w))
  /\ (truthy (_remoteSettingsPath w) = false ->
      fetchSettings false answers w = (Ok tt, w))
  /\ (forall prompt : bool,
        truthy (_remoteExtensionPath w) = true ->
        existsField w (_remoteExtensionPath w) = false ->
        exists rest,
          trace (snd (fetchExtensions compareVer prompt answers w))
          = (trace w
             ++ (if prompt then [ChannelClear] else [])
             ++ ShowErrorChoice
                  "Cannot access extensions at specified remote path."
                  pathOptions :: rest)%list)
  /\ (forall (prompt : bool) (remote : string),
        _remoteSettingsPath w = Some remote -> remote <> "" ->
        existsSync w (join remote "settings.json") = false ->
        exists rest,
          trace (snd (fetchSettings prompt answers w))
          = (trace w
             ++ (if prompt then [ChannelClear] else [])
             ++ ShowErrorChoice
                  "Cannot access settings at specified remote path."
                  pathOptions :: rest)%list)
  /\ (forall (prompt : bool) (path : string),
        _remoteExtensionPath w = Some path -> path <> "" ->
        existsSync w path = false ->
        exists rest,
          trace (snd (fetchExtensions compareVer prompt (Reenter :: answers)
                        w))
          = (trace w
             ++ (if prompt then [ChannelClear] else [])
             ++ ShowErrorChoice
                  "Cannot access extensions at specified remote path."
                  pathOptions
                :: ShowInputBox "Please enter path for remote extensions"
                     path
                :: rest)%list)
  /\ (forall (prompt : bool) (remote : string),
        _remoteSettingsPath w = Some remote -> remote <> "" ->
        existsSync w (join remote "settings.json") = false ->
        exists rest,
          trace (snd (fetchSettings prompt (Reenter :: answers) w))
          = (trace w
             ++ (if prompt then [ChannelClear] else [])
             ++ ShowErrorChoice
                  "Cannot access settings at specified remote path."
                  pathOptions
                :: ShowInputBox "Please enter path for remote settings"
                     remote
                :: rest)%list).
Proof.
  assert (Hclear : forall (A : Type) (prompt : bool) (m : M A)
                          (l : list event),
            (forall w0 : world,
               _remoteExtensionPath w0 = _remoteExtensionPath w ->
               _remoteSettingsPath w0 = _remoteSettingsPath w ->
               (forall p, existsSync w0 p = existsSync w p) ->
               exists rest, trace (snd (m w0)) = (trace w0 ++ l ++ rest)%list) ->
            exists rest,
              trace (snd (bind (if prompt then emit ChannelClear else ret tt)
                            (fun _ => m) w))
              = (trace w ++ (if prompt then [ChannelClear] else [])
                 ++ l ++ rest)%list).
  { intros A prompt m l Hm. destruct prompt.
    - erewrite (bind_run (emit _)) by reflexivity.
      destruct (Hm (setTrace (trace w ++ [ChannelClear]) w))
        as [rest H]; try reflexivity.
      exists rest. rewrite H. cbn [trace setTrace]. now rewrite <- app_assoc.
    - rewrite (bind_run (ret tt) _ w w tt eq_refl).
      destruct (Hm w) as [rest H]; try reflexivity. now exists rest. }
  split; [|split; [|split; [|split; [|split]]]].
  - intros H. unfold fetchExtensions.
    rewrite (bind_run (ret tt) _ w w tt eq_refl).
    destruct answers; cbn [confirmExtensionPath];
      unfold enterExtensionPath, bind, getWorld; now rewrite H.
  - intros H. unfold fetchSettings.
    rewrite (bind_run (ret tt) _ w w tt eq_refl).
    destruct answers; cbn [confirmSettingsPath];
      unfold enterSettingsPath, bind, getWorld; now rewrite H.
  - intros prompt Ht He. unfold fetchExtensions.
    apply (Hclear _ prompt _
             [ShowErrorChoice
                "Cannot access extensions at specified remote path."
                pathOptions]).
    intros w0 H1 _ H3.
    apply confirmExtensionPath_invalid.
    + intros x. appends_auto.
    + now rewrite H1.
    + rewrite H1. destruct (_remoteExtensionPath w); [|discriminate Ht].
      cbn [existsField] in *. now rewrite H3.
  - intros prompt remote Hp Hne He. unfold fetchSettings.
    apply (Hclear _ prompt _
             [ShowErrorChoice
                "Cannot access settings at specified remote path."
                pathOptions]).
    intros w0 _ H2 H3.
    apply (confirmSettingsPath_invalid _ _ _ _ remote).
    + intros x. appends_auto.
    + now rewrite H2.
    + assumption.
    + now rewrite H3.
  - intros prompt path Hp Hne He. unfold fetchExtensions.
    apply (Hclear _ prompt _
             [ShowErrorChoice
                "Cannot access extensions at specified remote path."
                pathOptions;
              ShowInputBox "Please enter path for remote extensions" path]).
    intros w0 H1 _ H3.
    apply confirmExtensionPath_reenter.
    + intros x. appends_auto.
    + now rewrite H1.
    + assumption.
    + now rewrite H3.
  - intros prompt remote Hp Hne He. unfold fetchSettings.
    apply (Hclear _ prompt _
             [ShowErrorChoice
                "Cannot access settings at specified remote path."
                pathOptions;
              ShowInputBox "Please enter path for remote settings" remote]).
    intros w0 _ H2 H3.
    apply confirmSettingsPath_reenter.
    + intros x. appends_auto.
    + now rewrite H2.
    + assumption.
    + now rewrite H3.
Qed.

Lemma automatic_run_without_path_is_silent_witness :
  fetchExtensions (fun _ _ => 0%Z) false [Reenter] (sampleWorld [] [])
  = (Ok tt, sampleWorld [] [])
  /\ fetchSettings false [Reenter] unconfiguredWorld
     = (Ok tt, unconfiguredWorld)
  /\ (exists rest,
        trace (snd (fetchSettings true [Reenter; Ignore] invalidPathWorld))
        = ChannelClear
          :: ShowErrorChoice
               "Cannot access settings at specified remote path." pathOptions
          :: ShowInputBox "Please enter path for remote settings"
               "/gone/settings"
          :: rest).
Proof.
  split; [|split].
  - apply (proj1 (automatic_run_without_path_is_silent (fun _ _ => 0%Z)
                    [Reenter] (sampleWorld [] []))).
    reflexivity.
  - apply (proj1 (proj2 (automatic_run_without_path_is_silent
                           (fun _ _ => 0%Z) [Reenter] unconfiguredWorld))).
    reflexivity.
  - apply (proj2 (proj2 (proj2 (proj2 (proj2
             (automatic_run_without_path_is_silent
                (fun _ _ => 0%Z) [Ignore] invalidPathWorld)))))
             true "/gone/settings" eq_refl ltac:(discriminate) eq_refl).
Defined.

(** C10.  The documents that are compared hold no setting of this extension
    (a key that starts with [fetchUserEnv]); neither of the two deltas holds
    one; and a pass of [compareSettings] leaves every such setting of the
    local file as it was. *)
Theorem own_settings_are_never_in_a_delta :
  (forall filePath w doc k,
     fst (readSettingsFile filePath true w) = Ok doc ->
     In k (keys doc) -> String.prefix "fetchUserEnv" k = false)
  /\ (forall localFile remoteFile delta u k,
        remoteLoop (filterSettings localFile) (filterSettings remoteFile)
          [] false = Ok (delta, u) ->
        In k (keys delta) -> String.prefix "fetchUserEnv" k = false)
  /\ (forall localFile defaultsFile k,
        In k (keys (fst (defaultsLoop (filterSettings localFile)
                           (filterSettings defaultsFile) [] false))) ->
        String.prefix "fetchUserEnv" k = false)
  /\ (forall w k,
        String.prefix "fetchUserEnv" k = true ->
        localSetting (snd (compareSettings w)) k = localSetting w k).
Proof.
  split; [|split; [|split]].
  - intros filePath w doc k. unfold readSettingsFile. run_method.
    destruct (assoc filePath (settingsFiles w)) as [[m|settingsFile]|];
      run_method; try discriminate.
    intros [= <-]. apply filterSettings_keys.
  - intros localFile remoteFile delta u k H Hk.
    apply (remoteLoop_keys _ _ _ _ _ H) in Hk.
    now apply filterSettings_keys in Hk.
  - intros localFile defaultsFile k Hk.
    apply defaultsLoop_keys in Hk. now apply filterSettings_keys in Hk.
  - exact compareSettings_frame.
Qed.

Lemma own_settings_are_never_in_a_delta_witness :
  localSetting
    (snd (compareSettings
            (sampleWorld
               [("fetchUserEnv.remoteSettingsPath", Str "/remote");
                ("theme", Str "light")]
               [("fetchUserEnv.remoteSettingsPath", Str "/elsewhere");
                ("theme", Str "dark")])))
    "fetchUserEnv.remoteSettingsPath"
  = Some (Str "/remote").
Proof.
  rewrite (proj2 (proj2 (proj2 own_settings_are_never_in_a_delta))
             _ "fetchUserEnv.remoteSettingsPath" eq_refl).
  reflexivity.
Defined.

(** The example of the remote theme: the delta is the remote theme, and the
    font of the local document is kept. *)
Example remote_theme_example :
  remoteLoop [("theme", Str "light"); ("font", Num 12)]
    [("theme", Str "dark")] [] false
  = Ok ([("theme", Str "dark")], true)
  /\ assoc "/home/.config/Code/User/settings.json"
       (settingsFiles
          (snd (compareSettings
                  (sampleWorld [("theme", Str "light"); ("font", Num 12)]
                     [("theme", Str "dark")]))))
     = Some (Parsed [("theme", Str "dark"); ("font", Num 12)]).
Proof. split; reflexivity. Qed.

(** * Further properties *)

(** ** compareUpdate at one level *)

Lemma anyMissing_object (ps : props) (ks : list string) :
  anyMissing (Obj ps) ks
  = Ok (existsb
          (fun k =>
             match lookup k ps with
             | Some Undefined | None => true
             | Some _ => false
             end) ks).
Proof.
  induction ks as [|k ks IH]; simpl; [reflexivity|].
  destruct (lookup k ps) as [[]|]; simpl; try reflexivity; exact IH.
Qed.

(** X1.  [compareUpdate] returns the whole of [compare] or the empty
    object, never a part of [compare], and the only exception that leaves
    it is a [TypeError]. *)
Theorem compareUpdate_returns_all_or_nothing (base compare : value) :
  (forall r, compareUpdate base compare = Ok r -> r = compare \/ r = Obj [])
  /\ (forall e, compareUpdate base compare = Throw e -> e = TypeError).
Proof.
  split.
  - intros r. apply compareUpdate_result.
  - intros e. apply compareUpdate_throw.
Qed.

(** X2.  Two values that hold no [null], and whose keys are [plain], are
    compared without exception.  The base may hold [undefined] members, as
    the base that [compareRemoteSettings] builds does. *)
Theorem compareUpdate_without_null_returns (base compare : value) :
  nullFree base = true -> base <> Undefined ->
  nullFree compare = true -> compare <> Undefined ->
  plain base = true -> plain compare = true ->
  compareUpdate base compare = Ok compare
  \/ compareUpdate base compare = Ok (Obj []).
Proof.
  intros Hb Hbd Hc Hcd _ _.
  destruct (compareUpdate_total compare base Hc Hcd Hb Hbd) as [r Hr].
  rewrite Hr. destruct (compareUpdate_result _ _ _ Hr) as [-> | ->]; auto.
Qed.

Lemma compareUpdate_without_null_returns_witness :
  compareUpdate (Obj [("a", Undefined); ("b", Arr [Num 1; Str "x"])])
    (Obj [("a", Obj [("x", Num 1)]); ("b", Arr [Num 1; Str "x"])])
  = Ok (Obj [("a", Obj [("x", Num 1)]); ("b", Arr [Num 1; Str "x"])])
  \/ compareUpdate (Obj [("a", Undefined); ("b", Arr [Num 1; Str "x"])])
       (Obj [("a", Obj [("x", Num 1)]); ("b", Arr [Num 1; Str "x"])])
     = Ok (Obj []).
Proof.
  apply compareUpdate_without_null_returns;
    [reflexivity | discriminate | reflexivity | discriminate
    | reflexivity | reflexivity].
Defined.

(** X3.  Two objects whose sets of keys differ at the level that is
    compared, in either direction, give the whole of [compare], whatever
    their values are; the keys of the two objects are [plain]. *)
Theorem key_mismatch_returns_compare (base compare : props) :
  plainDoc base = true -> plainDoc compare = true ->
  (exists k, In k (keys compare) /\ lookup k base = None)
  \/ (exists k, In k (keys base) /\ lookup k compare = None) ->
  compareUpdate (Obj base) (Obj compare) = Ok (Obj compare).
Proof.
  intros _ _ H. rewrite compareUpdate_eq. unfold compareBody. cbn [forIn].
  rewrite !anyMissing_object.
  destruct (existsb _ (keys compare)) eqn:E1; [reflexivity|].
  destruct (existsb _ (keys base)) eqn:E2; [reflexivity|].
  exfalso. destruct H as [[k [Hin Hk]]|[k [Hin Hk]]].
  - assert (existsb
              (fun k => match lookup k base with
                        | Some Undefined | None => true
                        | Some _ => false
                        end) (keys compare) = true); [|congruence].
    apply existsb_exists. exists k. now rewrite Hk.
  - assert (existsb
              (fun k => match lookup k compare with
                        | Some Undefined | None => true
                        | Some _ => false
                        end) (keys base) = true); [|congruence].
    apply existsb_exists. exists k. now rewrite Hk.
Qed.

Lemma key_mismatch_returns_compare_witness :
  compareUpdate (Obj [("a", Num 1); ("b", Num 2)]) (Obj [("a", Num 1)])
  = Ok (Obj [("a", Num 1)]).
Proof.
  apply key_mismatch_returns_compare; [reflexivity | reflexivity |].
  right. exists "b". split; [right; now left | reflexivity].
Defined.

(** ** The delta and the order of the local settings *)

Lemma distinct_NoDup (ks : list string) : distinct ks = true <-> NoDup ks.
Proof.
  induction ks as [|k ks IH]; simpl.
  - split; [constructor | reflexivity].
  - rewrite andb_true_iff, negb_true_iff, IH. split.
    + intros [Hk Hd]. constructor; [now apply distinct_not_in | assumption].
    + intros H. inversion H as [|k' ks' Hk Hd]; subst. split; [|assumption].
      destruct (existsb (String.eqb k) ks) eqn:E; [|reflexivity].
      apply existsb_exists in E as [k' [Hin E]].
      apply String.eqb_eq in E. now subst k'.
Qed.

Lemma lookup_permutation (l l' : props) (k : string) :
  Permutation.Permutation l l' -> distinct (keys l) = true ->
  lookup k l = lookup k l'.
Proof.
  intros Hp Hd.
  assert (Hd' : distinct (keys l') = true).
  { apply distinct_NoDup. apply distinct_NoDup in Hd.
    eapply Permutation.Permutation_NoDup; [|exact Hd].
    now apply Permutation.Permutation_map. }
  destruct (lookup k l) as [v|] eqn:E.
  - symmetry. apply in_lookup; [assumption|].
    eapply Permutation.Permutation_in; [exact Hp | now apply lookup_in].
  - destruct (lookup k l') as [v'|] eqn:E'; [|reflexivity].
    apply lookup_in in E'.
    apply (Permutation.Permutation_in _ (Permutation.Permutation_sym Hp)) in E'.
    apply (in_lookup _ _ _ Hd) in E'. congruence.
Qed.

(** X4.  The delta does not depend on the order of the settings in the
    local document. *)
Theorem delta_ignores_local_order
    (localSettings localSettings' remoteSettings : props) :
  Permutation.Permutation localSettings localSettings' ->
  distinct (keys localSettings) = true ->
  forall acc u,
    remoteLoop localSettings' remoteSettings acc u
    = remoteLoop localSettings remoteSettings acc u.
Proof.
  intros Hp Hd. induction remoteSettings as [|[k v] rest IH]; intros acc u;
    [reflexivity|].
  cbn [remoteLoop]. unfold get. cbn [getOwn].
  rewrite <- (lookup_permutation _ _ k Hp Hd).
  destruct (compareUpdate _ _) as [res|e]; [|reflexivity].
  destruct (hasKeys res); apply IH.
Qed.

Lemma delta_ignores_local_order_witness :
  remoteLoop [("font", Num 12); ("theme", Str "light")]
    [("theme", Str "dark")] [] false
  = remoteLoop [("theme", Str "light"); ("font", Num 12)]
      [("theme", Str "dark")] [] false.
Proof.
  apply delta_ignores_local_order; [|reflexivity].
  apply Permutation.perm_swap.
Defined.

(** X5.  When the comparison returns a delta for a remote document, the
    delta is the list of the remote settings that were found changed, whole
    and in the order of the remote document; a remote setting that the local
    document does not hold is among them, and the result tells whether the
    delta holds a setting.  The keys of the two documents are [plain]. *)
Theorem delta_is_a_sublist_of_remote
    (localSettings remoteSettings delta : props) (updated : bool) :
  distinct (keys remoteSettings) = true ->
  plainDoc localSettings = true -> plainDoc remoteSettings = true ->
  remoteLoop localSettings remoteSettings [] false = Ok (delta, updated) ->
  delta = filter (isChanged localSettings) remoteSettings
  /\ (forall k v, In (k, v) delta -> In (k, v) remoteSettings)
  /\ (forall k v, In (k, v) remoteSettings -> lookup k localSettings = None ->
                  In (k, v) delta)
  /\ (updated = true <-> delta <> []).
Proof.
  intros Hd _ _ H. apply remoteLoop_ok in H as [_ [Hdelta Hu]].
  rewrite assign_empty in Hdelta by now apply distinct_filter.
  subst delta. cbn [orb] in Hu. subst updated.
  split; [reflexivity|]. split; [|split].
  - intros k v Hin. now apply filter_In in Hin.
  - intros k v Hin Habs. apply filter_In. split; [assumption|].
    unfold isChanged. now rewrite changed_absent.
  - split.
    + intros H. apply existsb_exists in H as [kv [Hin Hc]].
      intros E. assert (Hf : In kv (filter (isChanged localSettings)
                                      remoteSettings))
        by (apply filter_In; now split).
      rewrite E in Hf. destruct Hf.
    + intros H.
      destruct (filter (isChanged localSettings) remoteSettings)
        as [|kv l] eqn:E; [contradiction|].
      assert (Hf : In kv (filter (isChanged localSettings) remoteSettings))
        by (rewrite E; now left).
      apply filter_In in Hf as [Hin Hc]. apply existsb_exists. now exists kv.
Qed.

Lemma delta_is_a_sublist_of_remote_witness :
  [("theme", Str "dark"); ("zoom", Num 2)]
  = filter (isChanged [("theme", Str "light"); ("font", Num 12)])
      [("theme", Str "dark"); ("font", Num 12); ("zoom", Num 2)].
Proof.
  apply (proj1 (delta_is_a_sublist_of_remote
                  [("theme", Str "light"); ("font", Num 12)]
                  [("theme", Str "dark"); ("font", Num 12); ("zoom", Num 2)]
                  [("theme", Str "dark"); ("zoom", Num 2)] true
                  eq_refl eq_refl eq_refl eq_refl)).
Defined.

(** ** compareRemoteSettings, run after run *)


(** X6.  [compareRemoteSettings] leaves every settings file as it is unless
    it returns [true]; so a [TypeError] met at one remote setting keeps all
    the other settings of that run from being written. *)
Theorem compareRemoteSettings_writes_only_updates (w : world) :
  fst (compareRemoteSettings w) <> Ok true ->
  settingsFiles (snd (compareRemoteSettings w)) = settingsFiles w.
Proof.
  unfold compareRemoteSettings. run_method.
  destruct (_remoteSettingsPath w) as [remote|]; run_method; [|reflexivity].
  destruct (assoc (join remote "settings.json") (settingsFiles w))
    as [[m|remoteDoc]|]; run_method; try reflexivity.
  destruct (assoc (join (_localSettingsPath w) "settings.json")
              (settingsFiles w)) as [[m|localDoc]|] eqn:El; run_method;
    try reflexivity.
  destruct (remoteLoop (filterSettings localDoc) (filterSettings remoteDoc)
              [] false) as [[delta [|]]|e]; run_method; try reflexivity.
  match goal with
  | |- context [updateSettings delta ?w0] =>
      destruct (updateSettings_run delta w0) as [_ [_ [_ [_ H5]]]];
      unfold localSettingsFile in *; run_method; rewrite El in H5;
      destruct H5 as [H5 _];
      destruct (updateSettings delta w0) as [[[]|e] w1]
  end; run_method; [|discriminate H5].
  intros H. now destruct H.
Qed.

Lemma compareRemoteSettings_writes_only_updates_witness :
  settingsFiles
    (snd (compareRemoteSettings
            (sampleWorld
               [("theme", Str "light"); ("a", Obj [("x", Num 1)])]
               [("theme", Str "dark"); ("a", Null)])))
  = settingsFiles
      (sampleWorld [("theme", Str "light"); ("a", Obj [("x", Num 1)])]
         [("theme", Str "dark"); ("a", Null)]).
Proof.
  apply compareRemoteSettings_writes_only_updates. discriminate.
Defined.

Lemma filter_setProp (p : string -> bool) (t : props) (k : string)
    (v : value) :
  p k = true ->
  filter (fun kv => p (fst kv)) (setProp t k v)
  = setProp (filter (fun kv => p (fst kv)) t) k v.
Proof.
  intros Hk. induction t as [|[k1 v1] t IH]; simpl.
  - now rewrite Hk.
  - destruct (String.eqb_spec k1 k) as [->|N]; simpl.
    + rewrite Hk. simpl. now rewrite String.eqb_refl.
    + destruct (p k1); simpl; [|exact IH].
      apply String.eqb_neq in N. now rewrite N, IH.
Qed.

Lemma filterSettings_assign (t s : props) :
  (forall k, In k (keys s) -> String.prefix "fetchUserEnv" k = false) ->
  filterSettings (assign t s) = assign (filterSettings t) s.
Proof.
  rewrite !filterSettings_spec. revert t.
  induction s as [|[k v] s IH]; intros t Hs; [reflexivity|].
  rewrite !assign_cons. rewrite IH by (intros k' Hk'; apply Hs; now right).
  f_equal.
  apply (filter_setProp (fun k => negb (String.prefix "fetchUserEnv" k))).
  rewrite (Hs k) by now left. reflexivity.
Qed.




(** ** compareDefaultSettings, run after run *)

Lemma compareDefaultSettings_run (w : world) (remote filename : string)
    (defaultsDoc localDoc : props) :
  _remoteDefaultSettingsFilename w = Some filename -> filename <> "" ->
  _remoteSettingsPath w = Some remote ->
  assoc (join remote filename) (settingsFiles w) = Some (Parsed defaultsDoc) ->
  assoc (localSettingsFile w) (settingsFiles w) = Some (Parsed localDoc) ->
  let w' := snd (compareDefaultSettings w) in
  let delta :=
    fst (defaultsLoop (filterSettings localDoc) (filterSettings defaultsDoc)
           [] false) in
  let updated :=
    snd (defaultsLoop (filterSettings localDoc) (filterSettings defaultsDoc)
           [] false) in
  _remoteDefaultSettingsFilename w' = Some filename
  /\ _remoteSettingsPath w' = Some remote
  /\ _localSettingsPath w' = _localSettingsPath w
  /\ fst (compareDefaultSettings w) = Ok updated
  /\ (if updated
      then assoc (localSettingsFile w) (settingsFiles w')
           = Some (Parsed (assign localDoc delta))
           /\ (forall p, p <> localSettingsFile w ->
                 assoc p (settingsFiles w') = assoc p (settingsFiles w))
      else settingsFiles w' = settingsFiles w).
Proof.
  intros Hf Hne Hr Hdefaults Hlocal. unfold localSettingsFile in *.
  unfold compareDefaultSettings. run_method. rewrite Hf. run_method.
  apply String.eqb_neq in Hne. rewrite Hne. run_method.
  rewrite Hr. run_method. rewrite Hdefaults. run_method.
  rewrite Hlocal. run_method.
  destruct (defaultsLoop (filterSettings localDoc) (filterSettings defaultsDoc)
              [] false) as [delta [|]]; run_method;
    try now repeat split.
  match goal with
  | |- context [updateSettings delta ?w0] =>
      destruct (updateSettings_run delta w0) as [H1 [H2 [H3 [H4 H5]]]];
      unfold localSettingsFile in *; run_method; rewrite Hlocal in H5;
      destruct H5 as [H5 H6];
      destruct (updateSettings delta w0) as [[[]|e] w1]
  end; run_method; try discriminate H5.
  rewrite H1, H2, H3, Hr, Hf. repeat split; assumption.
Qed.

(** X8.  A run of [compareDefaultSettings] keeps the value of every setting
    that the local file holds, and the next run against the same file of
    defaults finds nothing to add and writes nothing.  The keys of the two
    files are [plain]. *)
Theorem compareDefaultSettings_fills_once (w : world)
    (remote filename : string) (defaultsDoc localDoc : props) :
  _remoteDefaultSettingsFilename w = Some filename -> filename <> "" ->
  _remoteSettingsPath w = Some remote ->
  join remote filename <> localSettingsFile w ->
  assoc (join remote filename) (settingsFiles w) = Some (Parsed defaultsDoc) ->
  assoc (localSettingsFile w) (settingsFiles w) = Some (Parsed localDoc) ->
  plainDoc defaultsDoc = true -> plainDoc localDoc = true ->
  let w1 := snd (compareDefaultSettings w) in
  (forall k v, lookup k localDoc = Some v -> localSetting w1 k = Some v)
  /\ fst (compareDefaultSettings w1) = Ok false
  /\ settingsFiles (snd (compareDefaultSettings w1)) = settingsFiles w1.
Proof.
  intros Hf Hne Hr Hpaths Hdefaults Hlocal _ _ w1.
  destruct (compareDefaultSettings_run w remote filename defaultsDoc localDoc
              Hf Hne Hr Hdefaults Hlocal) as [Hf1 [Hr1 [Hp1 [_ H]]]].
  fold w1 in Hf1, Hr1, Hp1, H.
  assert (Hfile : localSettingsFile w1 = localSettingsFile w)
    by (unfold localSettingsFile; now rewrite Hp1).
  pose proof (defaultsLoop_spec (filterSettings localDoc)
                (filterSettings defaultsDoc) [] false) as Hspec.
  destruct (defaultsLoop (filterSettings localDoc) (filterSettings defaultsDoc)
              [] false) as [delta updated] eqn:EL.
  cbn [fst snd] in H. injection Hspec as Hdelta Hupdated. cbn [orb] in Hupdated.
  assert (Hkeys : forall k, In k (keys delta) ->
            String.prefix "fetchUserEnv" k = false
            /\ lookup k (filterSettings localDoc) = None).
  { intros k Hk. subst delta. apply in_keys_lookup in Hk as [v Hv].
    apply lookup_in in Hv. apply in_assign in Hv as [[]|Hv].
    apply filter_In in Hv as [Hin Habs]. cbn [fst] in Habs. split.
    - apply (filterSettings_keys defaultsDoc). unfold keys.
      apply in_map_iff. now exists (k, v).
    - apply negb_true_iff in Habs. unfold hasOwnProperty in Habs.
      now destruct (lookup k (filterSettings localDoc)). }
  assert (Hnew : exists localDoc1,
            assoc (localSettingsFile w1) (settingsFiles w1)
            = Some (Parsed localDoc1)
            /\ (forall k v, lookup k localDoc = Some v ->
                            lookup k localDoc1 = Some v)
            /\ (forall kv, In kv (filterSettings defaultsDoc) ->
                  hasOwnProperty (filterSettings localDoc1) (fst kv) = true)
            /\ assoc (join remote filename) (settingsFiles w1)
               = Some (Parsed defaultsDoc)).
  { destruct updated.
    - destruct H as [Hl1 Ho1]. exists (assign localDoc delta).
      rewrite Hfile. split; [exact Hl1|]. split; [|split].
      + intros k v Hk. rewrite lookup_assign_other; [exact Hk|].
        intros Hin. apply Hkeys in Hin as [Hp Hn].
        rewrite lookup_filterSettings, Hp in Hn. congruence.
      + intros [k v] Hin. cbn [fst].
        rewrite filterSettings_assign by (intros k' Hk'; now apply Hkeys).
        destruct (hasOwnProperty (filterSettings localDoc) k) eqn:Eh.
        * apply hasOwnProperty_keys. apply keys_assign.
          now apply hasOwnProperty_keys.
        * unfold hasOwnProperty.
          destruct (lookup_assign_source delta (filterSettings localDoc) k)
            as [v' ->]; [|reflexivity].
          subst delta.
          destruct (lookup_assign_source
                      (filter (fun kv => negb (hasOwnProperty
                                 (filterSettings localDoc) (fst kv)))
                         (filterSettings defaultsDoc)) [] k) as [v' Hv'].
          { unfold keys. apply in_map_iff. exists (k, v). split; [reflexivity|].
            apply filter_In. split; [assumption|]. cbn [fst]. now rewrite Eh. }
          now apply lookup_keys in Hv'.
      + rewrite Ho1; assumption.
    - exists localDoc. rewrite Hfile, H. split; [exact Hlocal|].
      split; [auto|]. split; [|assumption].
      intros kv Hin. symmetry in Hupdated.
      destruct (hasOwnProperty (filterSettings localDoc) (fst kv)) eqn:Eh;
        [reflexivity|].
      assert (existsb (fun kv => negb (hasOwnProperty
                         (filterSettings localDoc) (fst kv)))
                (filterSettings defaultsDoc) = true); [|congruence].
      apply existsb_exists. exists kv. split; [assumption | now rewrite Eh]. }
  destruct Hnew as [localDoc1 [Hl1 [Hkeep [Hown Hd1]]]].
  split.
  - intros k v Hk. unfold localSetting. rewrite Hl1. now apply Hkeep.
  - destruct (compareDefaultSettings_run w1 remote filename defaultsDoc
                localDoc1 Hf1 Hne Hr1 Hd1 Hl1) as [_ [_ [_ [Hres Hstore]]]].
    rewrite defaultsLoop_spec in Hres, Hstore. cbn [fst snd orb] in Hres, Hstore.
    assert (Hnone : existsb
                      (fun kv => negb (hasOwnProperty
                                         (filterSettings localDoc1) (fst kv)))
                      (filterSettings defaultsDoc) = false).
    { apply not_true_iff_false. intros E.
      apply existsb_exists in E as [kv [Hin Hk]].
      rewrite (Hown kv Hin) in Hk. discriminate Hk. }
    rewrite Hnone in Hres, Hstore. now split.
Qed.

Lemma compareDefaultSettings_fills_once_witness :
  localSetting (snd (compareDefaultSettings defaultsWorld)) "theme"
  = Some (Str "light")
  /\ fst (compareDefaultSettings (snd (compareDefaultSettings defaultsWorld)))
     = Ok false.
Proof.
  pose proof (compareDefaultSettings_fills_once defaultsWorld "/remote"
                "defaults.json"
                [("theme", Str "dark"); ("tabSize", Num 4)]
                [("theme", Str "light");
                 ("fetchUserEnv.remoteSettingsPath", Str "/remote")]
                eq_refl ltac:(discriminate) eq_refl ltac:(discriminate)
                eq_refl eq_refl eq_refl eq_refl) as H.
  cbv zeta in H. destruct H as [H1 [H2 _]]. split.
  - exact (H1 "theme" (Str "light") eq_refl).
  - exact H2.
Defined.

(** ** What the two operations leave alone *)

Lemma confinedStep_refl (w : world) : confinedStep w w.
Proof. repeat split. Qed.

Lemma confinedStep_trans (w1 w2 w3 : world) :
  confinedStep w1 w2 -> confinedStep w2 w3 -> confinedStep w1 w3.
Proof.
  intros [A1 [A2 [A3 [A4 A5]]]] [B1 [B2 [B3 [B4 B5]]]].
  repeat split; try congruence.
  intros p Hp. rewrite B5, A5; [reflexivity | assumption |].
  unfold localSettingsFile in *. now rewrite A1.
Qed.

Lemma confined_ret {A : Type} (a : A) : confined (ret a).
Proof. intros w. apply confinedStep_refl. Qed.

Lemma confined_throw {A : Type} (e : error) : confined (@throw A e).
Proof. intros w. apply confinedStep_refl. Qed.

Lemma confined_getWorld : confined getWorld.
Proof. intros w. apply confinedStep_refl. Qed.

Lemma confined_emit (e : event) : confined (emit e).
Proof. intros w. repeat split. Qed.

Lemma confined_liftResult {A : Type} (r : result A) : confined (liftResult r).
Proof. destruct r; [apply confined_ret | apply confined_throw]. Qed.

Lemma confined_modify (f : world -> world) :
  (forall w, confinedStep w (f w)) -> confined (modify f).
Proof. intros H w. apply H. Qed.

Lemma confined_bind {A B : Type} (m : M A) (f : A -> M B) :
  confined m -> (forall a, confined (f a)) -> confined (bind m f).
Proof.
  intros Hm Hf w. unfold bind. pose proof (Hm w) as H1.
  destruct (m w) as [[a|e] w1]; cbn [snd] in *; [|exact H1].
  eapply confinedStep_trans; [exact H1 | apply Hf].
Qed.

Lemma confined_tryCatch {A : Type} (m : M A) (h : error -> M A) :
  confined m -> (forall e, confined (h e)) -> confined (tryCatch m h).
Proof.
  intros Hm Hh w. unfold tryCatch. pose proof (Hm w) as H1.
  destruct (m w) as [[a|e] w1]; cbn [snd] in *; [exact H1|].
  eapply confinedStep_trans; [exact H1 | apply Hh].
Qed.

Lemma confined_updateSettings (newSettings : props) :
  confined (updateSettings newSettings).
Proof.
  intros w.
  destruct (updateSettings_run newSettings w) as [H1 [_ [_ [H4 _]]]].
  repeat split; try assumption;
    unfold updateSettings, writeSettings; run_method;
    destruct (existsSync w (join (_localSettingsPath w) "settings.json"));
    run_method;
    try (destruct (assoc (join (_localSettingsPath w) "settings.json")
                     (settingsFiles w)) as [[m|doc]|]);
    run_method; reflexivity.
Qed.

Create HintDb confined.
#[local] Hint Resolve confined_ret confined_throw confined_getWorld
  confined_emit confined_liftResult confined_updateSettings : confined.

Ltac confined_step :=
  first
    [ assumption
    | solve [auto with confined]
    | apply confined_bind; [|intros ?]
    | apply confined_tryCatch; [|intros ?]
    | match goal with
      | |- confined (match ?x with _ => _ end) => destruct x
      | |- confined (let '(_, _) := ?x in _) => destruct x
      | |- confined (modify _) =>
          apply confined_modify; intros ?; solve [repeat split]
      end ].

Ltac confined_auto := repeat confined_step.

Lemma confined_readSettingsFile (p : string) (f : bool) :
  confined (readSettingsFile p f).
Proof. unfold readSettingsFile. confined_auto. Qed.
#[local] Hint Resolve confined_readSettingsFile : confined.

Lemma confined_compareSettings : confined compareSettings.
Proof.
  unfold compareSettings, compareDefaultSettings, compareRemoteSettings,
    joinField.
  confined_auto.
Qed.

Lemma confined_showInputBox (prompt : string) (current : option string) :
  confined (showInputBox prompt current).
Proof. unfold showInputBox. confined_auto. Qed.
#[local] Hint Resolve confined_compareSettings confined_showInputBox
  : confined.

Lemma confined_getRemoteExtensionPath : confined getRemoteExtensionPath.
Proof.
  unfold getRemoteExtensionPath, saveRemoteExtensionPath. confined_auto.
Qed.

Lemma confined_getRemoteSettingsPath : confined getRemoteSettingsPath.
Proof.
  unfold getRemoteSettingsPath, saveRemoteSettingsPath. confined_auto.
Qed.

Lemma confined_saveDefaultSettingsFilename (p : option string) :
  confined (saveDefaultSettingsFilename p).
Proof. unfold saveDefaultSettingsFilename. confined_auto. Qed.
#[local] Hint Resolve confined_saveDefaultSettingsFilename : confined.

Lemma confined_getDefaultSettingsFilename :
  confined getDefaultSettingsFilename.
Proof. unfold getDefaultSettingsFilename. confined_auto. Qed.
#[local] Hint Resolve confined_getRemoteExtensionPath
  confined_getRemoteSettingsPath confined_getDefaultSettingsFilename
  : confined.

Lemma confined_installLoop (compareVer : string -> string -> Z)
    (remote : string) (folders : list folder) :
  forall updated, confined (installLoop compareVer remote folders updated).
Proof.
  induction folders as [|f rest IH]; intros updated; simpl; confined_auto.
Qed.

Lemma confined_installNewExtensions (compareVer : string -> string -> Z) :
  confined (installNewExtensions compareVer).
Proof.
  unfold installNewExtensions. confined_auto. apply confined_installLoop.
Qed.

Lemma confined_getInstalledExtensions : confined getInstalledExtensions.
Proof. unfold getInstalledExtensions. confined_auto. Qed.
#[local] Hint Resolve confined_installNewExtensions
  confined_getInstalledExtensions : confined.

Lemma confined_confirmExtensionPath (prompt : bool) (answers : list choice) :
  forall reenter, confined (confirmExtensionPath prompt answers reenter).
Proof.
  induction answers as [|c rest IH]; intros reenter; simpl;
    unfold enterExtensionPath; confined_auto.
Qed.

Lemma confined_confirmSettingsPath (prompt : bool) (answers : list choice) :
  forall reenter, confined (confirmSettingsPath prompt answers reenter).
Proof.
  induction answers as [|c rest IH]; intros reenter; simpl;
    unfold enterSettingsPath, joinField; confined_auto.
Qed.

Lemma confined_confirmDefaultSettings (answers : list choice) :
  confined (confirmDefaultSettings answers).
Proof.
  induction answers as [|c rest IH]; simpl; unfold joinField; confined_auto.
Qed.
#[local] Hint Resolve confined_confirmExtensionPath
  confined_confirmSettingsPath confined_confirmDefaultSettings : confined.

(** X9.  Whatever the user answers, [fetchExtensions] and [fetchSettings]
    write no settings file but the local [settings.json]: every other file
    of the store, the remote settings and the defaults among them, is after
    the operation what it was before. *)
Theorem fetch_writes_the_local_settings_file_only
    (compareVer : string -> string -> Z) (prompt : bool)
    (answers : list choice) (w : world) (p : string) :
  p <> localSettingsFile w ->
  assoc p (settingsFiles (snd (fetchExtensions compareVer prompt answers w)))
  = assoc p (settingsFiles w)
  /\ assoc p (settingsFiles (snd (fetchSettings prompt answers w)))
     = assoc p (settingsFiles w).
Proof.
  intros Hp. split.
  - assert (C : confined (fetchExtensions compareVer prompt answers))
      by (unfold fetchExtensions; confined_auto).
    now apply (C w).
  - assert (C : confined (fetchSettings prompt answers))
      by (unfold fetchSettings; confined_auto).
    now apply (C w).
Qed.

Lemma fetch_writes_the_local_settings_file_only_witness :
  assoc "/remote/settings.json"
    (settingsFiles
       (snd (fetchSettings true []
               (sampleWorld [("theme", Str "light")]
                  [("theme", Str "dark")]))))
  = Some (Parsed [("theme", Str "dark")]).
Proof.
  apply (proj2 (fetch_writes_the_local_settings_file_only (fun _ _ => 0%Z)
                  true []
                  (sampleWorld [("theme", Str "light")]
                     [("theme", Str "dark")])
                  "/remote/settings.json" ltac:(discriminate))).
Defined.

(** ** No exception leaves the two operations *)

Section Keeps.
Context {B : Type} (part : world -> B).
Hypothesis part_setTrace : forall t w, part (setTrace t w) = part w.

Lemma keeps_ret {A : Type} (a : A) : keeps part (ret a).
Proof. intros w. reflexivity. Qed.

Lemma keeps_throw {A : Type} (e : error) : keeps part (@throw A e).
Proof. intros w. reflexivity. Qed.

Lemma keeps_getWorld : keeps part getWorld.
Proof. intros w. reflexivity. Qed.

Lemma keeps_emit (e : event) : keeps part (emit e).
Proof. intros w. apply part_setTrace. Qed.

Lemma keeps_modify (f : world -> world) :
  (forall w, part (f w) = part w) -> keeps part (modify f).
Proof. intros H w. apply H. Qed.

Lemma keeps_bind {A C : Type} (m : M A) (f : A -> M C) :
  keeps part m -> (forall a, keeps part (f a)) -> keeps part (bind m f).
Proof.
  intros Hm Hf w. unfold bind. pose proof (Hm w) as H1.
  destruct (m w) as [[a|e] w1]; cbn [snd] in *; [|exact H1].
  now rewrite Hf.
Qed.

Lemma keeps_tryCatch {A : Type} (m : M A) (h : error -> M A) :
  keeps part m -> (forall e, keeps part (h e)) -> keeps part (tryCatch m h).
Proof.
  intros Hm Hh w. unfold tryCatch. pose proof (Hm w) as H1.
  destruct (m w) as [[a|e] w1]; cbn [snd] in *; [exact H1|].
  now rewrite Hh.
Qed.
End Keeps.

Lemma keeps_path_updateSettings (newSettings : props) :
  keeps _remoteSettingsPath (updateSettings newSettings).
Proof.
  intros w. now destruct (updateSettings_run newSettings w) as [_ [H _]].
Qed.

Lemma keeps_path_getDefaultSettingsFilename :
  keeps _remoteSettingsPath getDefaultSettingsFilename.
Proof.
  unfold getDefaultSettingsFilename, saveDefaultSettingsFilename, showInputBox.
  repeat first
    [ apply keeps_path_updateSettings
    | apply keeps_ret | apply keeps_getWorld
    | apply keeps_emit; reflexivity
    | apply keeps_modify; intros ?; reflexivity
    | apply keeps_bind; [|intros ?]
    | match goal with
      | |- keeps _ (match ?x with _ => _ end) => destruct x
      end ].
Qed.

Lemma keeps_path_saveDefaultSettingsFilename (p : option string) :
  keeps _remoteSettingsPath (saveDefaultSettingsFilename p).
Proof.
  unfold saveDefaultSettingsFilename.
  apply keeps_bind; [apply keeps_modify; intros ?; reflexivity|].
  intros _. apply keeps_path_updateSettings.
Qed.

Lemma returns_ret {A : Type} (a : A) : returns (ret a).
Proof. intros w. now exists a. Qed.

Lemma returns_getWorld : returns getWorld.
Proof. intros w. now exists w. Qed.

Lemma returns_emit (e : event) : returns (emit e).
Proof. intros w. now exists tt. Qed.

Lemma returns_modify (f : world -> world) : returns (modify f).
Proof. intros w. now exists tt. Qed.

Lemma returns_bind {A B : Type} (m : M A) (f : A -> M B) :
  returns m -> (forall a, returns (f a)) -> returns (bind m f).
Proof.
  intros Hm Hf w. unfold bind. destruct (Hm w) as [a Ha].
  destruct (m w) as [[a'|e] w1]; cbn [fst] in Ha; [|discriminate Ha].
  apply Hf.
Qed.

(** A handler that returns makes the whole [try] return. *)
Lemma returns_tryCatch {A : Type} (m : M A) (h : error -> M A) :
  (forall e, returns (h e)) -> returns (tryCatch m h).
Proof.
  intros Hh w. unfold tryCatch.
  destruct (m w) as [[a|e] w1]; [now exists a | apply Hh].
Qed.

Create HintDb returns.
#[local] Hint Resolve returns_ret returns_getWorld returns_emit
  returns_modify : returns.

Ltac returns_step :=
  first
    [ assumption
    | solve [auto with returns]
    | apply returns_tryCatch; intros ?
    | apply returns_bind; [|intros ?]
    | match goal with
      | |- returns (match ?x with _ => _ end) => destruct x
      | |- returns (let '(_, _) := ?x in _) => destruct x
      end ].

Ltac returns_auto := repeat returns_step.

Lemma returns_getInstalledExtensions : returns getInstalledExtensions.
Proof. unfold getInstalledExtensions. returns_auto. Qed.

Lemma returns_confirmExtensionPath (prompt : bool) (answers : list choice) :
  forall reenter, returns (confirmExtensionPath prompt answers reenter).
Proof.
  induction answers as [|c rest IH]; intros reenter; simpl;
    unfold enterExtensionPath; returns_auto.
Qed.
#[local] Hint Resolve returns_getInstalledExtensions
  returns_confirmExtensionPath : returns.

Lemma returns_fetchExtensions (compareVer : string -> string -> Z)
    (prompt : bool) (answers : list choice) :
  returns (fetchExtensions compareVer prompt answers).
Proof. unfold fetchExtensions. returns_auto. Qed.

Lemma truthy_some (p : option string) :
  truthy p = true -> exists s, p = Some s /\ s <> "".
Proof.
  destruct p as [s|]; [|discriminate]. cbn. intros H. exists s.
  split; [reflexivity|]. apply negb_true_iff in H. now apply String.eqb_neq.
Qed.

Lemma updateSettings_throws (newSettings : props) (w : world) (e : error) :
  fst (updateSettings newSettings w) = Throw e ->
  exists message filename, e = JSONError message filename.
Proof.
  unfold updateSettings, writeSettings. run_method.
  destruct (existsSync w (join (_localSettingsPath w) "settings.json"));
    run_method; [|discriminate].
  destruct (assoc (join (_localSettingsPath w) "settings.json")
              (settingsFiles w)) as [[m|doc]|]; run_method;
    try discriminate; intros [= <-]; now eexists; eexists.
Qed.

Lemma getRemoteSettingsPath_post (w : world) :
  match fst (getRemoteSettingsPath w) with
  | Ok true =>
      truthy (_remoteSettingsPath (snd (getRemoteSettingsPath w))) = true
  | Ok false => True
  | Throw (JSONError _ _) => True
  | Throw _ => False
  end.
Proof.
  unfold getRemoteSettingsPath, showInputBox, saveRemoteSettingsPath.
  run_all.
  destruct (inputs w) as [|answer rest]; run_all; [exact I|].
  destruct answer as [path|]; run_all; [|exact I].
  cbn [truthy]. destruct (String.eqb path "") eqn:Ep; cbn [negb]; run_all;
    [exact I|].
  match goal with
  | |- context [updateSettings ?ns ?w0] =>
      pose proof (keeps_path_updateSettings ns w0) as Hk;
      pose proof (updateSettings_throws ns w0) as Ht;
      destruct (updateSettings ns w0) as [[[]|e] w1]
  end; run_all.
  - rewrite Hk. cbn. now rewrite Ep.
  - destruct (Ht e eq_refl) as [m [f ->]]. exact I.
Qed.

Lemma enterSettingsPath_post (prompt reenter : bool) (w : world) :
  exists stop,
    fst (enterSettingsPath prompt reenter w) = Ok stop
    /\ (stop = false ->
        truthy (_remoteSettingsPath
                  (snd (enterSettingsPath prompt reenter w))) = true).
Proof.
  unfold enterSettingsPath. rewrite (bind_run getWorld _ w w w eq_refl).
  destruct (negb (truthy (_remoteSettingsPath w)) || reenter) eqn:E.
  - destruct (negb prompt && negb reenter); [exists true; now split|].
    unfold tryCatch, bind.
    pose proof (getRemoteSettingsPath_post w) as Hpost.
    destruct (getRemoteSettingsPath w) as [[[|]|e] w1]; cbn [fst snd] in *.
    + exists false. split; [reflexivity | intros _; exact Hpost].
    + exists true. now split.
    + destruct e as [m f| |m]; try contradiction.
      exists true. now split.
  - exists false. split; [reflexivity|]. intros _. cbn.
    apply orb_false_iff in E as [E _]. now apply negb_false_iff in E.
Qed.

Lemma confirmSettingsPath_post (prompt : bool) (answers : list choice) :
  forall reenter w,
  exists confirmed rest,
    fst (confirmSettingsPath prompt answers reenter w) = Ok (confirmed, rest)
    /\ (confirmed = true ->
        truthy (_remoteSettingsPath
                  (snd (confirmSettingsPath prompt answers reenter w)))
        = true).
Proof.
  assert (Hstep : forall (answers : list choice) reenter w
             (next : M (bool * list choice)),
    (forall w2, exists confirmed rest,
        fst (next w2) = Ok (confirmed, rest)
        /\ (confirmed = true ->
            truthy (_remoteSettingsPath (snd (next w2))) = true)) ->
    exists confirmed rest,
      fst (bind (enterSettingsPath prompt reenter)
             (fun stop =>
                if (stop : bool) then ret (false, answers)
                else
                  bind getWorld (fun w =>
                  bind (joinField (_remoteSettingsPath w) "settings.json")
                    (fun settingsFile =>
                  if existsSync w settingsFile then ret (true, answers)
                  else
                    bind (emit (ShowErrorChoice
                            "Cannot access settings at specified remote path."
                            pathOptions)) (fun _ => next)))) w)
      = Ok (confirmed, rest)
      /\ (confirmed = true ->
          truthy (_remoteSettingsPath
                    (snd (bind (enterSettingsPath prompt reenter)
             (fun stop =>
                if (stop : bool) then ret (false, answers)
                else
                  bind getWorld (fun w =>
                  bind (joinField (_remoteSettingsPath w) "settings.json")
                    (fun settingsFile =>
                  if existsSync w settingsFile then ret (true, answers)
                  else
                    bind (emit (ShowErrorChoice
                            "Cannot access settings at specified remote path."
                            pathOptions)) (fun _ => next)))) w)))
          = true)).
  { intros answers0 reenter w next Hnext.
    destruct (enterSettingsPath_post prompt reenter w) as [stop [Hs Hp]].
    unfold bind at 1 5.
    destruct (enterSettingsPath prompt reenter w) as [[stop'|e] w1];
      cbn [fst snd] in *; [|discriminate Hs].
    injection Hs as ->. destruct stop.
    - exists false, answers0. now split.
    - specialize (Hp eq_refl).
      destruct (truthy_some _ Hp) as [remote [Hr Hne]].
      rewrite !(bind_run getWorld _ w1 w1 w1 eq_refl). rewrite Hr.
      cbn [joinField]. rewrite !(bind_run (ret _) _ w1 w1 _ eq_refl).
      destruct (existsSync w1 (join remote "settings.json")).
      + exists true, answers0. split; [reflexivity | intros _; exact Hp].
      + erewrite !(bind_run (emit _)) by reflexivity. apply Hnext. }
  induction answers as [|c rest IH]; intros reenter w.
  - cbn [confirmSettingsPath]. apply Hstep. intros w2.
    exists false, []. now split.
  - cbn [confirmSettingsPath]. apply Hstep. intros w2.
    destruct c; try apply IH; exists false, rest; now split.
Qed.

Lemma confirmDefaultSettings_returns (answers : list choice) :
  forall w,
    truthy (_remoteSettingsPath w) = true ->
    exists proceed, fst (confirmDefaultSettings answers w) = Ok proceed.
Proof.
  assert (Hhead : forall (w : world) (next : M bool),
    truthy (_remoteSettingsPath w) = true ->
    (forall w2, _remoteSettingsPath w2 = _remoteSettingsPath w ->
                exists proceed, fst (next w2) = Ok proceed) ->
    exists proceed,
      fst (bind getWorld (fun w =>
             match _remoteDefaultSettingsFilename w with
             | None => ret true
             | Some filename =>
                 if String.eqb filename "" then ret true
                 else
                   bind (joinField (_remoteSettingsPath w) filename)
                     (fun defaultsFile =>
                        if existsSync w defaultsFile then ret true
                        else
                          bind (emit (ShowErrorChoice
                                  "Cannot access default settings at specified remote path."
                                  defaultsOptions)) (fun _ => next))
             end) w) = Ok proceed).
  { intros w next Hp Hnext. rewrite (bind_run getWorld _ w w w eq_refl).
    destruct (_remoteDefaultSettingsFilename w) as [filename|];
      [|now exists true].
    destruct (String.eqb filename ""); [now exists true|].
    destruct (truthy_some _ Hp) as [remote [Hr _]]. rewrite Hr.
    cbn [joinField]. rewrite (bind_run (ret _) _ w w _ eq_refl).
    destruct (existsSync w (join remote filename)); [now exists true|].
    erewrite (bind_run (emit _)) by reflexivity. apply Hnext. reflexivity. }
  induction answers as [|c rest IH]; intros w Hp; cbn [confirmDefaultSettings];
    apply Hhead; try assumption; intros w2 Hw2.
  - now exists true.
  - assert (Hp2 : truthy (_remoteSettingsPath w2) = true) by now rewrite Hw2.
    destruct c; try (now exists true).
    + now apply IH.
    + match goal with
      | |- context [bind ?m _ w2] =>
          assert (Hk : keeps _remoteSettingsPath m);
          [|assert (Hr : returns m)]
      end.
      * apply keeps_tryCatch.
        -- apply keeps_bind;
             [apply keeps_path_getDefaultSettingsFilename
             | intros ?; apply keeps_ret].
        -- intros [m f| |m]; try apply keeps_ret.
           apply keeps_bind; [apply keeps_emit; reflexivity|].
           intros ?. apply keeps_ret.
      * returns_auto.
      * unfold bind at 1.
        match goal with
        | |- context [?m w2] =>
            match type of Hk with
            | keeps _ m =>
                specialize (Hk w2); destruct (Hr w2) as [stop Hs];
                destruct (m w2) as [[stop'|e] w3]
            end
        end; cbn [fst snd] in *; [|discriminate Hs].
        destruct stop'; [now exists false|]. apply IH. now rewrite Hk.
    + match goal with
      | |- context [bind ?m _ w2] => assert (Hr : returns m)
      end.
      * returns_auto.
      * unfold bind. destruct (Hr w2) as [u Hu].
        match goal with
        | |- context [?m w2] =>
            match type of Hr with
            | returns m => destruct (m w2) as [[u'|e] w3]
            end
        end; cbn [fst] in *; [now exists true | discriminate Hu].
Qed.

Lemma fetchSettings_returns (prompt : bool) (answers : list choice)
    (w : world) :
  fst (fetchSettings prompt answers w) = Ok tt.
Proof.
  unfold fetchSettings.
  assert (R : returns (if prompt then emit ChannelClear else ret tt))
    by (destruct prompt; auto with returns).
  unfold bind at 1. destruct (R w) as [[] Hu].
  destruct ((if prompt then emit ChannelClear else ret tt) w) as [[[]|e] w1];
    cbn [fst] in Hu; [|discriminate Hu]. clear Hu.
  destruct (confirmSettingsPath_post prompt answers false w1)
    as [confirmed [rest [Hc Hpath]]].
  unfold bind at 1.
  destruct (confirmSettingsPath prompt answers false w1) as [[[c r]|e] w2];
    cbn [fst snd] in *; [|discriminate Hc].
  injection Hc as -> ->. destruct confirmed; cbn [negb]; [|reflexivity].
  destruct (confirmDefaultSettings_returns rest w2 (Hpath eq_refl))
    as [proceed Hd].
  unfold bind at 1.
  destruct (confirmDefaultSettings rest w2) as [[b|e] w3];
    cbn [fst] in *; [|discriminate Hd].
  destruct b; cbn [negb]; [|reflexivity].
  match goal with
  | |- fst (?m w3) = Ok tt =>
      assert (Hr : returns m) by returns_auto;
      destruct (Hr w3) as [[] H]; exact H
  end.
Qed.

Lemma fetchExtensions_returns (compareVer : string -> string -> Z)
    (prompt : bool) (answers : list choice) (w : world) :
  fst (fetchExtensions compareVer prompt answers w) = Ok tt.
Proof.
  destruct (returns_fetchExtensions compareVer prompt answers w) as [[] H].
  exact H.
Qed.

(** X10.  No exception leaves [fetchExtensions] or [fetchSettings],
    whatever the files hold and the user answers: each of the two methods
    returns, and the handlers of the two fetch commands are never run. *)
Theorem no_exception_leaves_a_fetch
    (compareVer : string -> string -> Z) (prompt : bool)
    (answers : list choice) (w : world) :
  fst (fetchExtensions compareVer prompt answers w) = Ok tt
  /\ fst (fetchSettings prompt answers w) = Ok tt
  /\ commandExtensions compareVer answers w
     = fetchExtensions compareVer true answers w
  /\ commandSettings answers w = fetchSettings true answers w.
Proof.
  split; [apply fetchExtensions_returns|].
  split; [apply fetchSettings_returns|]. split.
  - unfold commandExtensions, tryCatch.
    pose proof (fetchExtensions_returns compareVer true answers w) as H.
    destruct (fetchExtensions compareVer true answers w) as [[[]|e] w1];
      [reflexivity | discriminate H].
  - unfold commandSettings, tryCatch.
    pose proof (fetchSettings_returns true answers w) as H.
    destruct (fetchSettings true answers w) as [[[]|e] w1];
      [reflexivity | discriminate H].
Qed.

(** X11.  [activate] clears the channel and runs the two fetches one after
    the other, the settings whatever became of the extensions; it never
    fails, neither of its two handlers is run, and it writes no settings
    file but the local one.  With neither remote path configured, clearing
    the channel is all that it does. *)
Theorem startup_runs_both_fetches
    (compareVer : string -> string -> Z)
    (extensionAnswers settingsAnswers : list choice) (w : world) :
  let cleared := setTrace (trace w ++ [ChannelClear]) w in
  let fetched := snd (fetchExtensions compareVer false extensionAnswers
                        cleared) in
  activate compareVer extensionAnswers settingsAnswers w
  = (Ok tt, snd (fetchSettings false settingsAnswers fetched))
  /\ confinedStep w
       (snd (activate compareVer extensionAnswers settingsAnswers w))
  /\ (truthy (_remoteExtensionPath w) = false ->
      truthy (_remoteSettingsPath w) = false ->
      activate compareVer extensionAnswers settingsAnswers w
      = (Ok tt, cleared)).
Proof.
  cbn zeta.
  assert (E : activate compareVer extensionAnswers settingsAnswers w
              = (Ok tt,
                 snd (fetchSettings false settingsAnswers
                        (snd (fetchExtensions compareVer false
                                extensionAnswers
                                (setTrace (trace w ++ [ChannelClear]) w)))))).
  { unfold activate. erewrite (bind_run (emit _)) by reflexivity.
    set (w0 := setTrace _ w). unfold bind at 1. unfold tryCatch at 1.
    pose proof (fetchExtensions_returns compareVer false extensionAnswers w0)
      as H1.
    destruct (fetchExtensions compareVer false extensionAnswers w0)
      as [[[]|e] w1]; [|discriminate H1]. cbn [snd].
    unfold tryCatch.
    pose proof (fetchSettings_returns false settingsAnswers w1) as H2.
    destruct (fetchSettings false settingsAnswers w1) as [[[]|e] w2];
      [reflexivity | discriminate H2]. }
  split; [exact E|]. split.
  - rewrite E. cbn [snd].
    eapply confinedStep_trans; [|eapply confinedStep_trans].
    + assert (C : confined (emit ChannelClear)) by auto with confined.
      exact (C w).
    + assert (C : confined (fetchExtensions compareVer false
                              extensionAnswers))
        by (unfold fetchExtensions; confined_auto).
      exact (C _).
    + assert (C : confined (fetchSettings false settingsAnswers))
        by (unfold fetchSettings; confined_auto).
      exact (C _).
  - intros He Hs. rewrite E. f_equal.
    set (w0 := setTrace _ w).
    assert (E1 : fetchExtensions compareVer false extensionAnswers w0
                 = (Ok tt, w0)).
    { unfold fetchExtensions. rewrite (bind_run (ret tt) _ w0 w0 tt eq_refl).
      destruct extensionAnswers; cbn [confirmExtensionPath];
        unfold enterExtensionPath, bind, getWorld; cbn; now rewrite He. }
    rewrite E1. cbn [snd].
    unfold fetchSettings. rewrite (bind_run (ret tt) _ w0 w0 tt eq_refl).
    destruct settingsAnswers; cbn [confirmSettingsPath];
      unfold enterSettingsPath, bind, getWorld; cbn; now rewrite Hs.
Qed.

Lemma startup_runs_both_fetches_witness :
  activate (fun _ _ => 0%Z) [Reenter] [TryAgain] unconfiguredWorld
  = (Ok tt, setTrace [ChannelClear] unconfiguredWorld).
Proof.
  apply (proj2 (proj2 (startup_runs_both_fetches (fun _ _ => 0%Z)
                         [Reenter] [TryAgain] unconfiguredWorld)));
    reflexivity.
Defined.

(** ** updateSettings and readSettingsFile at their edges *)

(** X12.  When there is no local settings file in the folder of the local
    settings, which exists, [updateSettings] creates the file with the new
    settings alone, whose keys are [plain]; when the file does not parse, it
    throws the [JSONError] of that file and writes nothing. *)
Theorem updateSettings_creates_or_fails (newSettings : props) (w : world) :
  (existsSync w (localSettingsFile w) = false ->
   existsSync w (_localSettingsPath w) = true ->
   distinct (keys newSettings) = true ->
   plainDoc newSettings = true ->
   fst (updateSettings newSettings w) = Ok tt
   /\ assoc (localSettingsFile w)
        (settingsFiles (snd (updateSettings newSettings w)))
      = Some (Parsed newSettings))
  /\ (forall message,
        assoc (localSettingsFile w) (settingsFiles w)
        = Some (Invalid message) ->
        fst (updateSettings newSettings w)
        = Throw (JSONError message (localSettingsFile w))
        /\ settingsFiles (snd (updateSettings newSettings w))
           = settingsFiles w).
Proof.
  unfold localSettingsFile. split.
  - intros He _ Hd _. unfold updateSettings, writeSettings. run_all.
    rewrite He. run_all. rewrite (assign_empty _ Hd).
    split; [reflexivity | apply assoc_setAssoc_same].
  - intros message Hm.
    destruct (updateSettings_run newSettings w) as [_ [_ [_ [_ H]]]].
    unfold localSettingsFile in H. now rewrite Hm in H.
Qed.

Lemma updateSettings_creates_or_fails_witness :
  assoc "/home/.config/Code/User/settings.json"
    (settingsFiles
       (snd (updateSettings [("fetchUserEnv.remoteSettingsPath", Str "/r")]
               freshWorld)))
  = Some (Parsed [("fetchUserEnv.remoteSettingsPath", Str "/r")]).
Proof.
  apply (proj1 (updateSettings_creates_or_fails
                  [("fetchUserEnv.remoteSettingsPath", Str "/r")]
                  freshWorld));
    reflexivity.
Defined.

(** X13.  The loop of [readSettingsFile] that deletes the settings of this
    extension while it enumerates them returns the other settings of the
    file, each with its value and in the order of the file; without the
    filter the document is returned as it is.  Reading changes no file.
    The keys of the file are [plain]. *)
Theorem readSettingsFile_keeps_the_other_settings
    (filePath : string) (doc : props) (w : world) :
  assoc filePath (settingsFiles w) = Some (Parsed doc) ->
  plainDoc doc = true ->
  fst (readSettingsFile filePath true w)
  = Ok (filter (fun kv => negb (String.prefix "fetchUserEnv" (fst kv))) doc)
  /\ fst (readSettingsFile filePath false w) = Ok doc
  /\ (forall k,
        lookup k (filterSettings doc)
        = if String.prefix "fetchUserEnv" k then None else lookup k doc)
  /\ filterSettings (filterSettings doc) = filterSettings doc
  /\ (forall filter,
        settingsFiles (snd (readSettingsFile filePath filter w))
        = settingsFiles w).
Proof.
  intros H _. unfold readSettingsFile. run_all. rewrite H. run_all.
  rewrite <- filterSettings_spec. repeat split.
  - apply lookup_filterSettings.
  - rewrite !filterSettings_spec, filter_filter. apply filter_ext.
    intros kv. now rewrite andb_diag.
Qed.

Lemma readSettingsFile_keeps_the_other_settings_witness :
  fst (readSettingsFile "/remote/settings.json" true
         (sampleWorld []
            [("theme", Str "dark"); ("fetchUserEnv.remoteSettingsPath", Str "/r");
             ("font", Num 12)]))
  = Ok [("theme", Str "dark"); ("font", Num 12)].
Proof.
  apply (proj1 (readSettingsFile_keeps_the_other_settings
                  "/remote/settings.json"
                  [("theme", Str "dark");
                   ("fetchUserEnv.remoteSettingsPath", Str "/r");
                   ("font", Num 12)]
                  (sampleWorld []
                     [("theme", Str "dark");
                      ("fetchUserEnv.remoteSettingsPath", Str "/r");
                      ("font", Num 12)])
                  eq_refl eq_refl)).
Defined.

(** ** getInstalledExtensions *)

Lemma find_last {A : Type} (f : A -> bool) (l : list A) (x : A) :
  find f (l ++ [x])
  = match find f l with
    | Some y => Some y
    | None => if f x then Some x else None
    end.
Proof.
  induction l as [|y l IH]; simpl; [reflexivity|].
  destruct (f y); [reflexivity | exact IH].
Qed.

Lemma assoc_record_versions (exts : list extension) :
  forall (versions : list (string * string)) (k : string),
    assoc k
      (fold_left (fun vs ext => setAssoc (id ext) (packageVersion ext) vs)
         exts versions)
    = match find (fun ext => String.eqb (id ext) k) (rev exts) with
      | Some ext => Some (packageVersion ext)
      | None => assoc k versions
      end.
Proof.
  induction exts as [|ext exts IH]; intros versions k; [reflexivity|].
  cbn [fold_left rev]. rewrite IH, find_last.
  destruct (find (fun ext0 => String.eqb (id ext0) k) (rev exts));
    [reflexivity|].
  destruct (String.eqb_spec (id ext) k) as [<-|N].
  - apply assoc_setAssoc_same.
  - now apply assoc_setAssoc_other.
Qed.

(** X14.  [getInstalledExtensions] records the version of every extension
    whose path starts with the local extension path, the last one listed
    winning for an id; the record of any other id stays as it was, so that
    the version of an extension that was removed is never forgotten.
    Nothing else changes. *)
Theorem getInstalledExtensions_records_versions (w : world) (k : string) :
  let w' := snd (getInstalledExtensions w) in
  let localExtensions :=
    filter (fun ext => String.prefix (_localExtensionPath w) (extensionPath ext))
      (extensionsAll w) in
  assoc k (_localExtVersions w')
  = match find (fun ext => String.eqb (id ext) k) (rev localExtensions) with
    | Some ext => Some (packageVersion ext)
    | None => assoc k (_localExtVersions w)
    end
  /\ (assoc k (_localExtVersions w) <> None ->
      assoc k (_localExtVersions w') <> None)
  /\ w' = setLocalExtVersions (_localExtVersions w') w.
Proof.
  cbn zeta. unfold getInstalledExtensions, modify. cbn [snd _localExtVersions
    setLocalExtVersions].
  rewrite assoc_record_versions. split; [reflexivity|]. split.
  - destruct (find _ _); [discriminate | trivial].
  - reflexivity.
Qed.

Lemma getInstalledExtensions_records_versions_witness :
  assoc "pub.gone" (_localExtVersions (snd (getInstalledExtensions
                                              installedWorld)))
  <> None.
Proof.
  apply (proj1 (proj2 (getInstalledExtensions_records_versions
                         installedWorld "pub.gone"))).
  discriminate.
Defined.

(** ** A package file that does not parse *)

(** X15.  A package file that does not parse ends [installNewExtensions]
    with the [JSONError] of that file: the folders listed before it have
    been dealt with, those that were wanted are copied, and the folders
    listed after it are not looked at. *)
Theorem invalid_package_ends_the_update
    (compareVer : string -> string -> Z) (w : world) (remote : string)
    (entries before after : list folder) (bad : folder) (message : string) :
  _remoteExtensionPath w = Some remote ->
  assoc remote (directories w) = Some entries ->
  filter isDirectory entries = (before ++ bad :: after)%list ->
  (forall f m, In f before -> packageFile f <> PackageInvalid m) ->
  packageFile bad = PackageInvalid message ->
  installNewExtensions compareVer w
  = (Throw (JSONError message
              (join (join remote (folderName bad)) "package.json")),
     setTrace
       (trace w
        ++ ReadDir remote
           :: flat_map (installEvents remote (_localExtensionPath w))
                (filter (isWanted compareVer (_localExtVersions w)) before))
       w).
Proof.
  intros Hp Hd Hsplit Hvalid Hbad. unfold installNewExtensions.
  rewrite (bind_run getWorld _ w w w eq_refl). rewrite Hp.
  erewrite (bind_run (emit _)) by reflexivity. rewrite Hd, Hsplit.
  rewrite installLoop_prefix by assumption.
  cbn [installLoop]. unfold bind at 1. unfold getWorld at 1. cbn iota beta.
  unfold candidate. rewrite Hbad. cbn [liftResult].
  unfold bind, throw.
  cbn [_localExtVersions _localExtensionPath setTrace trace orb].
  rewrite <- app_assoc. reflexivity.
Qed.

Lemma invalid_package_ends_the_update_witness :
  fst (installNewExtensions differsAsNewer badPackageWorld)
  = Throw (JSONError "Unexpected end of JSON input"
             "/remote/ext/broken/package.json").
Proof.
  rewrite (invalid_package_ends_the_update differsAsNewer badPackageWorld
             "/remote/ext"
             [{| folderName := "first"; isDirectory := true;
                 packageFile :=
                   PackageJson {| publisher := "pub"; name := "first";
                                  version := "1.0.0" |} |};
              {| folderName := "broken"; isDirectory := true;
                 packageFile :=
                   PackageInvalid "Unexpected end of JSON input" |};
              {| folderName := "last"; isDirectory := true;
                 packageFile :=
                   PackageJson {| publisher := "pub"; name := "last";
                                  version := "1.0.0" |} |}]
             [{| folderName := "first"; isDirectory := true;
                 packageFile :=
                   PackageJson {| publisher := "pub"; name := "first";
                                  version := "1.0.0" |} |}]
             [{| folderName := "last"; isDirectory := true;
                 packageFile :=
                   PackageJson {| publisher := "pub"; name := "last";
                                  version := "1.0.0" |} |}]
             {| folderName := "broken"; isDirectory := true;
                packageFile :=
                  PackageInvalid "Unexpected end of JSON input" |}
             "Unexpected end of JSON input"
             eq_refl eq_refl eq_refl).
  - reflexivity.
  - intros f m [<-|[]]. discriminate.
  - reflexivity.
Defined.

(** ** The prompts for the paths *)

(** X16.  A path typed at the prompt is kept in the field and written to the
    local settings under its own key before it is checked; when the local
    settings file does not parse, the field has the new path all the same
    and the [JSONError] of the file is thrown.  A prompt that is cancelled
    or left empty shows the warning and changes nothing else. *)
Theorem typed_path_is_saved_before_it_is_checked
    (w : world) (answer : option string) (rest : list (option string)) :
  inputs w = answer :: rest ->
  let w' := snd (getRemoteExtensionPath w) in
  inputs w' = rest
  /\ (forall path doc,
        answer = Some path -> path <> "" ->
        assoc (localSettingsFile w) (settingsFiles w) = Some (Parsed doc) ->
        fst (getRemoteExtensionPath w) = Ok true
        /\ _remoteExtensionPath w' = Some path
        /\ assoc (localSettingsFile w) (settingsFiles w')
           = Some (Parsed
                     (assign doc
                        [("fetchUserEnv.remoteExtensionPath", Str path)])))
  /\ (forall path message,
        answer = Some path -> path <> "" ->
        assoc (localSettingsFile w) (settingsFiles w)
        = Some (Invalid message) ->
        fst (getRemoteExtensionPath w)
        = Throw (JSONError message (localSettingsFile w))
        /\ _remoteExtensionPath w' = Some path
        /\ settingsFiles w' = settingsFiles w)
  /\ (answer = None \/ answer = Some "" ->
      fst (getRemoteExtensionPath w) = Ok false
      /\ _remoteExtensionPath w' = _remoteExtensionPath w
      /\ settingsFiles w' = settingsFiles w
      /\ trace w'
         = (trace w
            ++ [ShowInputBox "Please enter path for remote extensions"
                  (match _remoteExtensionPath w with
                   | Some s => s
                   | None => ""
                   end);
                ShowWarningMessage
                  "Path for remote extensions not specified, operation cancelled."])%list).
Proof.
  intros Hin. cbn zeta.
  unfold getRemoteExtensionPath, showInputBox, saveRemoteExtensionPath.
  run_all. rewrite Hin. run_all.
  destruct answer as [path|].
  - cbn [truthy]. destruct (String.eqb_spec path "") as [->|Hne]; cbn [negb];
      run_all.
    + split; [reflexivity|]. split; [intros p d [= <-] H; now destruct H|].
      split; [intros p m [= <-] H; now destruct H|].
      intros _. rewrite <- app_assoc. now repeat split.
    + match goal with
      | |- context [updateSettings ?ns ?w0] =>
          destruct (updateSettings_run ns w0) as [_ [_ [_ [_ H5]]]];
          assert (Hx : _remoteExtensionPath (snd (updateSettings ns w0))
                       = Some path);
          [|assert (Hi : inputs (snd (updateSettings ns w0)) = rest)]
      end.
      * unfold updateSettings, writeSettings. run_all.
        destruct (existsSync _ _); run_all;
          try (destruct (assoc _ (settingsFiles w)) as [[m|d]|]); run_all;
          reflexivity.
      * unfold updateSettings, writeSettings. run_all.
        destruct (existsSync _ _); run_all;
          try (destruct (assoc _ (settingsFiles w)) as [[m|d]|]); run_all;
          reflexivity.
      * unfold localSettingsFile in *. run_all.
        match goal with
        | |- context [updateSettings ?ns ?w0] =>
            destruct (updateSettings ns w0) as [[[]|e] w1]
        end; run_all.
        -- split; [assumption|]. split.
           ++ intros p d [= <-] _ Hd. rewrite Hd in H5. now destruct H5.
           ++ split.
              ** intros p m [= <-] _ Hm. rewrite Hm in H5.
                 destruct H5 as [H5 _]. discriminate H5.
              ** intros [H|H]; [discriminate H|]. injection H as ->.
                 now destruct Hne.
        -- split; [assumption|]. split.
           ++ intros p d [= <-] _ Hd. rewrite Hd in H5.
              destruct H5 as [H5 _]. discriminate H5.
           ++ split.
              ** intros p m [= <-] _ Hm. rewrite Hm in H5.
                 destruct H5 as [H5 H6]. injection H5 as ->.
                 now repeat split.
              ** intros [H|H]; [discriminate H|]. injection H as ->.
                 now destruct Hne.
  - run_all. split; [reflexivity|]. split; [intros p d H; discriminate H|].
    split; [intros p m H; discriminate H|].
    intros _. rewrite <- app_assoc. now repeat split.
Qed.

Lemma typed_path_is_saved_before_it_is_checked_witness :
  inputs (snd (getRemoteExtensionPath installedWorld)) = []
  /\ _remoteExtensionPath (snd (getRemoteExtensionPath installedWorld))
     = Some "/typed/ext".
Proof.
  pose proof (typed_path_is_saved_before_it_is_checked installedWorld
                (Some "/typed/ext") [] eq_refl) as H.
  cbv zeta in H. destruct H as [H1 [H2 _]]. split; [exact H1|].
  exact (proj1 (proj2 (H2 "/typed/ext"
                         [("theme", Str "light");
                          ("fetchUserEnv.remoteSettingsPath", Str "/remote")]
                         eq_refl ltac:(discriminate) eq_refl))).
Defined.

(** ** The dialogs *)

Lemma existsSync_false (w : world) (p : string) :
  existsSync w p = false -> assoc p (settingsFiles w) = None.
Proof.
  unfold existsSync. destruct (assoc p (settingsFiles w)); [|reflexivity].
  discriminate.
Qed.

(** X17.  When the configured file of defaults does not exist, [Ignore]
    forgets the filename for the session and writes nothing, [Disable]
    forgets it and writes [null] for it in the local settings, and in both
    cases the fetch goes on.  A dialog that is dismissed leaves
    the filename in place: the fetch goes on, and the comparison of the
    settings then fails with a [JSONError] that names the missing file of
    defaults. *)
Theorem answers_to_the_defaults_dialog
    (w : world) (remote filename : string) (rest : list choice) :
  _remoteDefaultSettingsFilename w = Some filename -> filename <> "" ->
  _remoteSettingsPath w = Some remote ->
  existsSync w (join remote filename) = false ->
  let asked :=
    setTrace
      (trace w
       ++ [ShowErrorChoice
             "Cannot access default settings at specified remote path."
             defaultsOptions]) w in
  confirmDefaultSettings (Ignore :: rest) w
  = (Ok true, setRemoteDefaultSettingsFilename None asked)
  /\ (forall doc,
        assoc (localSettingsFile w) (settingsFiles w) = Some (Parsed doc) ->
        let w' := snd (confirmDefaultSettings (Disable :: rest) w) in
        fst (confirmDefaultSettings (Disable :: rest) w) = Ok true
        /\ _remoteDefaultSettingsFilename w' = None
        /\ assoc (localSettingsFile w) (settingsFiles w')
           = Some (Parsed
                     (assign doc
                        [("fetchUserEnv.remoteDefaultSettingsFilename",
                          Null)])))
  /\ confirmDefaultSettings (Dismissed :: rest) w = (Ok true, asked)
  /\ confirmDefaultSettings [] w = (Ok true, asked)
  /\ (exists message,
        fst (compareSettings asked)
        = Throw (JSONError message (join remote filename))).
Proof.
  intros Hf Hne Hr He. cbn zeta.
  apply String.eqb_neq in Hne.
  assert (Hhead : forall (next : M bool),
    bind getWorld (fun w =>
      match _remoteDefaultSettingsFilename w with
      | None => ret true
      | Some filename =>
          if String.eqb filename "" then ret true
          else
            bind (joinField (_remoteSettingsPath w) filename)
              (fun defaultsFile =>
                 if existsSync w defaultsFile then ret true
                 else
                   bind (emit (ShowErrorChoice
                           "Cannot access default settings at specified remote path."
                           defaultsOptions)) (fun _ => next))
      end) w
    = next (setTrace
              (trace w
               ++ [ShowErrorChoice
                     "Cannot access default settings at specified remote path."
                     defaultsOptions]) w)).
  { intros next. rewrite (bind_run getWorld _ w w w eq_refl).
    rewrite Hf, Hne, Hr. cbn [joinField].
    rewrite (bind_run (ret _) _ w w _ eq_refl). rewrite He.
    now erewrite (bind_run (emit _)) by reflexivity. }
  split; [|split; [|split; [|split]]].
  - cbn [confirmDefaultSettings]. rewrite Hhead. reflexivity.
  - intros doc Hd. cbn zeta. cbn [confirmDefaultSettings]. rewrite Hhead.
    unfold saveDefaultSettingsFilename, tryCatch. run_all.
    match goal with
    | |- context [updateSettings ?ns ?w0] =>
        destruct (updateSettings_run ns w0) as [_ [_ [H3 [_ H5]]]];
        unfold localSettingsFile in *; run_all; rewrite Hd in H5;
        destruct H5 as [H5 H6];
        destruct (updateSettings ns w0) as [[[]|e] w1]
    end; run_all; [|discriminate H5].
    now repeat split.
  - cbn [confirmDefaultSettings]. rewrite Hhead. reflexivity.
  - cbn [confirmDefaultSettings]. rewrite Hhead. reflexivity.
  - unfold compareSettings, compareDefaultSettings. run_all.
    rewrite Hf, Hne, Hr. run_all. rewrite (existsSync_false _ _ He).
    eexists. reflexivity.
Qed.

Lemma answers_to_the_defaults_dialog_witness :
  fst (confirmDefaultSettings [Ignore] missingDefaultsWorld) = Ok true
  /\ assoc (localSettingsFile missingDefaultsWorld)
       (settingsFiles (snd (confirmDefaultSettings [Disable]
                              missingDefaultsWorld)))
     = Some (Parsed
               [("theme", Str "light");
                ("fetchUserEnv.remoteDefaultSettingsFilename", Null)]).
Proof.
  pose proof (answers_to_the_defaults_dialog missingDefaultsWorld "/remote"
                "defaults.json" [] eq_refl ltac:(discriminate) eq_refl
                eq_refl) as H.
  cbv zeta in H. destruct H as [H1 [H2 _]]. split.
  - now rewrite H1.
  - exact (proj2 (proj2 (H2 [("theme", Str "light")] eq_refl))).
Defined.

Lemma confirmExtensionPath_retry (prompt : bool) (w : world) (n : nat) :
  truthy (_remoteExtensionPath w) = true ->
  existsField w (_remoteExtensionPath w) = false ->
  forall t,
    confirmExtensionPath prompt (repeat TryAgain n) false (setTrace t w)
    = (Ok (false, []),
       setTrace
         (t ++ repeat
                 (ShowErrorChoice
                    "Cannot access extensions at specified remote path."
                    pathOptions) (S n))
         w).
Proof.
  intros Ht He.
  assert (Henter : forall t,
            enterExtensionPath prompt false (setTrace t w)
            = (Ok false, setTrace t w)).
  { intros t. unfold enterExtensionPath, bind, getWorld. cbn.
    now rewrite Ht. }
  assert (Hex : forall t,
            existsField (setTrace t w) (_remoteExtensionPath (setTrace t w))
            = false) by (intros t; exact He).
  induction n as [|n IH]; intros t; cbn [repeat confirmExtensionPath];
    rewrite (bind_run _ _ _ _ _ (Henter t)); cbn iota;
    rewrite (bind_run getWorld _ _ _ _ eq_refl); rewrite Hex;
    erewrite (bind_run (emit _)) by reflexivity.
  - reflexivity.
  - match goal with
    | |- context [setTrace (trace (setTrace t w) ++ ?l) (setTrace t w)] =>
        change (setTrace (trace (setTrace t w) ++ l) (setTrace t w))
          with (setTrace (t ++ l) w)
    end.
    rewrite IH. cbn [repeat]. now rewrite <- app_assoc.
Qed.

(** X18.  While the configured extension path does not exist, every
    [Try Again] checks the path and shows the dialog once more, and nothing
    else happens; when the answers run out the operation is given up. *)
Theorem try_again_asks_again
    (compareVer : string -> string -> Z) (prompt : bool) (w : world)
    (n : nat) :
  truthy (_remoteExtensionPath w) = true ->
  existsField w (_remoteExtensionPath w) = false ->
  fetchExtensions compareVer prompt (repeat TryAgain n) w
  = (Ok tt,
     setTrace
       (trace w
        ++ (if prompt then [ChannelClear] else [])
        ++ repeat
             (ShowErrorChoice
                "Cannot access extensions at specified remote path."
                pathOptions) (S n))
       w).
Proof.
  intros Ht He. unfold fetchExtensions. destruct prompt.
  - erewrite (bind_run (emit _)) by reflexivity.
    rewrite (bind_run _ _ _ _ _
               (confirmExtensionPath_retry true w n Ht He _)).
    cbn [fst negb]. now rewrite <- app_assoc.
  - rewrite (bind_run (ret tt) _ w w tt eq_refl).
    rewrite <- (setTrace_same w) at 1. rewrite app_nil_r.
    rewrite (bind_run _ _ _ _ _
               (confirmExtensionPath_retry false w n Ht He _)).
    reflexivity.
Qed.

Lemma try_again_asks_again_witness :
  fst (fetchExtensions differsAsNewer true [TryAgain; TryAgain]
         installedWorld) = Ok tt
  /\ trace (snd (fetchExtensions differsAsNewer true [TryAgain; TryAgain]
                   installedWorld))
     = ChannelClear
       :: repeat
            (ShowErrorChoice
               "Cannot access extensions at specified remote path."
               pathOptions) 3.
Proof.
  pose proof (try_again_asks_again differsAsNewer true installedWorld 2
                eq_refl eq_refl) as H.
  cbn [repeat] in H. split.
  - exact (f_equal fst H).
  - exact (f_equal (fun r => trace (snd r)) H).
Defined.

(** ** copyEnvToRemote *)








